(** * zk-mdl-kit: verification and issuance pipeline

    A shallow embedding of the JavaScript sources of the kit, one module
    for each source file:

    - [SessionTranscript]: src/verifier/sessionTranscript.js
    - [Trust]: the VICAL fetcher (src/unnamed/part_004, imported as
      [./vicalFetcher.js]) and the issuer pinning policy (second part of
      src/issuer/keys.js)
    - [Verifier]: the presentation verifier (src/unnamed/part_002,
      imported as [./verifyPresentation.js])
    - [Issuer]: src/issuer/issueCredential.js
    - [IssuerServer]: the issuer server (src/unnamed/part_003)

    JavaScript values are a small inductive type, objects are finite maps
    of their own properties, a thrown exception is an explicit outcome,
    and everything the code takes from its surroundings (clock, random
    UUIDs, file system, network, cryptography) is an argument.  The
    module [Examples] gives concrete surroundings on which the model
    runs; the properties follow it. *)

From Stdlib Require Import ZArith String Ascii List Lia.
From stdpp Require Import base option list gmap strings pretty.

Set Warnings "-register-all".
Open Scope string_scope.
Open Scope Z_scope.

(* ===================================================================== *)
(** * JavaScript values *)
(* ===================================================================== *)

Module Js.

(** The values the sources handle: what [JSON.parse] can return, plus
    [undefined].  A number is kept as an integer: the code only tests
    numbers for truthiness or compares timestamps. *)
Inductive value : Type :=
  | VUndefined
  | VNull
  | VBool (b : bool)
  | VNum (z : Z)
  | VStr (s : string)
  | VArr (l : list value)
  | VObj (m : gmap string value).

(** A computation that may throw: [Throw msg] carries [error.message]. *)
Inductive outcome (A : Type) : Type :=
  | Return (a : A)
  | Throw (message : string).
Arguments Return {A} a.
Arguments Throw {A} message.

#[global] Instance outcome_ret : MRet outcome := λ A a, Return a.

#[global] Instance outcome_bind : MBind outcome := λ A B k c,
  match c with
  | Return a => k a
  | Throw e => Throw e
  end.

(** [try { c } catch (error) { h error.message }] *)
Definition try_catch {A} (c : outcome A) (h : string → outcome A) : outcome A :=
  match c with
  | Return a => Return a
  | Throw e => h e
  end.

(** ToBoolean. *)
Definition truthy (v : value) : bool :=
  match v with
  | VUndefined | VNull => false
  | VBool b => b
  | VNum z => negb (z =? 0)
  | VStr s => negb (String.eqb s EmptyString)
  | VArr _ | VObj _ => true
  end.

(** [typeof v === 'boolean'] *)
Definition is_boolean (v : value) : bool :=
  match v with VBool _ => true | _ => false end.

(** [typeof v === 'string'] *)
Definition is_string (v : value) : bool :=
  match v with VStr _ => true | _ => false end.

(** [Array.isArray(v)] *)
Definition isArray (v : value) : bool :=
  match v with VArr _ => true | _ => false end.

(** [v === null] *)
Definition is_null (v : value) : bool :=
  match v with VNull => true | _ => false end.

(** [v === false] *)
Definition is_false (v : value) : bool :=
  match v with VBool false => true | _ => false end.

(** [v === 'text'] *)
Definition is_str (text : string) (v : value) : bool :=
  match v with VStr s => String.eqb s text | _ => false end.

(** [a || b] *)
Definition or_else (a b : value) : value := if truthy a then a else b.

(** [a ?? b] *)
Definition nullish_or (a b : value) : value :=
  match a with VUndefined | VNull => b | _ => a end.

Definition type_error : string := "TypeError: cannot read properties of null or undefined".

(** [base.k] for the property names the sources read ([valid],
    [predicates], [vp_token], [code], ...): none of them is an index or
    [length], and no prototype defines them, so only an object can hold
    one.  Reading a property of [null] or [undefined] throws. *)
Definition get (k : string) (base : value) : outcome value :=
  match base with
  | VUndefined | VNull => Throw type_error
  | VObj m => Return (default VUndefined (m !! k))
  | _ => Return VUndefined
  end.

(** [base?.k] *)
Definition get_opt (k : string) (base : value) : value :=
  match base with
  | VObj m => default VUndefined (m !! k)
  | _ => VUndefined
  end.

(** [obj[k] = v] on an ordinary object, [v] a primitive or a parsed JSON
    value.  The key [__proto__] reaches the accessor of
    [Object.prototype] and never creates an own property. *)
Definition set (k : string) (v : value) (obj : gmap string value) : gmap string value :=
  if String.eqb k "__proto__" then obj else <[k := v]> obj.

(** The characters of a string as one-character strings. *)
Fixpoint chars (s : string) : list string :=
  match s with
  | EmptyString => []
  | String c s' => String c EmptyString :: chars s'
  end.

(** [Object.entries(v)] for a value that passed a truthiness test:
    the own enumerable string-keyed properties. *)
Definition entries (v : value) : list (string * value) :=
  match v with
  | VObj m => map_to_list m
  | VArr l => imap (λ i x, (pretty i, x)) l
  | VStr s => imap (λ i c, (pretty i, VStr c)) (chars s)
  | _ => []
  end.

(** [Object.values(v)] *)
Definition values (v : value) : list value := (entries v).*2.

(** [s.split(sep)] for a one-character separator. *)
Fixpoint split (sep : ascii) (s : string) : list string :=
  match s with
  | EmptyString => [EmptyString]
  | String c s' =>
      if Ascii.eqb c sep then EmptyString :: split sep s'
      else match split sep s' with
           | [] => [String c EmptyString]
           | x :: xs => String c x :: xs
           end
  end.

(** [s.includes(c)] for a character. *)
Fixpoint has_char (c : ascii) (s : string) : bool :=
  match s with
  | EmptyString => false
  | String c' s' => Ascii.eqb c' c || has_char c s'
  end.

(** [l.join(sep)] *)
Fixpoint join (sep : string) (l : list string) : string :=
  match l with
  | [] => EmptyString
  | [x] => x
  | x :: xs => x ++ sep ++ join sep xs
  end.

(** [l.slice(1, -1)] *)
Definition slice_1_m1 {A} (l : list A) : list A := removelast (tl l).

(** [l.includes(x)] on strings. *)
Definition includes (x : string) (l : list string) : bool :=
  existsb (String.eqb x) l.

(** [s.startsWith(p)] *)
Definition startsWith (p s : string) : bool := String.prefix p s.

(** [s.substring(n)] *)
Definition substring_from (n : nat) (s : string) : string :=
  String.substring n (String.length s - n) s.

End Js.

Import Js.

(* ===================================================================== *)
(** * verifier/sessionTranscript.js *)
(* ===================================================================== *)

Module SessionTranscript.

Section WithHash.

(** [crypto.createHash('sha256').update(s, 'utf-8').digest('base64')] *)
Variable sha256_base64 : string → string.

(** [hashValue]: [null] for a falsy value; [update] accepts a string (or
    a buffer, which no JSON value is) and throws on anything else. *)
Definition hashValue (v : value) : outcome value :=
  if negb (truthy v) then Return VNull
  else match v with
       | VStr s => Return (VStr (sha256_base64 s))
       | _ => Throw "The data argument must be of type string or an instance of Buffer, TypedArray, or DataView."
       end.

Definition buildSessionTranscript (nonce audience envelope : value) : outcome value :=
  clientIdHash ← hashValue audience;
  nonceHash ← hashValue nonce;
  let handover := VArr [VStr "OpenID4VPDCAPIHandover"; clientIdHash; nonceHash; VNull] in
  Return (VArr [VNull; VNull; handover]).

End WithHash.

Definition warning : string :=
  "SessionTranscript: unexpected non-null values for web handover".

(** [validateSessionTranscript]: the returned boolean and the lines sent
    to [console.warn]. *)
Definition validateSessionTranscript (sessionTranscript : value) : bool * list string :=
  match sessionTranscript with
  | VArr l =>
      if negb (length l =? 3)%nat then (false, [])
      else
        let deviceEngagement := default VUndefined (l !! 0%nat) in
        let readerKey := default VUndefined (l !! 1%nat) in
        let handover := default VUndefined (l !! 2%nat) in
        let log :=
          if negb (is_null deviceEngagement) || negb (is_null readerKey)
          then [warning] else [] in
        if negb (isArray handover) then (false, log)
        else (true, log)
  | _ => (false, [])
  end.

End SessionTranscript.

(* ===================================================================== *)
(** * The VICAL fetcher and the issuer pinning policy *)
(* ===================================================================== *)

Module Trust.

(** The trust list as the fetcher types it:
    [{jurisdictions: [{code, name, issuer, certificates: [...]}],
      timestamp, version}]. *)
Record Certificate := {
  kid : string;
  type : string;
  algorithm : string;
  publicKey : string;
  validFrom : string;
  validUntil : string;
}.

Record Jurisdiction := {
  code : string;
  name : string;
  issuer : string;
  certificates : list Certificate;
}.

Record VicalData := {
  jurisdictions : list Jurisdiction;
  timestamp : string;
  version : string;
}.

(** What [fetch(VICAL_URL)] followed by [response.json()] comes to. *)
Inductive RemoteBody :=
  | BodyNull
      (* the body is the JSON text [null] *)
  | BodyObject (body_jurisdictions : option (list Jurisdiction))
               (body_version : option string).
      (* a field is [None] when the property is missing or falsy *)

Inductive RemoteOutcome :=
  | FetchThrows (message : string)   (* network failure *)
  | NotOk (status : string)          (* [!response.ok] *)
  | InvalidJson (message : string)   (* [response.json()] throws *)
  | Json (body : RemoteBody).

(** The surroundings of one [fetchVical] call. *)
Record World := {
  mkdir : outcome unit;            (* [fs.mkdir(CACHE_DIR, {recursive: true})] *)
  cache_file : option VicalData;   (* [loadFromCache()]: [None] is [null] *)
  remote : RemoteOutcome;
  now : Z;                         (* [Date.now()], milliseconds *)
  now_iso : string;                (* [new Date().toISOString()] *)
  write_ok : bool;                 (* does [fs.writeFile] of the cache succeed *)
  write_truncates : bool;          (* a failing [fs.writeFile] fails after it has opened
                                      the file, not at the open *)
}.

Definition CACHE_TTL : Z := 24 * 60 * 60 * 1000.

Definition getMockVicalData (now_iso : string) : VicalData :=
  let cert k pk := {| kid := k; type := "IACA"; algorithm := "ES256";
                      publicKey := pk;
                      validFrom := "2024-01-01T00:00:00Z";
                      validUntil := "2025-12-31T23:59:59Z" |} in
  {| version := "1.0";
     timestamp := now_iso;
     jurisdictions := [
       {| code := "CA"; name := "California"; issuer := "CA-DMV";
          certificates := [cert "ca-dmv-2024-01" "mock-public-key-ca"] |};
       {| code := "NY"; name := "New York"; issuer := "NY-DMV";
          certificates := [cert "ny-dmv-2024-01" "mock-public-key-ny"] |};
       {| code := "FL"; name := "Florida"; issuer := "FL-DMV";
          certificates := [cert "fl-dmv-2024-01" "mock-public-key-fl"] |} ] |}.

(** [fetchVicalData]: every failure of the request is caught and
    answered with the mock list; it never throws. *)
Definition fetchVicalData (w : World) : RemoteBody :=
  let mock := getMockVicalData (now_iso w) in
  match remote w with
  | FetchThrows _ | NotOk _ | InvalidJson _ =>
      BodyObject (Some (jurisdictions mock)) (Some (version mock))
  | Json body => body
  end.

Section WithDate.

(** [new Date(text).getTime()]: [None] stands for [NaN]. *)
Variable date_parse : string → option Z.

(** [a < b] on two time values; any comparison with [NaN] is false. *)
Definition time_lt (a b : option Z) : bool :=
  match a, b with
  | Some x, Some y => x <? y
  | _, _ => false
  end.

(** [isCacheExpired]: [age > CACHE_TTL] with
    [age = Date.now() - new Date(timestamp).getTime()]. *)
Definition isCacheExpired (now : Z) (timestamp : string) : bool :=
  time_lt (Some CACHE_TTL) ((λ t, now - t) <$> date_parse timestamp).

(** [saveToCache] swallows a failed write.  [fs.writeFile] opens the
    file for writing, which empties it, and then writes: a write that
    fails at the open leaves the cache as it was, one that fails later
    leaves a text cut short, which [loadFromCache] cannot parse. *)
Definition saveToCache (w : World) (data : VicalData) : option VicalData :=
  if write_ok w then Some data
  else if write_truncates w then None
  else cache_file w.

(** The request for the list failed: [fetchVicalData] took its [catch]. *)
Definition request_failed (r : RemoteOutcome) : bool :=
  match r with
  | FetchThrows _ | NotOk _ | InvalidJson _ => true
  | Json _ => false
  end.

(** There is no cache, or [isCacheExpired] holds of it: [fetchVical]
    goes on to refresh. *)
Definition needs_refresh (w : World) : bool :=
  match cache_file w with
  | Some cachedData => isCacheExpired (now w) (timestamp cachedData)
  | None => true
  end.

(** The refresh half of [fetchVical]'s [try] block. *)
Definition refresh (w : World) : outcome (VicalData * option VicalData) :=
  match fetchVicalData w with
  | BodyNull => Throw type_error   (* [response.jurisdictions] on [null] *)
  | BodyObject js v =>
      let vicalData := {| jurisdictions := default [] js;
                          timestamp := now_iso w;
                          version := default "1.0" v |} in
      Return (vicalData, saveToCache w vicalData)
  end.

(** [fetchVical]: the value it resolves to (or the error it rejects
    with), and the content of the cache file afterwards. *)
Definition fetchVical (w : World) : outcome VicalData * option VicalData :=
  let attempt : outcome (VicalData * option VicalData) :=
    _ ← mkdir w;
    match cache_file w with
    | Some cachedData =>
        if negb (isCacheExpired (now w) (timestamp cachedData))
        then Return (cachedData, cache_file w)
        else refresh w
    | None => refresh w
    end in
  match attempt with
  | Return (data, cache') => (Return data, cache')
  | Throw message =>
      (* Try to use stale cache as fallback *)
      match cache_file w with
      | Some cachedData => (Return cachedData, cache_file w)
      | None =>
          (Throw ("VICAL fetch failed and no cache available: " ++ message),
           cache_file w)
      end
  end.

Variable toUpperCase : string → string.

(** [getIssuerCertificates] *)
Definition getIssuerCertificates (w : World) (jurisdictionCode : string)
  : outcome (list Certificate) :=
  vicalData ← (fetchVical w).1;
  match List.find (λ j, String.eqb (code j) (toUpperCase jurisdictionCode))
                  (jurisdictions vicalData) with
  | None => Throw ("Jurisdiction " ++ jurisdictionCode ++ " not found in VICAL")
  | Some jurisdiction => Return (certificates jurisdiction)
  end.

(** [ACCEPTED_JURISDICTIONS]: from the environment when set, else
    [['CA', 'NY', 'FL']]; the add and remove functions change it. *)
Variable ACCEPTED_JURISDICTIONS : list string.

Definition isJurisdictionAccepted (jurisdictionCode : string) : bool :=
  includes (toUpperCase jurisdictionCode) ACCEPTED_JURISDICTIONS.

(** What [verifyIssuer] resolves to:
    [{accepted, reason}] or [{accepted, certificate}]. *)
Record Verdict := {
  accepted : bool;
  reason : option string;
  certificate : option Certificate;
}.

Definition rejected (why : string) : Verdict :=
  {| accepted := false; reason := Some why; certificate := None |}.

(** [issuerCode.split('-')[0]] *)
Definition prefix_of (issuerCode : string) : string :=
  default EmptyString (head (split "-"%char issuerCode)).

(** [certificates.find(c => c.kid === kid)] *)
Definition find_kid (kid' : string) (certificates : list Certificate) : option Certificate :=
  List.find (λ c, String.eqb (kid c) kid') certificates.

(** [now < validFrom || now > validUntil] on [Date] objects. *)
Definition not_currently_valid (now : Z) (cert : Certificate) : bool :=
  time_lt (Some now) (date_parse (validFrom cert))
  || time_lt (date_parse (validUntil cert)) (Some now).

Definition verifyIssuer (w : World) (issuerCode kid' : string) : Verdict :=
  let jurisdictionCode := toUpperCase (prefix_of issuerCode) in
  if negb (isJurisdictionAccepted jurisdictionCode) then
    rejected ("Jurisdiction " ++ jurisdictionCode ++ " not in accepted list")
  else
    match getIssuerCertificates w jurisdictionCode with
    | Throw message => rejected ("Error verifying issuer: " ++ message)
    | Return certificates =>
        match find_kid kid' certificates with
        | None =>
            rejected ("Key ID " ++ kid' ++ " not found in trusted certificates for "
                      ++ jurisdictionCode)
        | Some cert =>
            if not_currently_valid (now w) cert then
              rejected ("Certificate " ++ kid' ++ " is not currently valid")
            else
              {| accepted := true; reason := None; certificate := Some cert |}
        end
    end.

End WithDate.

End Trust.

(* ===================================================================== *)
(** * The presentation verifier *)
(* ===================================================================== *)

Module Verifier.

(** How the [try] block of [verifyWithLongfellow] ends. *)
Inductive FetchOutcome :=
  | ConnectionRefused (message : string)
      (* it throws an error with [code === 'ECONNREFUSED'] *)
  | OtherFailure (message : string)
      (* it throws any other error *)
  | HttpError (status errorText : string)
      (* [!response.ok] *)
  | HttpOk (result : value).
      (* [await response.json()] *)

(** The surroundings of one [verifyPresentation] call. *)
Record World := {
  (* [getReaderKeys], [importJWK], [compactDecrypt], [JSON.parse] *)
  decrypt : string → outcome value;
  (* the POST to [LONGFELLOW_URL/verify] with body [{proof, sessionTranscript}] *)
  longfellow : value → value → FetchOutcome;
  nonce_uuid : string;      (* [crypto.randomUUID()] for a missing nonce *)
  session_uuid : string;    (* [crypto.randomUUID()] for the session id *)
  now_iso : string;         (* [new Date().toISOString()] *)
}.

Definition AGE_OVER_21 : string := "org.iso.18013.5.1.age_over_21".
Definition AGE_OVER_18 : string := "org.iso.18013.5.1.age_over_18".
Definition NOT_EXPIRED : string := "org.iso.18013.5.1.not_expired".

Definition mockLongfellowResponse (now_iso : string) (vpToken : value) : value :=
  VObj (<["valid" := VBool true]>
       (<["predicates" := VObj (<[AGE_OVER_21 := VBool true]>
                               (<[NOT_EXPIRED := VBool true]> ∅))]>
       (<["issuer" := VStr "CA-DMV"]>
       (<["issuedAt" := VStr now_iso]>
       (<["mock" := VBool true]> ∅))))).

Definition verifyWithLongfellow (w : World) (vpToken sessionTranscript : value) : value :=
  match longfellow w vpToken sessionTranscript with
  | HttpError status errorText =>
      VObj (<["valid" := VBool false]>
           (<["error" := VStr ("Longfellow returned " ++ status ++ ": " ++ errorText)]> ∅))
  | HttpOk result => result
  | ConnectionRefused _ => mockLongfellowResponse (now_iso w) vpToken
  | OtherFailure message =>
      VObj (<["valid" := VBool false]>
           (<["error" := VStr ("Failed to reach Longfellow: " ++ message)]> ∅))
  end.

(** The [for] loop of [extractPredicates]: only boolean entries are
    copied. *)
Definition copy_booleans (source : list (string * value)) : gmap string value :=
  foldl (λ predicates kv, if is_boolean kv.2 then set kv.1 kv.2 predicates else predicates)
        ∅ source.

Definition extractPredicates (longfellowResult : value) : outcome (gmap string value) :=
  remote_predicates ← get "predicates" longfellowResult;
  let predicates :=
    if truthy remote_predicates then copy_booleans (entries remote_predicates) else ∅ in
  let predicates :=
    if truthy (get_opt AGE_OVER_21 remote_predicates)
    then <["over21" := VBool true]> predicates else predicates in
  let predicates :=
    if truthy (get_opt AGE_OVER_18 remote_predicates)
    then <["over18" := VBool true]> predicates else predicates in
  remote_issuer ← get "issuer" longfellowResult;
  let predicates :=
    if truthy remote_issuer
    then <["issuerJurisdiction" := remote_issuer]> predicates else predicates in
  Return (<["notExpired" := VBool (negb (is_false (get_opt NOT_EXPIRED remote_predicates)))]>
          predicates).

(** The names [extractPredicates] adds on its own account. *)
Definition derived_names : list string :=
  ["over21"; "over18"; "issuerJurisdiction"; "notExpired"].

(** What [extractPredicates] makes of [mockLongfellowResponse]. *)
Definition mock_predicates : gmap string value :=
  <[AGE_OVER_21 := VBool true]>
  (<[NOT_EXPIRED := VBool true]>
  (<["over21" := VBool true]>
  (<["issuerJurisdiction" := VStr "CA-DMV"]>
  (<["notExpired" := VBool true]> ∅)))).

Section WithHash.

Variable sha256_base64 : string → string.

(** The object [verifyPresentation] resolves to. *)
Definition verifyPresentation (w : World) (jwe : string) : gmap string value :=
  let attempt : outcome (gmap string value) :=
    envelope ← decrypt w jwe;
    vp_token ← get "vp_token" envelope;
    let vpToken :=
      or_else (or_else (get_opt "mdl" vp_token) vp_token)
              (default VUndefined (head (values (nullish_or vp_token (VObj ∅))))) in
    if negb (truthy vpToken) then
      Return (<["valid" := VBool false]>
             (<["error" := VStr "No vp_token found in decrypted envelope"]> ∅))
    else
      nonce ← get "nonce" envelope;
      aud ← get "aud" envelope;
      sessionTranscript ←
        SessionTranscript.buildSessionTranscript sha256_base64
          (or_else nonce (VStr (nonce_uuid w)))
          (or_else aud (VStr "https://verifier.example.com"))
          envelope;
      let longfellowResult := verifyWithLongfellow w vpToken sessionTranscript in
      valid ← get "valid" longfellowResult;
      if negb (truthy valid) then
        error ← get "error" longfellowResult;
        Return (<["valid" := VBool false]>
               (<["error" := or_else error (VStr "Longfellow verification failed")]> ∅))
      else
        predicates ← extractPredicates longfellowResult;
        Return (<["valid" := VBool true]>
               (<["predicates" := VObj predicates]>
               (<["sessionId" := VStr (session_uuid w)]> ∅))) in
  match attempt with
  | Return result => result
  | Throw message =>
      <["valid" := VBool false]> (<["error" := VStr message]> ∅)
  end.

End WithHash.

End Verifier.

(* ===================================================================== *)
(** * issuer/issueCredential.js *)
(* ===================================================================== *)

Module Issuer.

(** The JWT payload.  [exp], [_sd] and [cnf] are optional on the
    verifying side, where the payload is whatever the token carries:
    [None] is a missing (or falsy) member. *)
Record Payload := {
  iss : string;
  sub : value;
  iat : Z;
  exp : option Z;
  vct : string;
  _sd : option (list string);
  cnf : option value;              (* [cnf.jwk] *)
  _sd_alg : string;
  derivedFrom : string * value;    (* [{type, sessionId}] *)
}.

(** What [issueCredential] resolves to. *)
Record Issued := {
  sdJwt : string;
  disclosures : list string;
  format : string;
}.

(** What [verifyCredential] resolves to:
    [{valid: true, claims, holder, issuer, issuedAt, expiresAt}] or
    [{valid: false, error}].  [claims] holds the own properties of the
    claims object. *)
Inductive Verification :=
  | Valid (claims : gmap string value) (holder : option value)
          (issuer : string) (issuedAt : Z) (expiresAt : option Z)
  | Invalid (error : string).

Definition valid (r : Verification) : bool :=
  match r with Valid _ _ _ _ _ => true | Invalid _ => false end.

Definition claims_of (r : Verification) : option (gmap string value) :=
  match r with Valid c _ _ _ _ => Some c | Invalid _ => None end.

(** [const [salt, key, value] = parsed]: array elements, or the
    characters of a string; anything else is not iterable. *)
Definition destructure3 (parsed : value) : outcome (value * value * value) :=
  let pick (l : list value) :=
    (default VUndefined (l !! 0%nat),
     default VUndefined (l !! 1%nat),
     default VUndefined (l !! 2%nat)) in
  match parsed with
  | VArr l => Return (pick l)
  | VStr s => Return (pick (VStr <$> chars s))
  | _ => Throw "TypeError: value is not iterable"
  end.

Section WithCrypto.

(** [crypto.createHash('sha256').update(s, 'utf-8').digest('base64url')] *)
Variable sha256_base64url : string → string.
(** [crypto.createHash('sha256').update(s).digest('hex')] *)
Variable sha256_hex : string → string.
(** [crypto.randomBytes(16).toString('base64url')], the i-th draw. *)
Variable randomBytes : nat → string.
Variable JSON_stringify : value → string.
Variable JSON_parse : string → outcome value.
(** [Buffer.from(s).toString('base64url')] *)
Variable base64url_encode : string → string.
(** [Buffer.from(s, 'base64url').toString('utf-8')] *)
Variable base64url_decode : string → string.
(** The property key an assignment [claims[key] = value] uses. *)
Variable toPropertyKey : value → string.
(** [getIssuerKeys], [importJWK] and
    [new SignJWT(payload).setProtectedHeader(...).sign(issuerKey)] *)
Variable signJWT : Payload → outcome string.
(** [importJWK(issuerPublicKey, 'ES256')] and
    [jwtVerify(jwt, issuerKey, {algorithms: ['ES256']})] of jose, called
    when the clock reads [now] (seconds): jose verifies the signature and
    validates the registered claims of the payload against its clock. *)
Variable jwtVerify : Z → string → value → outcome Payload.
(** [`http://localhost:${process.env.ISSUER_PORT || 3001}`] *)
Variable issuer_url : string.
(** [parseInt(process.env.DERIVED_VC_TTL || '86400')] *)
Variable DERIVED_VC_TTL : Z.

(** One turn of the loop of [createDisclosures]. *)
Definition disclose (salt key : string) (v : value) : string :=
  base64url_encode (JSON_stringify (VArr [VStr salt; VStr key; v])).

(** [createDisclosures], over [Object.entries(claims)]: the disclosure
    strings and their digests, in the order of the entries. *)
Definition createDisclosures (claims : list (string * value)) : list string * list string :=
  let disclosures := imap (λ i kv, disclose (randomBytes i) kv.1 kv.2) claims in
  (disclosures, sha256_base64url <$> disclosures).


(** Step 2 of [issueCredential]: the SD-JWT payload. *)
Definition payload_of (now : Z) (holderPublicKey holder_kid verificationSessionId : value)
    (disclosureDigests : list string) : Payload :=
  {| iss := issuer_url;
     sub := or_else holder_kid
              (VStr (String.substring 0 16 (sha256_hex (JSON_stringify holderPublicKey))));
     iat := now;
     exp := Some (now + DERIVED_VC_TTL);
     vct := "https://example.com/derived-mdl-vc";
     _sd := Some disclosureDigests;
     cnf := Some holderPublicKey;
     _sd_alg := "sha-256";
     derivedFrom := ("mDL-verification", verificationSessionId) |}.

(** Step 4: [`${jwt}~${disclosures.join('~')}~`] *)
Definition combine (jwt : string) (disclosures : list string) : string :=
  jwt ++ "~" ++ join "~" disclosures ++ "~".

(** [issueCredential] at time [now] (seconds); [claims] are the entries
    of the claims object, in property order. *)
Definition issueCredential (now : Z) (holderPublicKey verificationSessionId : value)
    (claims : list (string * value)) : outcome Issued :=
  let attempt : outcome Issued :=
    let '(disclosures, disclosureDigests) := createDisclosures claims in
    holder_kid ← get "kid" holderPublicKey;
    let payload :=
      payload_of now holderPublicKey holder_kid verificationSessionId disclosureDigests in
    jwt ← signJWT payload;
    Return {| sdJwt := combine jwt disclosures;
              disclosures := disclosures;
              format := "vc+sd-jwt" |} in
  try_catch attempt (λ message, Throw ("Failed to issue credential: " ++ message)).

(** [payload.exp && payload.exp < now] *)
Definition expired (now : Z) (payload : Payload) : bool :=
  match exp payload with
  | Some e => negb (e =? 0) && (e <? now)
  | None => false
  end.

(** [payload._sd && payload._sd.includes(digest)] *)
Definition listed (payload : Payload) (digest : string) : bool :=
  match _sd payload with
  | Some digests => includes digest digests
  | None => false
  end.

(** [JSON.parse(Buffer.from(disclosure, 'base64url').toString('utf-8'))]
    and the destructuring of the result. *)
Definition decode (disclosure : string) : outcome (value * value * value) :=
  parsed ← JSON_parse (base64url_decode disclosure);
  destructure3 parsed.

(** One turn of the decoding loop of [verifyCredential]. *)
Definition reveal (payload : Payload) (claims : gmap string value) (disclosure : string)
  : outcome (gmap string value) :=
  '(salt, key, v) ← decode disclosure;
  let digest := sha256_base64url disclosure in
  if listed payload digest
  then Return (set (toPropertyKey key) v claims)
  else Return claims.

Fixpoint reveal_all (payload : Payload) (claims : gmap string value)
    (disclosures : list string) : outcome (gmap string value) :=
  match disclosures with
  | [] => Return claims
  | disclosure :: rest =>
      claims' ← reveal payload claims disclosure;
      reveal_all payload claims' rest
  end.

(** What jose's [jwtVerify] sees to before it returns a payload: an
    [exp] at or before its clock is refused (the error is jose's, ["exp"
    claim timestamp check failed]). *)
Definition checks_exp (now : Z) (jwt : string) (issuerPublicKey : value) : Prop :=
  ∀ payload e,
    jwtVerify now jwt issuerPublicKey = Return payload → exp payload = Some e → now < e.

(** [verifyCredential] at time [now] (seconds).  The clock is read by
    jose inside [jwtVerify] and once more for the expiry check of the
    function itself; the two readings are taken to be the same second. *)
Definition verifyCredential (now : Z) (sdJwt : string) (issuerPublicKey : value)
  : Verification :=
  let parts := split "~"%char sdJwt in
  let jwt := default EmptyString (head parts) in
  let disclosures := slice_1_m1 parts in   (* Last part is empty *)
  let attempt : outcome Verification :=
    payload ← jwtVerify now jwt issuerPublicKey;
    if expired now payload
    then Return (Invalid "Credential expired")
    else
      claims ← reveal_all payload ∅ disclosures;
      Return (Valid claims (cnf payload) (iss payload) (iat payload) (exp payload)) in
  match attempt with
  | Return r => r
  | Throw message => Invalid message
  end.

End WithCrypto.

End Issuer.

(* ===================================================================== *)
(** * The issuer server *)
(* ===================================================================== *)

Module IssuerServer.

(** A session object: [{authCode, holderPublicKey, verificationSessionId,
    timestamp}], which the token endpoint extends with [accessToken]. *)
Record Session := {
  authCode : string;
  holderPublicKey : value;
  verificationSessionId : value;
  timestamp : string;
  accessToken : option string;
}.

(** The process state: the [sessions] map holds references, so that one
    session object can sit under several keys; [objects] holds the
    session objects; [timers] are the pending [setTimeout] callbacks,
    each with the time it is due and the key it deletes. *)
Record State := {
  sessions : gmap string nat;
  objects : gmap nat Session;
  next_ref : nat;
  timers : list (Z * string);
}.

Definition initial : State :=
  {| sessions := ∅; objects := ∅; next_ref := 0; timers := [] |}.

Record Response := {
  status : Z;
  body : list (string * value);
}.

Definition error_response (st : Z) (code description : string) : Response :=
  {| status := st;
     body := [("error", VStr code); ("error_description", VStr description)] |}.

Definition server_error (message : string) : Response :=
  error_response 500 "server_error" message.

Definition SESSION_TIMEOUT : Z := 10 * 60 * 1000.

(** [sessions.get(key)] for an arbitrary key value: the map only ever
    holds string keys. *)
Definition sessions_get (st : State) (key : value) : option nat :=
  match key with
  | VStr k => sessions st !! k
  | _ => None
  end.

(** The timers due at [now] run: each deletes its key. *)
Definition run_timers (now : Z) (st : State) : State :=
  let due := filter (λ t, t.1 ≤ now) (timers st) in
  {| sessions := foldl (λ m t, delete t.2 m) (sessions st) due;
     objects := objects st;
     next_ref := next_ref st;
     timers := filter (λ t, ¬ (t.1 ≤ now)) (timers st) |}.

(** POST /authorize *)
Definition authorize (now : Z) (now_iso uuid : string) (req_body : value) (st : State)
  : Response * State :=
  let attempt : outcome (Response * State) :=
    verificationSessionId ← get "verificationSessionId" req_body;
    holderPublicKey ← get "holderPublicKey" req_body;
    if negb (truthy verificationSessionId) || negb (truthy holderPublicKey) then
      Return (error_response 400 "invalid_request"
                "Missing verificationSessionId or holderPublicKey", st)
    else
      let authCode := uuid in
      let sessionData := {| authCode := authCode;
                            holderPublicKey := holderPublicKey;
                            verificationSessionId := verificationSessionId;
                            timestamp := now_iso;
                            accessToken := None |} in
      let ref := next_ref st in
      Return ({| status := 200;
                 body := [("authorization_code", VStr authCode);
                          ("expires_in", VNum 600)] |},
              {| sessions := <[authCode := ref]> (sessions st);
                 objects := <[ref := sessionData]> (objects st);
                 next_ref := S ref;
                 (* Auto-expire after 10 minutes *)
                 timers := timers st ++ [(now + SESSION_TIMEOUT, authCode)] |}) in
  match attempt with
  | Return r => r
  | Throw message => (server_error message, st)
  end.

Definition set_accessToken (token : string) (s : Session) : Session :=
  {| authCode := authCode s;
     holderPublicKey := holderPublicKey s;
     verificationSessionId := verificationSessionId s;
     timestamp := timestamp s;
     accessToken := Some token |}.

(** POST /token *)
Definition token (uuid_token uuid_nonce : string) (req_body : value) (st : State)
  : Response * State :=
  let attempt : outcome (Response * State) :=
    grant_type ← get "grant_type" req_body;
    code ← get "code" req_body;
    if negb (is_str "authorization_code" grant_type) then
      Return (error_response 400 "unsupported_grant_type"
                "Only authorization_code grant type is supported", st)
    else
      match sessions_get st code with
      | None =>
          Return (error_response 400 "invalid_grant"
                    "Invalid or expired authorization code", st)
      | Some session =>
          let accessToken := uuid_token in
          Return ({| status := 200;
                     body := [("access_token", VStr accessToken);
                              ("token_type", VStr "bearer");
                              ("expires_in", VNum 3600);
                              ("c_nonce", VStr uuid_nonce);
                              ("c_nonce_expires_in", VNum 300)] |},
                  {| sessions := <[accessToken := session]> (sessions st);
                     objects := alter (set_accessToken accessToken) session (objects st);
                     next_ref := next_ref st;
                     timers := timers st |})
      end in
  match attempt with
  | Return r => r
  | Throw message => (server_error message, st)
  end.

Section WithIssuer.

(** [issueCredential] of issuer/issueCredential.js, at the time (in
    seconds) of the call. *)
Variable issueCredential :
  Z → value → value → list (string * value) → outcome Issuer.Issued.

Definition invalid_token (description : string) : Response :=
  error_response 401 "invalid_token" description.

(** POST /credential; [authorization] is [req.headers.authorization]. *)
Definition credential (now : Z) (uuid_nonce : string) (authorization : option string)
    (req_body : value) (st : State) : Response * State :=
  let attempt : outcome Response :=
    match authorization with
    | None => Return (invalid_token "Missing or invalid access token")
    | Some authHeader =>
        if negb (truthy (VStr authHeader)) || negb (startsWith "Bearer " authHeader) then
          Return (invalid_token "Missing or invalid access token")
        else
          let accessToken := substring_from 7 authHeader in
          match sessions st !! accessToken with
          | None => Return (invalid_token "Invalid or expired access token")
          | Some ref =>
              format ← get "format" req_body;
              proof ← get "proof" req_body;
              if truthy format && negb (is_str "vc+sd-jwt" format) then
                Return (error_response 400 "unsupported_credential_format"
                          "Only vc+sd-jwt format is supported")
              else if truthy proof && negb (is_str "jwt" (get_opt "proof_type" proof)) then
                Return (error_response 400 "invalid_proof"
                          "Only jwt proof type is supported")
              else
                match objects st !! ref with
                | None => Throw type_error
                | Some session =>
                    credential ←
                      issueCredential (now `div` 1000)
                        (holderPublicKey session) (verificationSessionId session)
                        [("over21", VBool true); ("notExpired", VBool true)];
                    Return {| status := 200;
                              body := [("format", VStr "vc+sd-jwt");
                                       ("credential", VStr (Issuer.sdJwt credential));
                                       ("c_nonce", VStr uuid_nonce);
                                       ("c_nonce_expires_in", VNum 300)] |}
                end
          end
    end in
  match attempt with
  | Return r => (r, st)
  | Throw message => (server_error message, st)
  end.

(** A request reaching the server. *)
Inductive Request :=
  | PostAuthorize (now_iso uuid : string) (req_body : value)
  | PostToken (uuid_token uuid_nonce : string) (req_body : value)
  | PostCredential (uuid_nonce : string) (authorization : option string) (req_body : value).

(** The server handles a request arriving at time [now] (milliseconds):
    the timers due by then have run. *)
Definition handle (now : Z) (r : Request) (st : State) : Response * State :=
  let st := run_timers now st in
  match r with
  | PostAuthorize now_iso uuid req_body => authorize now now_iso uuid req_body st
  | PostToken uuid_token uuid_nonce req_body => token uuid_token uuid_nonce req_body st
  | PostCredential uuid_nonce authorization req_body =>
      credential now uuid_nonce authorization req_body st
  end.

(** A run of the server: timed requests in order of arrival, with the
    responses sent. *)
Fixpoint run (requests : list (Z * Request)) (st : State) : list Response * State :=
  match requests with
  | [] => ([], st)
  | (now, r) :: rest =>
      let '(response, st') := handle now r st in
      let '(responses, st'') := run rest st' in
      (response :: responses, st'')
  end.

End WithIssuer.

(** A member of the JSON body of a response. *)
Definition field (name : string) (r : Response) : option value :=
  snd <$> List.find (λ kv, String.eqb kv.1 name) (body r).

(** The response is the error [code]. *)
Definition is_error (code : string) (r : Response) : bool :=
  match field "error" r with
  | Some (VStr c) => String.eqb c code
  | _ => false
  end.

(** The body [{grant_type: 'authorization_code', code}] of a token
    request. *)
Definition token_request (code : string) : value :=
  VObj (<["grant_type" := VStr "authorization_code"]> (<["code" := VStr code]> ∅)).

(** The body [{verificationSessionId, holderPublicKey}] of an
    authorization request. *)
Definition authorize_request (verificationSessionId holderPublicKey : value) : value :=
  VObj (<["verificationSessionId" := verificationSessionId]>
       (<["holderPublicKey" := holderPublicKey]> ∅)).

End IssuerServer.

(* ===================================================================== *)
(** * The rest of the kit

    Further modules, for the code around the pipeline:

    - [TrustMaintenance]: [refreshVicalCache] of the VICAL fetcher
      (src/unnamed/part_004) and the allow-list functions of the pinning
      policy (second part of src/issuer/keys.js)
    - [Iaca]: src/trust/iacaLoader.js
    - [Keys]: [getIssuerKeys] (src/issuer/keys.js) and [getReaderKeys]
      (src/verifier/keys.js)
    - [IssuerRuns]: predicates on runs of the issuer server
    - [VerifierServer]: the verify endpoint of the verifier server
      (src/unnamed/part_001) *)
(* ===================================================================== *)

(* ===================================================================== *)
(** * Maintenance of the trust list and of the allow-list *)
(* ===================================================================== *)

Module TrustMaintenance.

Import Trust.

(** The file system after the [try { await fs.unlink(cacheFile) }] of
    [refreshVicalCache]: the cache file is gone when the call succeeds,
    and a failed call is ignored. *)
Definition unlink (succeeds : bool) (w : World) : World :=
  if succeeds then
    {| mkdir := mkdir w; cache_file := None; remote := remote w;
       now := now w; now_iso := now_iso w; write_ok := write_ok w;
       write_truncates := write_truncates w |}
  else w.

Section WithDate.

Variable date_parse : string → option Z.

(** [refreshVicalCache]: delete the cache, then [fetchVical]. *)
Definition refreshVicalCache (unlink_succeeds : bool) (w : World)
  : outcome VicalData * option VicalData :=
  fetchVical date_parse (unlink unlink_succeeds w).

Variable toUpperCase : string → string.

(** [addAcceptedJurisdiction], on the array [ACCEPTED_JURISDICTIONS]:
    the array after the call. *)
Definition addAcceptedJurisdiction (jurisdictionCode : string)
    (ACCEPTED_JURISDICTIONS : list string) : list string :=
  let code := toUpperCase jurisdictionCode in
  if negb (includes code ACCEPTED_JURISDICTIONS)
  then ACCEPTED_JURISDICTIONS ++ [code]
  else ACCEPTED_JURISDICTIONS.

(** [l.indexOf(x)]: [None] stands for [-1]. *)
Fixpoint indexOf (x : string) (l : list string) : option nat :=
  match l with
  | [] => None
  | y :: l' => if String.eqb y x then Some 0%nat else S <$> indexOf x l'
  end.

(** [removeAcceptedJurisdiction]: [splice(index, 1)] takes out the one
    element at [index]. *)
Definition removeAcceptedJurisdiction (jurisdictionCode : string)
    (ACCEPTED_JURISDICTIONS : list string) : list string :=
  let code := toUpperCase jurisdictionCode in
  match indexOf code ACCEPTED_JURISDICTIONS with
  | Some index => delete index ACCEPTED_JURISDICTIONS
  | None => ACCEPTED_JURISDICTIONS
  end.

(** The loop of [getAcceptedIssuers].  Each iteration calls
    [getIssuerCertificates], which reads the clock, the cache and the
    network again: [worlds i] is what the call of iteration [i] meets.
    A failed call is logged and the jurisdiction left out. *)
Fixpoint getAcceptedIssuers_from (worlds : nat → World) (i : nat)
    (remaining : list string) (issuers : list (string * list Certificate))
  : list (string * list Certificate) :=
  match remaining with
  | [] => issuers
  | jurisdictionCode :: rest =>
      match getIssuerCertificates date_parse toUpperCase (worlds i) jurisdictionCode with
      | Return certificates =>
          getAcceptedIssuers_from worlds (S i) rest
            (issuers ++ [(jurisdictionCode, certificates)])
      | Throw _ => getAcceptedIssuers_from worlds (S i) rest issuers
      end
  end.

Definition getAcceptedIssuers (worlds : nat → World)
    (ACCEPTED_JURISDICTIONS : list string) : list (string * list Certificate) :=
  getAcceptedIssuers_from worlds 0 ACCEPTED_JURISDICTIONS [].

End WithDate.

End TrustMaintenance.

(* ===================================================================== *)
(** * IACA root loader *)
(* ===================================================================== *)

Module Iaca.

(** How [fetch(CA_DMV_IACA_URL)] followed by [response.text()] ends. *)
Inductive Download :=
  | FetchThrows (message : string)
  | NotOk (status : string)          (* [!response.ok] *)
  | TextThrows (message : string)    (* [response.text()] rejects *)
  | Text (pem : string).

(** How [fs.writeFile(cacheFile, pem)] ends.  The file is opened for
    writing, which empties it, and then written. *)
Inductive WriteOutcome :=
  | Written                   (* the file holds the certificate *)
  | NotOpened                 (* the open fails: the file is as it was *)
  | CutShort (remains : string). (* the write fails after the open: the file
                                 holds what was written by then *)

(** The surroundings of one [downloadCAIACA] call. *)
Record World := {
  download : Download;
  mkdir : outcome unit;          (* [fs.mkdir(IACA_CACHE_DIR, {recursive: true})] *)
  write : WriteOutcome;
  cache_file : option string;    (* [loadCachedIACA()]: [None] is [null] *)
}.

Definition newline : string := String "010"%char EmptyString.

Definition getMockCAIACA : string :=
  "-----BEGIN CERTIFICATE-----" ++ newline
  ++ "MIIB0zCCAXqgAwIBAgIUMockIACARoot..." ++ newline
  ++ "(Mock CA DMV IACA Root Certificate for Development)" ++ newline
  ++ "-----END CERTIFICATE-----".

(** [downloadCAIACA]: the certificate it resolves to and the cache file
    afterwards.  It never rejects. *)
Definition downloadCAIACA (w : World) : string * option string :=
  (* the [try] block: how it ends, and the cache file it leaves *)
  let attempt : outcome string * option string :=
    match download w with
    | FetchThrows message => (Throw message, cache_file w)
    | NotOk status => (Throw ("Failed to download: " ++ status), cache_file w)
    | TextThrows message => (Throw message, cache_file w)
    | Text pem =>
        (* Save to cache *)
        match mkdir w with
        | Throw message => (Throw message, cache_file w)
        | Return _ =>
            match write w with
            | Written => (Return pem, Some pem)
            | NotOpened => (Throw "EACCES: permission denied, open", cache_file w)
            | CutShort remains =>
                (Throw "ENOSPC: no space left on device, write", Some remains)
            end
        end
    end in
  match attempt with
  | (Return pem, file) => (pem, file)
  | (Throw _, file) =>
      (* Try loading from cache *)
      match file with
      | Some cached =>
          if truthy (VStr cached) then (cached, file) else (getMockCAIACA, file)
      | None => (getMockCAIACA, file)
      end
  end.

(** [hay.includes(needle)] on strings. *)
Fixpoint string_includes (needle hay : string) : bool :=
  String.prefix needle hay
  || match hay with
     | EmptyString => false
     | String _ hay' => string_includes needle hay'
     end.

(** What [parseIACA] returns. *)
Record Parsed := {
  type : string;
  issuer : string;
  format : string;
  pem : string;
  mock : bool;
}.

Definition parseIACA (pem' : string) : Parsed :=
  {| type := "IACA Root";
     issuer := "CA-DMV";
     format := "X.509";
     pem := pem';
     mock := string_includes "Mock" pem' |}.

Section WithUpper.

Variable toUpperCase : string → string.

(** [getIACARoot] *)
Definition getIACARoot (w : World) (jurisdictionCode : string)
  : outcome string * option string :=
  let code := toUpperCase jurisdictionCode in
  if String.eqb code "CA" then
    let '(pem, cache') := downloadCAIACA w in (Return pem, cache')
  else
    (Throw ("IACA root not available for jurisdiction " ++ code), cache_file w).

End WithUpper.

(** [verifyAgainstIACA]: the object it resolves to, [{valid, mock}] or
    [{valid}]. *)
Definition verifyAgainstIACA (certificate iacaRoot : string) : gmap string value :=
  if string_includes "Mock" iacaRoot then
    <["valid" := VBool true]> (<["mock" := VBool true]> ∅)
  else
    <["valid" := VBool true]> ∅.

End Iaca.

(* ===================================================================== *)
(** * Key files of the issuer and of the reader *)
(* ===================================================================== *)

Module Keys.

(** The surroundings of one [getIssuerKeys] or [getReaderKeys] call. *)
Record World := {
  env_public : option string;    (* [process.env.*_PUBLIC_JWK] *)
  env_private : option string;   (* [process.env.*_PRIVATE_JWK] *)
  key_file : option string;      (* the text of [KEY_FILE]; [None]: it cannot be read *)
  exported_public : gmap string value;    (* [exportJWK(keyPair.publicKey)] *)
  exported_private : gmap string value;   (* [exportJWK(keyPair.privateKey)] *)
  write_ok : bool;               (* does [fs.writeFile(KEY_FILE, ...)] succeed *)
}.

Definition key_pair (publicJwk privateJwk : value) : value :=
  VObj (<["publicJwk" := publicJwk]> (<["privateJwk" := privateJwk]> ∅)).

Section WithJson.

Variable JSON_parse : string → outcome value.
(** [JSON.stringify(keys, null, 2)] *)
Variable JSON_stringify : value → string.

(** The first [try] block, on the texts of the two variables. *)
Definition from_environment (public private : string) : outcome value :=
  publicJwk ← JSON_parse public;
  privateJwk ← JSON_parse private;
  Return (key_pair publicJwk privateJwk).

(** The second [try] block: [Return None] when it is left without a
    [return]. *)
Definition from_file (w : World) : outcome (option value) :=
  match key_file w with
  | None => Throw "ENOENT: no such file or directory"
  | Some keysJson =>
      keys ← JSON_parse keysJson;
      publicJwk ← get "publicJwk" keys;
      if truthy publicJwk then
        privateJwk ← get "privateJwk" keys;
        if truthy privateJwk then Return (Some keys) else Return None
      else Return None
  end.

(** Generation of a new pair; [kid] is the key id the issuer adds to
    both keys (the reader adds none).  A failed write is logged and the
    keys are returned all the same; the key file is then taken to be as
    it was.  (The pair is only generated when that file is missing or of
    no use, and what a write cut short leaves of it does not parse
    either: a later call generates anew in both cases.) *)
Definition generate (kid : option string) (w : World) : value * option string :=
  let with_kid (jwk : gmap string value) :=
    match kid with
    | Some id => <["kid" := VStr id]> jwk
    | None => jwk
    end in
  let keys := key_pair (VObj (with_kid (exported_public w)))
                       (VObj (with_kid (exported_private w))) in
  (keys, if write_ok w then Some (JSON_stringify keys) else key_file w).

(** The common course of [getIssuerKeys] and [getReaderKeys]: the keys
    returned and the text of the key file afterwards. *)
Definition get_keys (kid : option string) (w : World) : value * option string :=
  let environment : option value :=
    match env_public w, env_private w with
    | Some public, Some private =>
        (* an empty variable is falsy *)
        if truthy (VStr public) && truthy (VStr private) then
          match from_environment public private with
          | Return keys => Some keys
          | Throw _ => None
          end
        else None
    | _, _ => None
    end in
  match environment with
  | Some keys => (keys, key_file w)
  | None =>
      match from_file w with
      | Return (Some keys) => (keys, key_file w)
      | Return None | Throw _ => generate kid w
      end
  end.


(** src/verifier/keys.js *)
Definition getReaderKeys (w : World) : value * option string :=
  get_keys None w.

End WithJson.

End Keys.

(* ===================================================================== *)
(** * Runs of the issuer server *)
(* ===================================================================== *)

Module IssuerRuns.

Import IssuerServer.

(** The session object [s] was made by an /authorize request among
    [requests]: one that carried the holder key and the verification
    session of [s] and was answered with the code of [s]. *)
Definition opened_by (requests : list (Z * Request)) (s : Session) : Prop :=
  ∃ now now_iso req_body,
    (now, PostAuthorize now_iso (authCode s) req_body) ∈ requests
    ∧ get "verificationSessionId" req_body = Return (verificationSessionId s)
    ∧ get "holderPublicKey" req_body = Return (holderPublicKey s)
    ∧ truthy (verificationSessionId s) = true
    ∧ truthy (holderPublicKey s) = true.

(** The request stores nothing under [key]: it is neither an /authorize
    request answered with the code [key] nor a /token request answered
    with the access token [key]. *)
Definition leaves_key (key : string) (r : Request) : Prop :=
  match r with
  | PostAuthorize _ uuid _ => uuid ≠ key
  | PostToken uuid_token _ _ => uuid_token ≠ key
  | PostCredential _ _ _ => True
  end.

End IssuerRuns.

(* ===================================================================== *)
(** * Verifier server *)
(* ===================================================================== *)

Module VerifierServer.

Import IssuerServer.

(** POST /api/verify.  [verifyPresentation] is the function of
    verifyPresentation.js, called on whatever value the body holds
    under [response].  A property of the response body whose value is
    [undefined] is left out when the body is sent. *)
Definition api_verify (verifyPresentation : value → gmap string value)
    (now_iso : string) (req_body : value) : Response :=
  let attempt : outcome Response :=
    jwe ← get "response" req_body;
    if negb (truthy jwe) then
      Return {| status := 400;
                body := [("ok", VBool false);
                         ("error", VStr "Missing response (JWE) in request body")] |}
    else
      let result := VObj (verifyPresentation jwe) in
      if negb (truthy (get_opt "valid" result)) then
        Return {| status := 400;
                  body := [("ok", VBool false);
                           ("error", VStr "Verification failed");
                           ("details", get_opt "error" result)] |}
      else
        Return {| status := 200;
                  body := [("ok", VBool true);
                           ("predicates", get_opt "predicates" result);
                           ("sessionId", get_opt "sessionId" result);
                           ("timestamp", VStr now_iso)] |} in
  match attempt with
  | Return response => response
  | Throw message =>
      {| status := 500; body := [("ok", VBool false); ("error", VStr message)] |}
  end.

End VerifierServer.

(* ===================================================================== *)
(** * Concrete surroundings, for running the model on examples *)
(* ===================================================================== *)

Module Examples.

(** Upper-casing of the ASCII letters. *)
Definition upper_char (c : ascii) : ascii :=
  let n := nat_of_ascii c in
  if ((97 <=? n) && (n <=? 122))%nat then ascii_of_nat (n - 32) else c.

Fixpoint toUpperCase (s : string) : string :=
  match s with
  | EmptyString => EmptyString
  | String c s' => String (upper_char c) (toUpperCase s')
  end.

(** [Date] parsing on the time stamps of the examples (milliseconds
    since the epoch); any other text is an invalid date. *)
Definition date_parse (text : string) : option Z :=
  if String.eqb text "2024-01-01T00:00:00Z" then Some 1704067200000
  else if String.eqb text "2025-06-01T00:00:00Z" then Some 1748736000000
  else if String.eqb text "2025-06-03T00:00:00Z" then Some 1748908800000
  else if String.eqb text "2025-12-31T23:59:59Z" then Some 1767225599000
  else None.

(** A list fetched on 2025-06-01, read again two days later while the
    list server cannot be reached. *)
Definition old_list : Trust.VicalData :=
  {| Trust.jurisdictions :=
       [ {| Trust.code := "CA"; Trust.name := "California"; Trust.issuer := "CA-DMV";
            Trust.certificates :=
              [ {| Trust.kid := "ca-dmv-2025-02"; Trust.type := "IACA";
                   Trust.algorithm := "ES256"; Trust.publicKey := "MFkwEwYHKoZIzj0CAQ";
                   Trust.validFrom := "2024-01-01T00:00:00Z";
                   Trust.validUntil := "2025-12-31T23:59:59Z" |} ] |} ];
     Trust.timestamp := "2025-06-01T00:00:00Z";
     Trust.version := "7.3" |}.

Definition offline (cache : option Trust.VicalData) : Trust.World :=
  {| Trust.mkdir := Return ();
     Trust.cache_file := cache;
     Trust.remote := Trust.FetchThrows "getaddrinfo ENOTFOUND vical.dts.aamva.org";
     Trust.now := 1748908800000;
     Trust.now_iso := "2025-06-03T00:00:00Z";
     Trust.write_ok := true;
     Trust.write_truncates := false |}.

(** One hour after the list was fetched: the cache is fresh. *)
Definition cached : Trust.World :=
  {| Trust.mkdir := Return ();
     Trust.cache_file := Some old_list;
     Trust.remote := Trust.FetchThrows "getaddrinfo ENOTFOUND vical.dts.aamva.org";
     Trust.now := 1748739600000;
     Trust.now_iso := "2025-06-01T01:00:00Z";
     Trust.write_ok := true;
     Trust.write_truncates := false |}.

(** The first second of 2026: the certificates of the list have run out. *)
Definition new_year : Trust.World :=
  {| Trust.mkdir := Return ();
     Trust.cache_file := Some old_list;
     Trust.remote := Trust.Json (Trust.BodyObject (Some (Trust.jurisdictions old_list))
                                                  (Some "7.4"));
     Trust.now := 1767225600000;
     Trust.now_iso := "2026-01-01T00:00:00Z";
     Trust.write_ok := true;
     Trust.write_truncates := false |}.

Definition ca_certificate : Trust.Certificate :=
  {| Trust.kid := "ca-dmv-2025-02"; Trust.type := "IACA";
     Trust.algorithm := "ES256"; Trust.publicKey := "MFkwEwYHKoZIzj0CAQ";
     Trust.validFrom := "2024-01-01T00:00:00Z";
     Trust.validUntil := "2025-12-31T23:59:59Z" |}.

(** Issuer pinning with the default allow-list, and without California. *)
Definition pinning : Trust.World → string → string → Trust.Verdict :=
  Trust.verifyIssuer date_parse toUpperCase ["CA"; "NY"; "FL"].

Definition pinning_without_CA : Trust.World → string → string → Trust.Verdict :=
  Trust.verifyIssuer date_parse toUpperCase ["NY"; "FL"].

(** The allow-list as read from [ACCEPTED_JURISDICTIONS=ca,ny]. *)
Definition pinning_lower_case : Trust.World → string → string → Trust.Verdict :=
  Trust.verifyIssuer date_parse toUpperCase ["ca"; "ny"].

(** A list that still carries the certificate of last year, before the
    current one. *)
Definition retired_certificate : Trust.Certificate :=
  {| Trust.kid := "ca-dmv-2024-01"; Trust.type := "IACA";
     Trust.algorithm := "ES256"; Trust.publicKey := "MFkwEwYHKoZIzj0DAQ";
     Trust.validFrom := "2024-01-01T00:00:00Z";
     Trust.validUntil := "2025-12-31T23:59:59Z" |}.

Definition renewed_list : Trust.VicalData :=
  {| Trust.jurisdictions :=
       [ {| Trust.code := "CA"; Trust.name := "California"; Trust.issuer := "CA-DMV";
            Trust.certificates := [retired_certificate; ca_certificate] |} ];
     Trust.timestamp := "2025-06-01T00:00:00Z";
     Trust.version := "7.4" |}.

Definition renewed : Trust.World :=
  {| Trust.mkdir := Return ();
     Trust.cache_file := Some renewed_list;
     Trust.remote := Trust.FetchThrows "getaddrinfo ENOTFOUND vical.dts.aamva.org";
     Trust.now := 1748739600000;
     Trust.now_iso := "2025-06-01T01:00:00Z";
     Trust.write_ok := true;
     Trust.write_truncates := false |}.

(** The mock list as built on 2025-06-03. *)
Definition mock_list : Trust.VicalData := Trust.getMockVicalData "2025-06-03T00:00:00Z".

(** The cache directory cannot be created. *)
Definition read_only (cache : option Trust.VicalData) : Trust.World :=
  {| Trust.mkdir := Throw "EROFS: read-only file system, mkdir";
     Trust.cache_file := cache;
     Trust.remote := Trust.FetchThrows "getaddrinfo ENOTFOUND vical.dts.aamva.org";
     Trust.now := 1748908800000;
     Trust.now_iso := "2025-06-03T00:00:00Z";
     Trust.write_ok := false;
     Trust.write_truncates := false |}.

(** A stand-in for the SHA-256 digests: any function serves where only
    equality of digests matters. *)
Definition digest (s : string) : string := "sha256:" ++ s.

(** A development machine: the presentation decrypts, and nothing
    listens on the port of the proof verifier. *)
Definition envelope : value :=
  VObj (<["vp_token" := VObj (<["mdl" := VStr "o2d2ZXJzaW9uYzEuMA"]> ∅)]>
       (<["nonce" := VStr "n-0S6_WzA2Mj"]>
       (<["aud" := VStr "https://rp.example.org"]> ∅))).

Definition no_longfellow : Verifier.World :=
  {| Verifier.decrypt := λ _, Return envelope;
     Verifier.longfellow := λ _ _,
       Verifier.ConnectionRefused "connect ECONNREFUSED 127.0.0.1:8080";
     Verifier.nonce_uuid := "5b1c6a0e-6f0f-4c59-9a43-0a6d7d1c2f11";
     Verifier.session_uuid := "0d9f4f6e-93a5-4c8e-8d5b-1f0c2e7a9b33";
     Verifier.now_iso := "2025-06-03T00:00:00Z" |}.

(** The verifier answers with a raw attribute next to the predicates. *)
Definition talkative_result : value :=
  VObj (<["valid" := VBool true]>
       (<["predicates" := VObj (<[Verifier.AGE_OVER_21 := VBool true]>
                               (<["birthDate" := VStr "1990-01-01"]> ∅))]>
       (<["issuer" := VStr "CA-DMV"]> ∅))).

Definition talkative_longfellow : Verifier.World :=
  {| Verifier.decrypt := λ _, Return envelope;
     Verifier.longfellow := λ _ _, Verifier.HttpOk talkative_result;
     Verifier.nonce_uuid := "5b1c6a0e-6f0f-4c59-9a43-0a6d7d1c2f11";
     Verifier.session_uuid := "0d9f4f6e-93a5-4c8e-8d5b-1f0c2e7a9b33";
     Verifier.now_iso := "2025-06-03T00:00:00Z" |}.

(** The verifier describes the issuer by an object, and the object
    names the holder. *)
Definition issuer_record : value :=
  VObj (<["authority" := VStr "CA-DMV"]>
       (<["holderName" := VStr "Jane Doe"]>
       (<["birthDate" := VStr "1990-01-01"]> ∅))).

Definition record_result : value :=
  VObj (<["valid" := VBool true]>
       (<["predicates" := VObj (<[Verifier.AGE_OVER_21 := VBool true]> ∅)]>
       (<["issuer" := issuer_record]> ∅))).

Definition record_longfellow : Verifier.World :=
  {| Verifier.decrypt := λ _, Return envelope;
     Verifier.longfellow := λ _ _, Verifier.HttpOk record_result;
     Verifier.nonce_uuid := "5b1c6a0e-6f0f-4c59-9a43-0a6d7d1c2f11";
     Verifier.session_uuid := "0d9f4f6e-93a5-4c8e-8d5b-1f0c2e7a9b33";
     Verifier.now_iso := "2025-06-03T00:00:00Z" |}.

Definition record_minimized : gmap string value :=
  <[Verifier.AGE_OVER_21 := VBool true]>
  (<["over21" := VBool true]>
  (<["issuerJurisdiction" := issuer_record]>
  (<["notExpired" := VBool true]> ∅))).

(** What is left of [talkative_result] after minimization. *)
Definition talkative_minimized : gmap string value :=
  <[Verifier.AGE_OVER_21 := VBool true]>
  (<["over21" := VBool true]>
  (<["issuerJurisdiction" := VStr "CA-DMV"]>
  (<["notExpired" := VBool true]> ∅))).

(** Base64url without padding, on the bytes of a string. *)
Definition alphabet : string :=
  "ABCDEFGHIJKLMNOPQRSTUVWXYZabcdefghijklmnopqrstuvwxyz0123456789-_".

Fixpoint sextets (bytes : list nat) : list nat :=
  match bytes with
  | a :: b :: c :: rest =>
      [a / 4; (a mod 4) * 16 + b / 16; (b mod 16) * 4 + c / 64; c mod 64]%nat
      ++ sextets rest
  | [a; b] => [a / 4; (a mod 4) * 16 + b / 16; (b mod 16) * 4]%nat
  | [a] => [a / 4; (a mod 4) * 16]%nat
  | [] => []
  end.

Fixpoint octets (digits : list nat) : list nat :=
  match digits with
  | a :: b :: c :: d :: rest =>
      [a * 4 + b / 16; (b mod 16) * 16 + c / 4; (c mod 4) * 64 + d]%nat ++ octets rest
  | [a; b; c] => [a * 4 + b / 16; (b mod 16) * 16 + c / 4]%nat
  | [a; b] => [a * 4 + b / 16]%nat
  | _ => []
  end.

Fixpoint index_of (c : ascii) (s : string) : option nat :=
  match s with
  | EmptyString => None
  | String c' s' => if Ascii.eqb c c' then Some 0%nat else S <$> index_of c s'
  end.

Definition base64url_encode (s : string) : string :=
  string_of_list_ascii
    (omap (λ d, String.get d alphabet)
          (sextets (nat_of_ascii <$> list_ascii_of_string s))).

Definition base64url_decode (s : string) : string :=
  string_of_list_ascii
    (ascii_of_nat <$> octets (omap (λ c, index_of c alphabet) (list_ascii_of_string s))).

(** JSON text of the disclosure arrays of the examples,
    [[salt, name, true]] or [[salt, name, false]] with plain strings. *)
Definition quote : string := String "034"%char EmptyString.

Definition JSON_stringify (v : value) : string :=
  match v with
  | VArr [VStr salt; VStr name; VBool b] =>
      "[" ++ quote ++ salt ++ quote ++ "," ++ quote ++ name ++ quote ++ ","
      ++ (if b then "true" else "false") ++ "]"
  | _ => "null"
  end.

(** [s] without its first and last character. *)
Definition inner (s : string) : string :=
  String.substring 1 (String.length s - 2) s.

Definition JSON_parse (text : string) : outcome value :=
  if String.eqb text EmptyString then Throw "Unexpected end of JSON input"
  else
    match split ","%char (inner text) with
    | [salt; name; literal] =>
        if String.eqb literal "true"
        then Return (VArr [VStr (inner salt); VStr (inner name); VBool true])
        else if String.eqb literal "false"
        then Return (VArr [VStr (inner salt); VStr (inner name); VBool false])
        else Throw "Unexpected token in JSON"
    | _ => Throw "Unexpected token in JSON"
    end.

(** The property key of a string is the string. *)
Definition toPropertyKey (v : value) : string :=
  match v with
  | VStr s => s
  | VNull => "null"
  | VBool true => "true"
  | VBool false => "false"
  | VNum z => pretty z
  | _ => "undefined"
  end.

Definition randomBytes (i : nat) : string :=
  match i with
  | 0%nat => "2GLC42sKQveCfGfryNRN9w"
  | 1%nat => "eluV5Og3gSNII8EYnsxA_A"
  | _ => "6Ij7tM-a5iVPGboS5tmvVA"
  end.

Definition holder_jwk : value :=
  VObj (<["kty" := VStr "EC"]> (<["crv" := VStr "P-256"]>
       (<["kid" := VStr "holder-key-1"]> ∅))).

Definition issuer_jwk : value :=
  VObj (<["kty" := VStr "EC"]> (<["crv" := VStr "P-256"]>
       (<["kid" := VStr "issuer-key-1"]> ∅))).

Definition issuer_url : string := "http://localhost:3001".
Definition DERIVED_VC_TTL : Z := 86400.

(** A stand-in for the signature: the token names the issue time, and
    the verifier knows the payloads of the tokens of the examples. *)
Definition signJWT (p : Issuer.Payload) : outcome string :=
  Return ("eyJhbGciOiJFUzI1NiIsInR5cCI6InZjK3NkLWp3dCJ9."
          ++ base64url_encode (pretty (Issuer.iat p)) ++ ".c2lnbmF0dXJl").

Definition issued_at : Z := 1748908800.

Definition two_claims : list (string * value) :=
  [("over21", VBool true); ("notExpired", VBool true)].

Definition disclosures_of (claims : list (string * value)) : list string :=
  (Issuer.createDisclosures digest randomBytes JSON_stringify base64url_encode claims).1.

Definition payload_for (claims : list (string * value)) : Issuer.Payload :=
  Issuer.payload_of digest JSON_stringify issuer_url DERIVED_VC_TTL issued_at
    holder_jwk (VStr "holder-key-1") (VStr "0d9f4f6e-93a5-4c8e-8d5b-1f0c2e7a9b33")
    (digest <$> disclosures_of claims).

(** A stand-in for jose's [jwtVerify]: the token is known or refused,
    and an [exp] at or before the clock is refused. *)
Definition jwtVerify_for (claims : list (string * value))
    (now : Z) (jwt : string) (key : value) : outcome Issuer.Payload :=
  match signJWT (payload_for claims) with
  | Return known =>
      if String.eqb jwt known then
        match Issuer.exp (payload_for claims) with
        | Some e =>
            if e <=? now then Throw (quote ++ "exp" ++ quote ++ " claim timestamp check failed")
            else Return (payload_for claims)
        | None => Return (payload_for claims)
        end
      else Throw "signature verification failed"
  | Throw _ => Throw "signature verification failed"
  end.

Definition issue (now : Z) (holderPublicKey verificationSessionId : value)
    (claims : list (string * value)) : outcome Issuer.Issued :=
  Issuer.issueCredential digest digest randomBytes JSON_stringify base64url_encode
    signJWT issuer_url DERIVED_VC_TTL now holderPublicKey verificationSessionId claims.

Definition verify (claims : list (string * value)) (now : Z) (sdJwt : string)
  : Issuer.Verification :=
  Issuer.verifyCredential digest JSON_parse base64url_decode toPropertyKey
    (jwtVerify_for claims) now sdJwt issuer_jwk.

(** The token of the credential over [two_claims], combined with a
    choice of disclosures. *)
Definition signed_token : string :=
  "eyJhbGciOiJFUzI1NiIsInR5cCI6InZjK3NkLWp3dCJ9.MTc0ODkwODgwMA.c2lnbmF0dXJl".

Definition over21_disclosure : string :=
  Issuer.disclose JSON_stringify base64url_encode (randomBytes 0) "over21" (VBool true).

Definition notExpired_disclosure : string :=
  Issuer.disclose JSON_stringify base64url_encode (randomBytes 1) "notExpired" (VBool true).


(** A verified holder asks for a derived credential. *)
Definition auth_code : string := "8e7f3a2b-9c4d-41e5-b6a7-123456789abc".
Definition first_token : string := "3f2504e0-4f89-41d3-9a0c-0305e82c3301".
Definition second_token : string := "9b2d3c4e-7a61-4f0b-8d2e-5c1a6b7f8e90".
Definition c_nonce : string := "550e8400-e29b-41d4-a716-446655440000".
Definition session_id : value := VStr "0d9f4f6e-93a5-4c8e-8d5b-1f0c2e7a9b33".

(** The server start, in milliseconds. *)
Definition t0 : Z := 1748908800000.

Definition authorize_call : Z * IssuerServer.Request :=
  (t0, IssuerServer.PostAuthorize "2025-06-03T00:00:00.000Z" auth_code
         (IssuerServer.authorize_request session_id holder_jwk)).

Definition token_call (at_ms : Z) (uuid code : string) : Z * IssuerServer.Request :=
  (at_ms, IssuerServer.PostToken uuid c_nonce (IssuerServer.token_request code)).

Definition credential_call (at_ms : Z) (bearer : string) : Z * IssuerServer.Request :=
  (at_ms, IssuerServer.PostCredential c_nonce (Some ("Bearer " ++ bearer)) (VObj ∅)).

(** The server after the authorization and, one second later, the
    first exchange of the code. *)
Definition authorized : IssuerServer.State :=
  (IssuerServer.run issue [authorize_call] IssuerServer.initial).2.

Definition exchanged : IssuerServer.State :=
  (IssuerServer.run issue [authorize_call; token_call (t0 + 1000) first_token auth_code]
     IssuerServer.initial).2.

(** The code exchanged twice, one second apart. *)
Definition exchanged_twice : list IssuerServer.Response :=
  (IssuerServer.run issue
     [authorize_call;
      token_call (t0 + 1000) first_token auth_code;
      token_call (t0 + 2000) second_token auth_code]
     IssuerServer.initial).1.

(** The first access token presented as the code of a token call. *)
Definition token_as_code : IssuerServer.Response * IssuerServer.State :=
  IssuerServer.token second_token c_nonce (IssuerServer.token_request first_token)
    exchanged.

(** The code presented again two seconds after the authorization. *)
Definition code_again : IssuerServer.Response * IssuerServer.State :=
  IssuerServer.handle issue (t0 + 2000)
    (IssuerServer.PostToken second_token c_nonce (IssuerServer.token_request auth_code))
    exchanged.



(** A claim set whose one name is [__proto__] (as [JSON.parse] makes
    it), issued and verified. *)
Definition proto_claims : list (string * value) := [("__proto__", VBool true)].

Definition proto_round_trip : option Issuer.Verification :=
  match issue issued_at holder_jwk session_id proto_claims with
  | Return credential =>
      Some (verify proto_claims (issued_at + 60) (Issuer.sdJwt credential))
  | Throw _ => None
  end.

(** The credential the server issues ten minutes after its start. *)
Definition late_credential : Issuer.Issued :=
  {| Issuer.sdJwt :=
       Issuer.combine
         "eyJhbGciOiJFUzI1NiIsInR5cCI6InZjK3NkLWp3dCJ9.MTc0ODkwOTQwMA.c2lnbmF0dXJl"
         [over21_disclosure; notExpired_disclosure];
     Issuer.disclosures := [over21_disclosure; notExpired_disclosure];
     Issuer.format := "vc+sd-jwt" |}.

End Examples.

(* ===================================================================== *)
(** * Further scenarios *)
(* ===================================================================== *)

Module Scenarios.

Import Examples.

(** An envelope that carries a nonce but no presentation. *)
Definition bare_envelope : value := VObj (<["nonce" := VStr "n-0S6_WzA2Mj"]> ∅).

Definition bare : Verifier.World :=
  {| Verifier.decrypt := λ _, Return bare_envelope;
     Verifier.longfellow := λ _ _, Verifier.HttpOk talkative_result;
     Verifier.nonce_uuid := "5b1c6a0e-6f0f-4c59-9a43-0a6d7d1c2f11";
     Verifier.session_uuid := "0d9f4f6e-93a5-4c8e-8d5b-1f0c2e7a9b33";
     Verifier.now_iso := "2025-06-03T00:00:00Z" |}.

(** A proof verifier that answers the proof of [envelope] and fails on
    every other one. *)
Definition strict_longfellow : Verifier.World :=
  {| Verifier.decrypt := λ _, Return envelope;
     Verifier.longfellow := λ proof _,
       if is_str "o2d2ZXJzaW9uYzEuMA" proof
       then Verifier.HttpOk talkative_result
       else Verifier.OtherFailure "socket hang up";
     Verifier.nonce_uuid := "5b1c6a0e-6f0f-4c59-9a43-0a6d7d1c2f11";
     Verifier.session_uuid := "0d9f4f6e-93a5-4c8e-8d5b-1f0c2e7a9b33";
     Verifier.now_iso := "2025-06-03T00:00:00Z" |}.

(** An answer whose age predicate is a string, not a boolean. *)
Definition loose_predicates : value :=
  VObj (<[Verifier.AGE_OVER_21 := VStr "false"]>
       (<["resident" := VBool false]> ∅)).

Definition loose_result : value :=
  VObj (<["valid" := VBool true]> (<["predicates" := loose_predicates]> ∅)).

Definition loose_minimized : gmap string value :=
  <["resident" := VBool false]>
  (<["over21" := VBool true]>
  (<["notExpired" := VBool true]> ∅)).

(** POST /api/verify over the presentation verifier of a world; a
    response that is not a string never decrypts. *)
Definition verify_in (w : Verifier.World) (response : value) : gmap string value :=
  match response with
  | VStr jwe => Verifier.verifyPresentation digest w jwe
  | _ =>
      <["valid" := VBool false]>
      (<["error" := VStr "Compact JWE must be a string or Uint8Array"]> ∅)
  end.

Definition verify_request : value :=
  VObj (<["response" := VStr "eyJhbGciOiJFQ0RILUVTIn0"]> ∅).

(** The key pair [exportJWK] gives on a first start. *)
Definition exported_public_jwk : gmap string value :=
  <["kty" := VStr "EC"]> (<["crv" := VStr "P-256"]>
  (<["x" := VStr "f83OJ3D2xF1Bg8vub9tLe1gHMzV76e8Tus9uPHvRVEU"]>
  (<["y" := VStr "x_FEzRu9m36HLN_tue659LNpXW6pCyStikYjKIWI5a0"]> ∅))).

Definition exported_private_jwk : gmap string value :=
  <["d" := VStr "jpsQnnGQmL-YBIffH1136cspYG6-0iY7X1fCE9-E9LI"]> exported_public_jwk.

(** JSON text of the objects of the examples: strings, and objects of
    strings or of such objects. *)
Definition json_member (text_of : value → string) (kv : string * value) : string :=
  quote ++ kv.1 ++ quote ++ ": " ++ text_of kv.2.

Definition json_flat (v : value) : string :=
  match v with
  | VStr s => quote ++ s ++ quote
  | VObj m =>
      "{" ++ join ", " (json_member (λ v, match v with
                                          | VStr s => quote ++ s ++ quote
                                          | _ => "null"
                                          end) <$> map_to_list m) ++ "}"
  | _ => "null"
  end.

Definition JSON_stringify (v : value) : string :=
  match v with
  | VObj m => "{" ++ join ", " (json_member json_flat <$> map_to_list m) ++ "}"
  | _ => json_flat v
  end.

Definition issuer_keys : value :=
  Keys.key_pair (VObj (<["kid" := VStr "issuer-key-1"]> exported_public_jwk))
                (VObj (<["kid" := VStr "issuer-key-1"]> exported_private_jwk)).

(** [JSON.parse] on the texts that occur. *)
Definition JSON_parse (text : string) : outcome value :=
  if String.eqb text (JSON_stringify issuer_keys) then Return issuer_keys
  else if String.eqb text (JSON_stringify (VObj exported_public_jwk))
  then Return (VObj exported_public_jwk)
  else if String.eqb text (JSON_stringify (VObj exported_private_jwk))
  then Return (VObj exported_private_jwk)
  else Throw "Unexpected token in JSON".


(** Keys in the environment, next to a key file of an earlier start. *)
Definition configured : Keys.World :=
  {| Keys.env_public := Some (JSON_stringify (VObj exported_public_jwk));
     Keys.env_private := Some (JSON_stringify (VObj exported_private_jwk));
     Keys.key_file := Some (JSON_stringify issuer_keys);
     Keys.exported_public := ∅;
     Keys.exported_private := ∅;
     Keys.write_ok := true |}.

(** The private key is missing from the environment. *)
Definition half_configured : Keys.World :=
  {| Keys.env_public := Some (JSON_stringify (VObj exported_public_jwk));
     Keys.env_private := None;
     Keys.key_file := Some (JSON_stringify issuer_keys);
     Keys.exported_public := ∅;
     Keys.exported_private := ∅;
     Keys.write_ok := true |}.


(** The certificate downloads, and the cache directory is read-only. *)
Definition dmv_root : string :=
  "-----BEGIN CERTIFICATE-----" ++ Iaca.newline
  ++ "MIICLDCCAdKgAwIBAgIUCADMVIACARoot2024" ++ Iaca.newline
  ++ "-----END CERTIFICATE-----".

Definition read_only_cache (cache : option string) : Iaca.World :=
  {| Iaca.download := Iaca.Text dmv_root;
     Iaca.mkdir := Return ();
     Iaca.write := Iaca.NotOpened;
     Iaca.cache_file := cache |}.

End Scenarios.

(* ===================================================================== *)
(** * Properties *)
(* ===================================================================== *)

(** ** Strings: [split] and [join] *)

Lemma split_nonempty sep s : split sep s ≠ [].
Proof.
  destruct s as [|c s]; simpl; [done|].
  destruct (Ascii.eqb c sep); [done|].
  by destruct (split sep s).
Qed.

Lemma split_app_sep sep a b :
  split sep (a ++ String sep b) = (split sep a ++ split sep b)%list.
Proof.
  induction a as [|c a IH]; simpl.
  - by rewrite Ascii.eqb_refl.
  - destruct (Ascii.eqb c sep); [by rewrite IH|].
    rewrite IH. pose proof (split_nonempty sep a) as Hne.
    by destruct (split sep a).
Qed.

Lemma split_no_sep sep s : has_char sep s = false → split sep s = [s].
Proof.
  induction s as [|c s IH]; simpl; [done|].
  intros [Hc Hs]%orb_false_iff. rewrite Hc, IH; done.
Qed.

Lemma split_join sep l :
  Forall (λ s, has_char sep s = false) l → l ≠ [] →
  split sep (join (String sep EmptyString) l) = l.
Proof.
  induction 1 as [|x l Hx Hl IH]; [done|]. intros _.
  destruct l as [|y l]; simpl.
  - by apply split_no_sep.
  - change (split sep (x ++ String sep (join (String sep EmptyString) (y :: l)))
            = x :: y :: l).
    rewrite split_app_sep, (split_no_sep _ _ Hx), IH; done.
Qed.

Lemma slice_1_m1_middle {A} (x y : A) (l : list A) :
  slice_1_m1 (x :: l ++ [y])%list = l.
Proof. unfold slice_1_m1. simpl. apply removelast_last. Qed.

(* ===================================================================== *)
(** ** Session transcript *)
(* ===================================================================== *)

Section SessionTranscriptFacts.

Import SessionTranscript.

Variable sha256_base64 : string → string.

(** Whatever the hashes are, a built transcript has the three-element
    shape with a sequence as handover. *)
Lemma buildSessionTranscript_shape nonce audience envelope t :
  buildSessionTranscript sha256_base64 nonce audience envelope = Return t →
  ∃ a n, t = VArr [VNull; VNull; VArr [VStr "OpenID4VPDCAPIHandover"; a; n; VNull]].
Proof.
  unfold buildSessionTranscript.
  destruct (hashValue sha256_base64 audience) as [a|e] eqn:Ha; simpl; [|done].
  destruct (hashValue sha256_base64 nonce) as [n|e] eqn:Hn; simpl; [|done].
  intros [= <-]. by exists a, n.
Qed.

Lemma validate_build nonce audience envelope t :
  buildSessionTranscript sha256_base64 nonce audience envelope = Return t →
  validateSessionTranscript t = (true, []).
Proof.
  intros H. apply buildSessionTranscript_shape in H as (a & n & ->). reflexivity.
Qed.

End SessionTranscriptFacts.

(** C7, as the claim states it, fails: a transcript with a foreign
    handover tag validates, and so does one whose first two elements are
    not null (the code only warns about them). *)
Lemma validateSessionTranscript_accepts_corrupted :
  (SessionTranscript.validateSessionTranscript
     (VArr [VNull; VNull; VArr [VStr "SomeOtherHandover"; VNull; VNull; VNull]])).1 = true
  ∧ (SessionTranscript.validateSessionTranscript
       (VArr [VStr "engagement"; VNum 7; VArr [VStr "OpenID4VPDCAPIHandover"]])).1 = true.
Proof. split; reflexivity. Qed.

(** C7, amended: [validateSessionTranscript] returns true exactly for a
    three-element array whose third element is an array; so it returns
    false for a non-array, for an array of another length and for a
    handover that is not a sequence.  Neither the handover tag nor the
    first two elements decide the result: non-null first elements only
    produce a console warning. *)
Theorem validateSessionTranscript_shape_only (t : value) :
  ((SessionTranscript.validateSessionTranscript t).1 = true
     ↔ ∃ deviceEngagement readerKey handover,
         t = VArr [deviceEngagement; readerKey; VArr handover])
  ∧ (∀ deviceEngagement readerKey handover,
       SessionTranscript.validateSessionTranscript
         (VArr [deviceEngagement; readerKey; VArr handover])
       = (true,
          if is_null deviceEngagement && is_null readerKey then []
          else [SessionTranscript.warning])).
Proof.
  split.
  - split.
    + destruct t as [| | | | |l|]; simpl; try discriminate.
      destruct l as [|a [|b [|h [|? ?]]]]; simpl; try discriminate.
      destruct h as [| | | | |hl|]; simpl; try discriminate.
      intros _. by exists a, b, hl.
    + intros (a & b & h & ->). reflexivity.
  - intros a b h. unfold SessionTranscript.validateSessionTranscript. simpl.
    by destruct (is_null a), (is_null b).
Qed.

(* ===================================================================== *)
(** ** Trust list and issuer pinning *)
(* ===================================================================== *)

(** [prefix_of] is the text before the first [-]: all of the label when
    there is none. *)
Lemma prefix_of_no_separator (p : string) :
  (∀ c, c ∈ list_ascii_of_string p → c ≠ "-"%char) →
  Trust.prefix_of p = p.
Proof.
  unfold Trust.prefix_of. intros Hp.
  assert (split "-"%char p = [p]) as ->; [|done].
  induction p as [|c p IH]; simpl; [done|].
  destruct (Ascii.eqb_spec c "-"%char) as [->|_].
  - exfalso. apply (Hp "-"%char); [simpl; left|done].
  - rewrite IH; [done|]. intros c' Hc'. apply Hp. simpl. by right.
Qed.

Lemma prefix_of_separator (p rest : string) :
  (∀ c, c ∈ list_ascii_of_string p → c ≠ "-"%char) →
  Trust.prefix_of (p ++ "-" ++ rest) = p.
Proof.
  unfold Trust.prefix_of. intros Hp.
  induction p as [|c p IH]; simpl; [done|].
  destruct (Ascii.eqb_spec c "-"%char) as [->|_].
  - exfalso. apply (Hp "-"%char); [simpl; left|done].
  - assert (∀ c', c' ∈ list_ascii_of_string p → c' ≠ "-"%char) as Hp'.
    { intros c' Hc'. apply Hp. simpl. by right. }
    specialize (IH Hp').
    pose proof (split_nonempty "-"%char (p ++ "-" ++ rest)) as Hne.
    destruct (split "-"%char (p ++ "-" ++ rest)) as [|x xs]; [done|].
    simpl in *. by rewrite IH.
Qed.

Section TrustFacts.

Import Trust.

Variable date_parse : string → option Z.
Variable toUpperCase : string → string.
Variable ACCEPTED_JURISDICTIONS : list string.

Lemma includes_elem_of (x : string) (l : list string) :
  includes x l = true ↔ x ∈ l.
Proof.
  unfold includes. rewrite existsb_exists. setoid_rewrite <-list_elem_of_In.
  split.
  - by intros (y & Hy & ->%String.eqb_eq).
  - intros Hx. exists x. split; [done|]. apply String.eqb_refl.
Qed.

(** [l.find(f)] returns the first element that satisfies [f]. *)
Lemma find_first {A} (f : A → bool) (l : list A) (x : A) :
  List.find f l = Some x
  ↔ ∃ before after, l = (before ++ x :: after)%list ∧ f x = true
                    ∧ ∀ y, y ∈ before → f y = false.
Proof.
  induction l as [|a l IH]; simpl.
  - split; [done|]. intros (before & after & H & _). by destruct before.
  - destruct (f a) eqn:Ha.
    + split.
      * intros [= <-]. exists [], l. split_and!; [done|done|].
        by intros y ?%elem_of_nil.
      * intros ([|b before] & after & H & Hx & Hbefore); simplify_eq/=; [done|].
        rewrite Hbefore in Ha; [done|by left].
    + rewrite IH. split.
      * intros (before & after & -> & Hx & Hbefore). exists (a :: before), after.
        split_and!; [done|done|]. intros y [->|Hy]%elem_of_cons; auto.
      * intros ([|b before] & after & H & Hx & Hbefore); simplify_eq/=; [congruence|].
        exists before, after. split_and!; [done|done|].
        intros y Hy. apply Hbefore. by right.
Qed.

(** The certificate [find] settles on: the first one under the key id. *)
Lemma find_kid_first kid' certs cert :
  find_kid kid' certs = Some cert
  ↔ ∃ earlier later,
      certs = (earlier ++ cert :: later)%list ∧ kid cert = kid'
      ∧ ∀ c, c ∈ earlier → kid c ≠ kid'.
Proof.
  unfold find_kid. rewrite find_first. split.
  - intros (earlier & later & -> & Hk%String.eqb_eq & Hearlier).
    exists earlier, later. split_and!; [done|done|].
    intros c Hc. by apply String.eqb_neq, Hearlier.
  - intros (earlier & later & -> & Hk & Hearlier).
    exists earlier, later. split_and!; [done|by apply String.eqb_eq|].
    intros c Hc. by apply String.eqb_neq, Hearlier.
Qed.

(** The jurisdiction [getIssuerCertificates] settles on: the first one
    of the list under the upper-cased code. *)
Lemma getIssuerCertificates_Return (w : World) (jurisdictionCode : string) certs :
  getIssuerCertificates date_parse toUpperCase w jurisdictionCode = Return certs
  ↔ ∃ vicalData before jurisdiction after,
      (fetchVical date_parse w).1 = Return vicalData
      ∧ jurisdictions vicalData = (before ++ jurisdiction :: after)%list
      ∧ code jurisdiction = toUpperCase jurisdictionCode
      ∧ (∀ j, j ∈ before → code j ≠ toUpperCase jurisdictionCode)
      ∧ certs = certificates jurisdiction.
Proof.
  unfold getIssuerCertificates.
  destruct (fetchVical date_parse w).1 as [vicalData|message]; simpl.
  2: { split; [done|]. by intros (? & ? & ? & ? & ? & _). }
  destruct (List.find _ (jurisdictions vicalData)) as [j|] eqn:Hfind.
  - pose proof Hfind as (before & after & Hl & Hj%String.eqb_eq & Hbefore)%find_first.
    split.
    + intros [= <-]. exists vicalData, before, j, after. split_and!; try done.
      intros j' Hj'. by apply String.eqb_neq, Hbefore.
    + intros (data & before' & j' & after' & [= <-] & Hl' & Hj' & Hbefore' & ->).
      assert (Some j = Some j') as [= ->]; [|done].
      rewrite <-Hfind. apply find_first. exists before', after'.
      split_and!; [done|by apply String.eqb_eq|].
      intros y Hy. by apply String.eqb_neq, Hbefore'.
  - split; [done|].
    intros (data & before' & j' & after' & [= <-] & Hl' & Hj' & Hbefore' & ->).
    assert (None = Some j') as [=]. rewrite <-Hfind. apply find_first.
    exists before', after'. split_and!; [done|by apply String.eqb_eq|].
    intros y Hy. by apply String.eqb_neq, Hbefore'.
Qed.

(** The time check passes when the clock is neither before a
    [validFrom] that parses nor after a [validUntil] that parses. *)
Lemma not_currently_valid_false now cert :
  not_currently_valid date_parse now cert = false
  ↔ (∀ from, date_parse (validFrom cert) = Some from → from ≤ now)
    ∧ (∀ until, date_parse (validUntil cert) = Some until → now ≤ until).
Proof.
  unfold not_currently_valid, time_lt. rewrite orb_false_iff.
  destruct (date_parse (validFrom cert)) as [from|],
           (date_parse (validUntil cert)) as [until|];
    rewrite ?Z.ltb_ge; split; try done.
  - intros [? ?]. split; by intros ? [= <-].
  - intros [H1 H2]. split; [by apply H1|by apply H2].
  - intros [? _]. split; [by intros ? [= <-]|done].
  - intros [H1 _]. split; [by apply H1|done].
  - intros [_ ?]. split; [done|by intros ? [= <-]].
  - intros [_ H2]. split; [done|by apply H2].
Qed.

(** C3: what [verifyIssuer] accepts, said without the functions of the
    code.  The verdict is an acceptance with a certificate exactly when
    (1) the allow-list holds, as one of its entries, the jurisdiction
    prefix of the label in upper case; (2) the certificate is the first
    one with the key id among those of the first jurisdiction of the
    trust list under that code; (3) the clock is neither before its
    [validFrom] nor after its [validUntil], as far as these parse as
    dates.  Every other verdict is a rejection with a reason and no
    certificate.  The claim holds of this for an allow-list written in
    upper case; an entry in lower case (['ca'], from the environment) is
    never matched, so that a label whose prefix is in the list, with a
    known key and inside the window, is rejected all the same. *)
Theorem verifyIssuer_accepts_iff (w : World) (issuerCode kid' : string) :
  let jurisdictionCode := toUpperCase (prefix_of issuerCode) in
  let verdict :=
    verifyIssuer date_parse toUpperCase ACCEPTED_JURISDICTIONS w issuerCode kid' in
  let passes (cert : Certificate) : Prop :=
    (* 1. the allow-list *)
    toUpperCase jurisdictionCode ∈ ACCEPTED_JURISDICTIONS
    (* 2. the key id *)
    ∧ (∃ vicalData before jurisdiction after earlier later,
         (fetchVical date_parse w).1 = Return vicalData
         ∧ jurisdictions vicalData = (before ++ jurisdiction :: after)%list
         ∧ code jurisdiction = toUpperCase jurisdictionCode
         ∧ (∀ j, j ∈ before → code j ≠ toUpperCase jurisdictionCode)
         ∧ certificates jurisdiction = (earlier ++ cert :: later)%list
         ∧ kid cert = kid'
         ∧ (∀ c, c ∈ earlier → kid c ≠ kid'))
    (* 3. the validity window *)
    ∧ (∀ from, date_parse (validFrom cert) = Some from → from ≤ now w)
    ∧ (∀ until, date_parse (validUntil cert) = Some until → now w ≤ until) in
  (∀ cert,
     verdict = {| accepted := true; reason := None; certificate := Some cert |}
     ↔ passes cert)
  ∧ (accepted verdict = true ↔ ∃ cert, passes cert)
  ∧ (accepted verdict = false → is_Some (reason verdict) ∧ certificate verdict = None)
  ∧ (toUpperCase jurisdictionCode ∉ ACCEPTED_JURISDICTIONS →
       verdict = rejected ("Jurisdiction " ++ jurisdictionCode ++ " not in accepted list")).
Proof.
  intros jurisdictionCode verdict passes.
  (* the three checks as the code makes them *)
  assert (∀ cert,
            passes cert
            ↔ isJurisdictionAccepted toUpperCase ACCEPTED_JURISDICTIONS jurisdictionCode
              = true
              ∧ (∃ certs,
                   getIssuerCertificates date_parse toUpperCase w jurisdictionCode
                   = Return certs
                   ∧ find_kid kid' certs = Some cert)
              ∧ not_currently_valid date_parse (now w) cert = false) as Hpasses.
  { intros cert. subst passes. cbv beta.
    unfold isJurisdictionAccepted. rewrite includes_elem_of, not_currently_valid_false.
    split.
    - intros (Hin & (data & before & j & after & earlier & later
                     & Hf & Hl & Hj & Hbefore & Hc & Hk & Hearlier) & Hfrom & Huntil).
      split_and!; try done. exists (certificates j). split.
      + apply getIssuerCertificates_Return. by exists data, before, j, after.
      + apply find_kid_first. by exists earlier, later.
    - intros (Hin & (certs & Hcerts & Hfind) & Hfrom & Huntil).
      apply getIssuerCertificates_Return in Hcerts
        as (data & before & j & after & Hf & Hl & Hj & Hbefore & ->).
      apply find_kid_first in Hfind as (earlier & later & Hc & Hk & Hearlier).
      split_and!; try done. by exists data, before, j, after, earlier, later. }
  assert (∀ cert,
            verdict = {| accepted := true; reason := None; certificate := Some cert |}
            ↔ passes cert) as Hverdict.
  { intros cert. rewrite Hpasses. subst verdict. unfold verifyIssuer.
    fold jurisdictionCode.
    destruct (isJurisdictionAccepted toUpperCase ACCEPTED_JURISDICTIONS jurisdictionCode);
      simpl; [|split; [done|by intros [? _]]].
    destruct (getIssuerCertificates date_parse toUpperCase w jurisdictionCode)
      as [certs|message]; simpl; [|split; [done|by intros (_ & (? & ? & _) & _)]].
    destruct (find_kid kid' certs) as [cert'|] eqn:Hfind; simpl.
    2: { split; [done|]. intros (_ & (certs' & [= <-] & Hf) & _). congruence. }
    destruct (not_currently_valid date_parse (now w) cert') eqn:Hvalid; simpl.
    - split; [done|]. intros (_ & (certs' & [= <-] & Hf) & Hv). congruence.
    - split.
      + intros [= <-]. split_and!; [done|by exists certs|done].
      + intros (_ & (certs' & [= <-] & Hf) & _). congruence. }
  assert (accepted verdict = false →
          is_Some (reason verdict) ∧ certificate verdict = None) as Hrejected.
  { subst verdict. unfold verifyIssuer, rejected.
    repeat case_match; simpl; try done; by eauto. }
  assert (accepted verdict = true →
          ∃ cert, verdict = {| accepted := true; reason := None;
                               certificate := Some cert |}) as Haccepted.
  { subst verdict. unfold verifyIssuer, rejected.
    repeat case_match; simpl; try done. intros _. by eexists. }
  split_and!.
  - exact Hverdict.
  - split.
    + intros (cert & Hcert)%Haccepted. exists cert. by apply Hverdict.
    + intros (cert & Hcert%Hverdict). by rewrite Hcert.
  - exact Hrejected.
  - intros Hout. subst verdict. unfold verifyIssuer. fold jurisdictionCode.
    unfold isJurisdictionAccepted.
    destruct (includes (toUpperCase jurisdictionCode) ACCEPTED_JURISDICTIONS) eqn:Hin;
      [|done].
    by apply includes_elem_of in Hin.
Qed.

End TrustFacts.

(** C3 at work.  With the allow-list [['ca', 'ny']] the label ['ca-DMV']
    is rejected although its prefix is in the list, its key is known and
    the clock is inside the window of the certificate; with the list in
    upper case the same label is accepted.  A key in second place among
    the certificates is found, an unknown key and a certificate that has
    run out are refused. *)
Lemma verifyIssuer_accepts_iff_witness :
  (Trust.prefix_of "ca-DMV" ∈ ["ca"; "ny"]
   ∧ Examples.pinning_lower_case Examples.cached "ca-DMV" "ca-dmv-2025-02"
     = Trust.rejected "Jurisdiction CA not in accepted list"
   ∧ Examples.pinning Examples.cached "ca-DMV" "ca-dmv-2025-02"
     = {| Trust.accepted := true; Trust.reason := None;
          Trust.certificate := Some Examples.ca_certificate |})
  ∧ Examples.pinning Examples.renewed "CA-DMV" "ca-dmv-2025-02"
    = {| Trust.accepted := true; Trust.reason := None;
         Trust.certificate := Some Examples.ca_certificate |}
  ∧ Trust.accepted (Examples.pinning Examples.cached "CA-DMV" "ca-dmv-2019-01") = false
  ∧ Trust.accepted (Examples.pinning Examples.new_year "CA-DMV" "ca-dmv-2025-02") = false.
Proof.
  unfold Examples.pinning, Examples.pinning_lower_case. split_and!.
  - vm_compute. left.
  - destruct (verifyIssuer_accepts_iff Examples.date_parse Examples.toUpperCase
                ["ca"; "ny"] Examples.cached "ca-DMV" "ca-dmv-2025-02")
      as (_ & _ & _ & Hout).
    apply Hout. apply (bool_decide_unpack _). vm_compute. exact I.
  - destruct (verifyIssuer_accepts_iff Examples.date_parse Examples.toUpperCase
                ["CA"; "NY"; "FL"] Examples.cached "ca-DMV" "ca-dmv-2025-02")
      as (Hcert & _).
    apply Hcert. split_and!.
    + apply (bool_decide_unpack _). vm_compute. exact I.
    + exists Examples.old_list, [],
        {| Trust.code := "CA"; Trust.name := "California"; Trust.issuer := "CA-DMV";
           Trust.certificates := [Examples.ca_certificate] |}, [], [], [].
      split_and!; try reflexivity; by intros ? ?%elem_of_nil.
    + intros from [= <-]. vm_compute. intros [=].
    + intros limit [= <-]. vm_compute. intros [=].
  - destruct (verifyIssuer_accepts_iff Examples.date_parse Examples.toUpperCase
                ["CA"; "NY"; "FL"] Examples.renewed "CA-DMV" "ca-dmv-2025-02")
      as (Hcert & _).
    apply Hcert. split_and!.
    + apply (bool_decide_unpack _). vm_compute. exact I.
    + exists Examples.renewed_list, [],
        {| Trust.code := "CA"; Trust.name := "California"; Trust.issuer := "CA-DMV";
           Trust.certificates := [Examples.retired_certificate; Examples.ca_certificate] |},
        [], [Examples.retired_certificate], [].
      split_and!; try reflexivity; [by intros ? ?%elem_of_nil|].
      intros c ->%list_elem_of_singleton. vm_compute. intros [=].
    + intros from [= <-]. vm_compute. intros [=].
    + intros limit [= <-]. vm_compute. intros [=].
  - destruct (verifyIssuer_accepts_iff Examples.date_parse Examples.toUpperCase
                ["CA"; "NY"; "FL"] Examples.cached "CA-DMV" "ca-dmv-2019-01")
      as (_ & Hiff & _).
    apply not_true_is_false. intros (cert & _ & Hkid & _)%Hiff.
    destruct Hkid as (data & before & j & after & earlier & later
                      & [= <-] & Hl & _ & _ & Hc & Hk & _).
    destruct before as [|? [|? ?]]; simplify_eq/=.
    destruct earlier as [|? [|? ?]]; simplify_eq/=.
  - destruct (verifyIssuer_accepts_iff Examples.date_parse Examples.toUpperCase
                ["CA"; "NY"; "FL"] Examples.new_year "CA-DMV" "ca-dmv-2025-02")
      as (_ & Hiff & _).
    apply not_true_is_false. intros (cert & _ & Hkid & _ & Huntil)%Hiff.
    destruct Hkid as (data & before & j & after & earlier & later
                      & [= <-] & Hl & _ & _ & Hc & Hk & _).
    destruct before as [|? [|? ?]]; simplify_eq/=.
    destruct earlier as [|? [|? ?]]; simplify_eq/=.
    specialize (Huntil 1767225599000 eq_refl). vm_compute in Huntil. by apply Huntil.
Defined.

Section FetchFacts.

Import Trust.

Variable date_parse : string → option Z.

(** The list [fetchVical] builds when the request for it failed. *)
Lemma refresh_request_failed (w : World) :
  request_failed (remote w) = true →
  refresh w = Return (getMockVicalData (now_iso w),
                      saveToCache w (getMockVicalData (now_iso w))).
Proof. unfold refresh, fetchVicalData. by destruct (remote w). Qed.

(** C8, amended: when the request for the trust list fails (network
    error, bad status, unparsable body) and the cache is missing or
    expired, [fetchVical] does not fall back on the cache: it resolves to
    the built-in mock list under a fresh timestamp and writes that over
    the cache.  The cache is the fallback only when an exception leaves
    the [try] block (the cache directory cannot be created, or the
    response body is [null]): then the cached list is returned as it is,
    with nothing added to mark it stale, and without a cache the call
    fails with "VICAL fetch failed and no cache available". *)
Theorem fetchVical_refresh_failure (w : World) :
  needs_refresh date_parse w = true →
  (mkdir w = Return () → request_failed (remote w) = true →
     fetchVical date_parse w
     = (Return (getMockVicalData (now_iso w)),
        saveToCache w (getMockVicalData (now_iso w))))
  ∧ ((∃ message, mkdir w = Throw message)
     ∨ (mkdir w = Return () ∧ remote w = Json BodyNull) →
     match cache_file w with
     | Some cachedData => fetchVical date_parse w = (Return cachedData, Some cachedData)
     | None =>
         ∃ message,
           fetchVical date_parse w
           = (Throw ("VICAL fetch failed and no cache available: " ++ message), None)
     end).
Proof.
  unfold needs_refresh, fetchVical. intros Hstale. split.
  - intros -> Hfail. simpl.
    destruct (cache_file w) as [c|] eqn:Hc.
    + rewrite Hstale. simpl. by rewrite (refresh_request_failed w Hfail).
    + by rewrite (refresh_request_failed w Hfail).
  - intros [[message ->]|[-> Hnull]]; simpl.
    + destruct (cache_file w); eauto.
    + assert (refresh w = Throw type_error) as Hr.
      { unfold refresh, fetchVicalData. by rewrite Hnull. }
      destruct (cache_file w) as [c|] eqn:Hc.
      * rewrite Hstale. simpl. by rewrite Hr.
      * rewrite Hr. eauto.
Qed.

(** A fresh cache is returned without any request. *)
Lemma fetchVical_fresh_cache (w : World) cachedData :
  mkdir w = Return () →
  cache_file w = Some cachedData →
  isCacheExpired date_parse (now w) (timestamp cachedData) = false →
  fetchVical date_parse w = (Return cachedData, Some cachedData).
Proof. unfold fetchVical. intros -> -> ->. reflexivity. Qed.

End FetchFacts.

(** C8, as the claim states it, fails.  With the list server out of
    reach and a two-day-old cache, [fetchVical] returns the mock list,
    not the cache, and overwrites the cache with it; with no cache at all
    it returns the mock list instead of failing. *)
Lemma fetchVical_offline_returns_mock :
  Trust.fetchVical Examples.date_parse (Examples.offline (Some Examples.old_list))
    = (Return Examples.mock_list, Some Examples.mock_list)
  ∧ Examples.mock_list ≠ Examples.old_list
  ∧ Trust.fetchVical Examples.date_parse (Examples.offline None)
    = (Return Examples.mock_list, Some Examples.mock_list).
Proof. split_and!; [reflexivity|discriminate|reflexivity]. Qed.

Lemma fetchVical_refresh_failure_witness :
  Trust.fetchVical Examples.date_parse (Examples.offline (Some Examples.old_list))
    = (Return Examples.mock_list, Some Examples.mock_list)
  ∧ Trust.fetchVical Examples.date_parse (Examples.read_only (Some Examples.old_list))
    = (Return Examples.old_list, Some Examples.old_list)
  ∧ ∃ message,
      Trust.fetchVical Examples.date_parse (Examples.read_only None)
      = (Throw ("VICAL fetch failed and no cache available: " ++ message), None).
Proof.
  split_and!.
  - apply (fetchVical_refresh_failure Examples.date_parse
             (Examples.offline (Some Examples.old_list))); reflexivity.
  - apply (fetchVical_refresh_failure Examples.date_parse
             (Examples.read_only (Some Examples.old_list))); [reflexivity|].
    left. eexists. reflexivity.
  - apply (fetchVical_refresh_failure Examples.date_parse
             (Examples.read_only None)); [reflexivity|].
    left. eexists. reflexivity.
Defined.

(* ===================================================================== *)
(** ** Presentation verifier: minimized predicates *)
(* ===================================================================== *)

(** [Object.entries] never lists a key twice. *)
Lemma entries_NoDup (v : value) : NoDup (entries v).*1.
Proof.
  assert (∀ A (f : A → value) (l : list A),
            NoDup (imap (λ i x, (pretty i, f x)) l).*1) as Himap.
  { intros A f l. rewrite fmap_imap.
    apply NoDup_alt. intros i j k.
    rewrite !list_lookup_imap. simpl.
    destruct (l !! i) eqn:Hi, (l !! j) eqn:Hj; simpl; try done.
    intros [= <-] [= Hij]. by apply (inj pretty) in Hij. }
  destruct v as [| | | |s|l|m]; simpl; try apply NoDup_nil_2.
  - apply (Himap string VStr).
  - apply (Himap value id).
  - apply NoDup_fst_map_to_list.
Qed.

Lemma entries_functional (v : value) k x y :
  (k, x) ∈ entries v → (k, y) ∈ entries v → x = y.
Proof.
  intros Hx Hy. pose proof (entries_NoDup v) as Hnd.
  apply (elem_of_list_to_map_1 (M := gmap string) _ _ _ Hnd) in Hx, Hy.
  congruence.
Qed.

Section PredicateFacts.

Import Verifier.

(** The copying loop never adds anything but a boolean entry of its
    source. *)
Lemma copy_step_lookup (source : list (string * value)) (acc : gmap string value) k v :
  foldl (λ predicates kv,
           if is_boolean kv.2 then set kv.1 kv.2 predicates else predicates)
        acc source !! k = Some v →
  acc !! k = Some v ∨ ((k, v) ∈ source ∧ is_boolean v = true).
Proof.
  revert acc. induction source as [|[k' v'] source IH]; intros acc; simpl; [by left|].
  intros H. apply IH in H as [H|[H1 H2]].
  - destruct (is_boolean v') eqn:Hb; [|by left].
    unfold set in H. destruct (String.eqb k' "__proto__"); [by left|].
    destruct (decide (k' = k)) as [->|Hne].
    + rewrite lookup_insert_eq in H. injection H as <-. right. split; [left|done].
    + rewrite lookup_insert_ne in H by done. by left.
  - right. split; [by right|done].
Qed.

Lemma copy_booleans_lookup (source : list (string * value)) k v :
  copy_booleans source !! k = Some v → (k, v) ∈ source ∧ is_boolean v = true.
Proof.
  intros H. apply copy_step_lookup in H as [H|H]; [|done].
  by rewrite lookup_empty in H.
Qed.

(** [extractPredicates] returns on every result that is not [null] or
    [undefined]. *)
Lemma extractPredicates_returns (result : value) :
  result ≠ VNull → result ≠ VUndefined →
  ∃ predicates, extractPredicates result = Return predicates.
Proof.
  intros H1 H2. unfold extractPredicates.
  destruct result; try done; simpl; eauto.
Qed.

(** The data-minimization property of [extractPredicates], from which
    the theorem on [verifyPresentation] follows. *)
Lemma extractPredicates_minimal (result : value) (predicates : gmap string value) :
  extractPredicates result = Return predicates →
  ∃ remote_predicates remote_issuer,
    get "predicates" result = Return remote_predicates
    ∧ get "issuer" result = Return remote_issuer
    (* every entry is a boolean, or the issuer label *)
    ∧ (∀ k v, predicates !! k = Some v →
         is_boolean v = true
         ∨ (k = "issuerJurisdiction" ∧ v = remote_issuer ∧ truthy remote_issuer = true))
    (* a non-boolean remote claim is gone *)
    ∧ (∀ k v, (k, v) ∈ entries remote_predicates → is_boolean v = false →
         k ∉ derived_names → predicates !! k = None)
    (* the derived validity status *)
    ∧ predicates !! "notExpired"
      = Some (VBool (negb (is_false (get_opt NOT_EXPIRED remote_predicates)))).
Proof.
  unfold extractPredicates.
  destruct (get "predicates" result) as [rp|] eqn:Hrp; simpl; [|done].
  destruct (get "issuer" result) as [ri|] eqn:Hri; simpl; [|done].
  intros [= <-]. exists rp, ri. split_and!; try done.
  - set (Q := λ (k : string) (v : value),
               is_boolean v = true
               ∨ (k = "issuerJurisdiction" ∧ v = ri ∧ truthy ri = true)).
    assert (∀ (m : gmap string value) k0 v0,
              Q k0 v0 → (∀ k v, m !! k = Some v → Q k v) →
              ∀ k v, <[k0 := v0]> m !! k = Some v → Q k v) as Hins.
    { intros m k0 v0 H0 Hm k v. destruct (decide (k0 = k)) as [->|Hne].
      - rewrite lookup_insert_eq. by intros [= <-].
      - rewrite lookup_insert_ne by done. apply Hm. }
    assert (∀ (c : bool) (m : gmap string value) k0 v0,
              (c = true → Q k0 v0) → (∀ k v, m !! k = Some v → Q k v) →
              ∀ k v, (if c then <[k0 := v0]> m else m) !! k = Some v → Q k v) as Hif.
    { intros [] m k0 v0 H0 Hm; [apply Hins; auto|done]. }
    apply Hins; [by left|].
    apply Hif; [intros Ht; by right|].
    apply Hif; [intros _; by left|].
    apply Hif; [intros _; by left|].
    intros k v. destruct (truthy rp).
    + intros H. apply copy_booleans_lookup in H as [_ H]. by left.
    + by rewrite lookup_empty.
  - intros k v Hin Hnb Hk.
    assert (k ≠ "over21" ∧ k ≠ "over18" ∧ k ≠ "issuerJurisdiction" ∧ k ≠ "notExpired")
      as (Hk1 & Hk2 & Hk3 & Hk4).
    { unfold derived_names in Hk. rewrite !not_elem_of_cons in Hk. tauto. }
    assert (copy_booleans (entries rp) !! k = None) as Hcopy.
    { destruct (copy_booleans (entries rp) !! k) as [v'|] eqn:Hc; [|done].
      apply copy_booleans_lookup in Hc as [Hin' Hb'].
      assert (v' = v) as ->; [|congruence].
      eapply entries_functional; eauto. }
    rewrite lookup_insert_ne by done.
    repeat (case_match; try rewrite lookup_insert_ne by done); try done.
  - by rewrite lookup_insert_eq.
Qed.

(** The issuer of the answer goes into the result as it is. *)
Lemma extractPredicates_issuer (result remote_issuer : value)
    (predicates : gmap string value) :
  extractPredicates result = Return predicates →
  get "issuer" result = Return remote_issuer →
  truthy remote_issuer = true →
  predicates !! "issuerJurisdiction" = Some remote_issuer.
Proof.
  unfold extractPredicates. intros H Hri Hissuer.
  destruct (get "predicates" result) as [rp|]; simpl in H; [|done].
  rewrite Hri in H. simpl in H. rewrite Hissuer in H. injection H as <-.
  rewrite lookup_insert_ne by done. by rewrite lookup_insert_eq.
Qed.

End PredicateFacts.

Section VerifierFacts.

Import Verifier.

Variable sha256_base64 : string → string.

(** The shapes of the object [verifyPresentation] resolves to: a failure
    [{valid: false, error}], or a success
    [{valid: true, predicates, sessionId}] whose predicates are those
    [extractPredicates] drew from the answer of the proof verifier. *)
Lemma verifyPresentation_shape (w : World) (jwe : string) :
  (∃ error,
     verifyPresentation sha256_base64 w jwe
     = <["valid" := VBool false]> (<["error" := error]> ∅))
  ∨ (∃ vpToken sessionTranscript predicates,
       truthy vpToken = true
       ∧ extractPredicates (verifyWithLongfellow w vpToken sessionTranscript)
         = Return predicates
       ∧ verifyPresentation sha256_base64 w jwe
         = <["valid" := VBool true]>
           (<["predicates" := VObj predicates]>
           (<["sessionId" := VStr (session_uuid w)]> ∅))).
Proof.
  unfold verifyPresentation.
  destruct (decrypt w jwe) as [envelope|e]; simpl; [|by eauto].
  destruct (get "vp_token" envelope) as [vp_token|e]; simpl; [|by eauto].
  set (vpToken := or_else _ _).
  destruct (truthy vpToken) eqn:Hvp; simpl; [|by eauto].
  destruct (get "nonce" envelope) as [nonce|e]; simpl; [|by eauto].
  destruct (get "aud" envelope) as [aud|e]; simpl; [|by eauto].
  destruct (SessionTranscript.buildSessionTranscript _ _ _ _) as [transcript|e];
    simpl; [|by eauto].
  destruct (get "valid" (verifyWithLongfellow w vpToken transcript)) as [valid|e];
    simpl; [|by eauto].
  destruct (truthy valid); simpl.
  - destruct (extractPredicates (verifyWithLongfellow w vpToken transcript))
      as [predicates|e] eqn:Hp; simpl; [|by eauto].
    right. by exists vpToken, transcript, predicates.
  - destruct (get "error" (verifyWithLongfellow w vpToken transcript)); simpl; by eauto.
Qed.

Lemma verifyPresentation_predicates (w : World) (jwe : string) predicates :
  verifyPresentation sha256_base64 w jwe !! "predicates" = Some (VObj predicates) →
  ∃ vpToken sessionTranscript,
    extractPredicates (verifyWithLongfellow w vpToken sessionTranscript)
    = Return predicates
    ∧ verifyPresentation sha256_base64 w jwe
      = <["valid" := VBool true]>
        (<["predicates" := VObj predicates]>
        (<["sessionId" := VStr (session_uuid w)]> ∅)).
Proof.
  destruct (verifyPresentation_shape w jwe)
    as [[error ->]|(vpToken & transcript & p & _ & Hp & ->)].
  - intros H. vm_compute in H. discriminate.
  - intros H. assert (p = predicates) as ->.
    { rewrite lookup_insert_ne, lookup_insert_eq in H by done. congruence. }
    by exists vpToken, transcript.
Qed.

(** C1: what [verifyPresentation] lets through.  The predicates it
    returns were drawn from the answer of the proof verifier so that
    (1) every entry is a boolean, except the entry [issuerJurisdiction];
    (2) a claim among the predicates of the answer whose value is not a
    boolean (a birth date, say) is absent: its name is no key of the
    result unless it is one of the derived names, and its value is
    nowhere; (3) [notExpired] is true unless the answer sets the
    predicate [org.iso.18013.5.1.not_expired] to [false]; but (4) the
    entry [issuerJurisdiction] is the [issuer] member of the answer, put
    there whenever it is truthy and whatever it is: a string label when
    the verifier sends one, a number or an object with all it holds when
    the verifier sends that.  The type test of the copying loop has no
    counterpart here. *)
Theorem verifyPresentation_issuer_forwarded
    (w : World) (jwe : string) (predicates : gmap string value) :
  verifyPresentation sha256_base64 w jwe !! "predicates" = Some (VObj predicates) →
  ∃ vpToken sessionTranscript remote_predicates remote_issuer,
    let longfellowResult := verifyWithLongfellow w vpToken sessionTranscript in
    get "predicates" longfellowResult = Return remote_predicates
    ∧ get "issuer" longfellowResult = Return remote_issuer
    (* 4. the issuer of the answer, forwarded as it came *)
    ∧ (truthy remote_issuer = true →
       predicates !! "issuerJurisdiction" = Some remote_issuer)
    (* 1. *)
    ∧ (∀ k v, predicates !! k = Some v →
         is_boolean v = true
         ∨ (k = "issuerJurisdiction" ∧ v = remote_issuer
            ∧ truthy remote_issuer = true))
    (* 2. *)
    ∧ (∀ k v, (k, v) ∈ entries remote_predicates → is_boolean v = false →
         (k ∉ derived_names → predicates !! k = None)
         ∧ (k ≠ "issuerJurisdiction" → predicates !! k ≠ Some v))
    (* 3. *)
    ∧ predicates !! "notExpired"
      = Some (VBool (negb (is_false (get_opt NOT_EXPIRED remote_predicates))))
    ∧ (predicates !! "notExpired" = Some (VBool false)
       ↔ get_opt NOT_EXPIRED remote_predicates = VBool false).
Proof.
  intros H. apply verifyPresentation_predicates in H as (vpToken & transcript & H & _).
  pose proof H as Hextract.
  apply extractPredicates_minimal in H as (rp & ri & Hrp & Hri & Hbool & Hgone & Hexp).
  exists vpToken, transcript, rp, ri. simpl. split_and!; try done.
  - intros Hissuer. by eapply extractPredicates_issuer.
  - intros k v Hin Hnb. split; [by eapply Hgone|].
    intros Hk Hv. apply Hbool in Hv as [Hv|[Hv _]]; congruence.
  - rewrite Hexp. split.
    + intros [= Hf]. apply negb_false_iff in Hf.
      by destruct (get_opt NOT_EXPIRED rp) as [| |[]| | | |].
    + by intros ->.
Qed.

(** No object [verifyPresentation] resolves to has a [mock] property. *)
Lemma verifyPresentation_no_mock_property (w : World) (jwe : string) :
  verifyPresentation sha256_base64 w jwe !! "mock" = None.
Proof.
  destruct (verifyPresentation_shape w jwe) as [[error ->]|(? & ? & ? & _ & _ & ->)];
    reflexivity.
Qed.

(** C5: with the proof verifier refusing connections, the result of
    [verifyWithLongfellow] is the synthetic one and has [mock: true],
    but the flag is not passed on.  Every successful [verifyPresentation]
    resolves to the synthetic predicates under a fresh session id, and
    neither the result nor its predicates has a [mock] property, so the
    result reads like a genuine verification. *)
Theorem verifyPresentation_mock_unflagged (w : World) (jwe : string) :
  (∀ proof transcript, ∃ message,
     longfellow w proof transcript = ConnectionRefused message) →
  verifyPresentation sha256_base64 w jwe !! "valid" = Some (VBool true) →
  (∀ proof transcript,
     get "mock" (verifyWithLongfellow w proof transcript) = Return (VBool true))
  ∧ verifyPresentation sha256_base64 w jwe
    = <["valid" := VBool true]>
      (<["predicates" := VObj mock_predicates]>
      (<["sessionId" := VStr (session_uuid w)]> ∅))
  ∧ verifyPresentation sha256_base64 w jwe !! "mock" = None
  ∧ mock_predicates !! "mock" = None.
Proof.
  intros Hrefused Hvalid. split_and!.
  - intros proof transcript. unfold verifyWithLongfellow.
    destruct (Hrefused proof transcript) as [message ->]. reflexivity.
  - destruct (verifyPresentation_shape w jwe)
      as [[error Hr]|(vpToken & transcript & p & _ & Hp & ->)].
    { rewrite Hr in Hvalid. vm_compute in Hvalid. discriminate. }
    unfold verifyWithLongfellow in Hp.
    destruct (Hrefused vpToken transcript) as [message Hm]. rewrite Hm in Hp.
    assert (extractPredicates (mockLongfellowResponse (now_iso w) vpToken)
            = Return mock_predicates) as Hmock by reflexivity.
    rewrite Hmock in Hp. by injection Hp as <-.
  - apply verifyPresentation_no_mock_property.
  - reflexivity.
Qed.

End VerifierFacts.

(** C1 at the failing input: the proof verifier describes the issuer by
    an object that names the holder, and the object, birth date
    included, is in the predicates that [verifyPresentation] returns.
    The raw attribute among the predicates of [talkative_result] is
    dropped, as the claim has it. *)
Lemma verifyPresentation_issuer_forwarded_witness :
  Verifier.verifyPresentation Examples.digest Examples.record_longfellow
    "eyJhbGciOiJFQ0RILUVTIn0" !! "predicates"
  = Some (VObj Examples.record_minimized)
  ∧ Examples.record_minimized !! "issuerJurisdiction" = Some Examples.issuer_record
  ∧ is_boolean Examples.issuer_record = false
  ∧ is_string Examples.issuer_record = false
  ∧ get "birthDate" Examples.issuer_record = Return (VStr "1990-01-01")
  ∧ Verifier.verifyPresentation Examples.digest Examples.talkative_longfellow
      "eyJhbGciOiJFQ0RILUVTIn0" !! "predicates"
    = Some (VObj Examples.talkative_minimized)
  ∧ Examples.talkative_minimized !! "birthDate" = None
  ∧ Examples.talkative_minimized !! "notExpired" = Some (VBool true).
Proof.
  assert (Verifier.verifyPresentation Examples.digest Examples.record_longfellow
            "eyJhbGciOiJFQ0RILUVTIn0" !! "predicates"
          = Some (VObj Examples.record_minimized)) as Hleak.
  { vm_compute. reflexivity. }
  assert (Verifier.verifyPresentation Examples.digest Examples.talkative_longfellow
            "eyJhbGciOiJFQ0RILUVTIn0" !! "predicates"
          = Some (VObj Examples.talkative_minimized)) as Hrun.
  { vm_compute. reflexivity. }
  split_and!; [exact Hleak| |reflexivity|reflexivity|reflexivity|exact Hrun| |].
  - destruct (verifyPresentation_issuer_forwarded Examples.digest
                Examples.record_longfellow "eyJhbGciOiJFQ0RILUVTIn0" _ Hleak)
      as (vpToken & transcript & rp & ri & _ & Hri & Hissuer & _).
    injection Hri as <-. by apply Hissuer.
  - destruct (verifyPresentation_issuer_forwarded Examples.digest
                Examples.talkative_longfellow "eyJhbGciOiJFQ0RILUVTIn0" _ Hrun)
      as (vpToken & transcript & rp & ri & Hrp & _ & _ & _ & Hgone & _).
    injection Hrp as <-.
    apply (Hgone "birthDate" (VStr "1990-01-01")).
    + apply elem_of_map_to_list. vm_compute. reflexivity.
    + reflexivity.
    + apply (bool_decide_unpack _). vm_compute. exact I.
  - destruct (verifyPresentation_issuer_forwarded Examples.digest
                Examples.talkative_longfellow "eyJhbGciOiJFQ0RILUVTIn0" _ Hrun)
      as (vpToken & transcript & rp & ri & Hrp & _ & _ & _ & _ & Hexp & _).
    injection Hrp as <-. rewrite Hexp. vm_compute. reflexivity.
Defined.

Lemma verifyPresentation_mock_unflagged_witness :
  Verifier.verifyPresentation Examples.digest Examples.no_longfellow
    "eyJhbGciOiJFQ0RILUVTIn0" !! "valid" = Some (VBool true)
  ∧ Verifier.verifyPresentation Examples.digest Examples.no_longfellow
      "eyJhbGciOiJFQ0RILUVTIn0" !! "predicates" = Some (VObj Verifier.mock_predicates)
  ∧ Verifier.verifyPresentation Examples.digest Examples.no_longfellow
      "eyJhbGciOiJFQ0RILUVTIn0" !! "mock" = None.
Proof.
  split; [reflexivity|].
  destruct (verifyPresentation_mock_unflagged Examples.digest Examples.no_longfellow
              "eyJhbGciOiJFQ0RILUVTIn0") as (_ & Hr & Hm & _).
  - intros proof transcript. eexists. reflexivity.
  - reflexivity.
  - split; [|exact Hm]. rewrite Hr. reflexivity.
Defined.

(* ===================================================================== *)
(** ** Derived credentials: issuing and verifying *)
(* ===================================================================== *)

(** Setting claims one after the other, under distinct names, gives the
    map of the list. *)
Lemma foldl_insert_list_to_map (l : list (string * value)) (acc : gmap string value) :
  NoDup l.*1 →
  foldl (λ m kv, <[kv.1 := kv.2]> m) acc l = list_to_map l ∪ acc.
Proof.
  revert acc. induction l as [|[k v] l IH]; intros acc Hnd; simpl.
  - by rewrite (left_id_L ∅ (∪)).
  - rewrite fmap_cons in Hnd. apply NoDup_cons in Hnd as [Hk Hnd].
    rewrite IH by done.
    rewrite <-insert_union_l. symmetry. apply insert_union_r.
    by apply not_elem_of_list_to_map_1.
Qed.

Section IssuerFacts.

Import Issuer.

Variable sha256_base64url : string → string.
Variable sha256_hex : string → string.
Variable randomBytes : nat → string.
Variable JSON_stringify : value → string.
Variable JSON_parse : string → outcome value.
Variable base64url_encode : string → string.
Variable base64url_decode : string → string.
Variable toPropertyKey : value → string.
Variable signJWT : Payload → outcome string.
Variable jwtVerify : Z → string → value → outcome Payload.
Variable issuer_url : string.
Variable DERIVED_VC_TTL : Z.

(** The wire format splits into the token part, the disclosures and an
    empty last part, as long as there is a disclosure. *)
Lemma split_combine jwt ds :
  has_char "~"%char jwt = false →
  Forall (λ d, has_char "~"%char d = false) ds → ds ≠ [] →
  split "~"%char (combine jwt ds) = (jwt :: ds ++ [EmptyString])%list.
Proof.
  intros Hjwt Hds Hne. unfold combine.
  change (jwt ++ "~" ++ join "~" ds ++ "~")
    with (jwt ++ String "~"%char (join "~" ds ++ String "~"%char EmptyString)).
  rewrite split_app_sep, split_app_sep, (split_no_sep _ _ Hjwt).
  change "~" with (String "~"%char EmptyString). by rewrite split_join.
Qed.

(** Without a disclosure the format has two empty parts after the
    token: [join] of no disclosures is the empty string. *)
Lemma split_combine_nil jwt :
  split "~"%char (combine jwt [])
  = (split "~"%char jwt ++ [EmptyString; EmptyString])%list.
Proof.
  unfold combine.
  change (jwt ++ "~" ++ join "~" [] ++ "~")
    with (jwt ++ String "~"%char (String "~"%char EmptyString)).
  by rewrite split_app_sep.
Qed.

(** The decoding loop stops with an error at a disclosure that does not
    decode. *)
Lemma reveal_all_undecodable payload claims ds d :
  (∃ e, decode JSON_parse base64url_decode d = Throw e) →
  ∃ e, reveal_all sha256_base64url JSON_parse base64url_decode toPropertyKey
         payload claims (ds ++ [d])%list = Throw e.
Proof.
  intros [e He]. revert claims. induction ds as [|d' ds IH]; intros claims; simpl.
  - unfold reveal. rewrite He. simpl. eauto.
  - destruct (reveal _ _ _ _ _ _ _) as [claims'|e'] eqn:Hr; simpl; eauto.
Qed.

(** C2 on the empty claim set: issuing over no claims gives a
    credential string that ends in two delimiters, which
    [verifyCredential] reads as one empty disclosure; that does not
    decode (the empty text is no JSON), so the issued credential is
    rejected whenever it is verified, and no claim set is recovered. *)
Theorem issue_verify_empty_claims
    (now now' : Z) (holderPublicKey verificationSessionId issuerPublicKey : value)
    (credential : Issued) :
  issueCredential sha256_base64url sha256_hex randomBytes JSON_stringify
    base64url_encode signJWT issuer_url DERIVED_VC_TTL
    now holderPublicKey verificationSessionId [] = Return credential →
  (∃ e, JSON_parse (base64url_decode EmptyString) = Throw e) →
  valid (verifyCredential sha256_base64url JSON_parse base64url_decode toPropertyKey
           jwtVerify now' (sdJwt credential) issuerPublicKey) = false
  ∧ claims_of (verifyCredential sha256_base64url JSON_parse base64url_decode
                 toPropertyKey jwtVerify now' (sdJwt credential) issuerPublicKey) = None.
Proof.
  intros Hissue [e He].
  assert (∃ jwt, sdJwt credential = combine jwt []) as [jwt ->].
  { unfold issueCredential in Hissue. simpl in Hissue.
    destruct (get "kid" holderPublicKey) as [kid|]; simpl in Hissue; [|done].
    destruct (signJWT _) as [jwt|]; simpl in Hissue; [|done].
    injection Hissue as <-. by exists jwt. }
  assert (∃ r, verifyCredential sha256_base64url JSON_parse base64url_decode
                 toPropertyKey jwtVerify now' (combine jwt []) issuerPublicKey
               = Invalid r) as [r ->]; [|done].
  unfold verifyCredential. rewrite split_combine_nil.
  pose proof (split_nonempty "~"%char jwt) as Hne.
  destruct (split "~"%char jwt) as [|token extra]; [done|]. simpl.
  change (extra ++ [EmptyString; EmptyString])%list
    with (extra ++ [EmptyString] ++ [EmptyString])%list.
  rewrite (assoc_L (++)), slice_1_m1_middle.
  destruct (jwtVerify now' token issuerPublicKey) as [payload|]; simpl; [|by eauto].
  destruct (expired now' payload); simpl; [by eauto|].
  destruct (reveal_all_undecodable payload ∅ extra EmptyString) as [e' ->].
  - exists e. unfold decode. by rewrite He.
  - simpl. eauto.
Qed.



(** The decoding loop over disclosures that decode and are listed in
    the payload sets their claims one after the other. *)
Lemma reveal_all_listed payload (kept : list (string * (string * value))) acc :
  (∀ d kv, (d, kv) ∈ kept →
     listed payload (sha256_base64url d) = true
     ∧ (∃ salt, decode JSON_parse base64url_decode d = Return (salt, VStr kv.1, kv.2))
     ∧ toPropertyKey (VStr kv.1) = kv.1
     ∧ kv.1 ≠ "__proto__") →
  reveal_all sha256_base64url JSON_parse base64url_decode toPropertyKey
    payload acc kept.*1
  = Return (foldl (λ m kv, <[kv.1 := kv.2]> m) acc kept.*2).
Proof.
  revert acc. induction kept as [|[d kv] kept IH]; intros acc Hkept; simpl; [done|].
  destruct (Hkept d kv) as (Hl & [salt Hd] & Hk & Hp); [left|].
  unfold reveal at 1. rewrite Hd. simpl. rewrite Hl, Hk. simpl.
  unfold set. apply String.eqb_neq in Hp. rewrite Hp.
  apply IH. intros d' kv' Hin. apply Hkept. by right.
Qed.




Lemma reveal_all_returns payload (presented : list string) acc :
  (∀ d, d ∈ presented → ∃ triple, decode JSON_parse base64url_decode d = Return triple) →
  ∃ claims,
    reveal_all sha256_base64url JSON_parse base64url_decode toPropertyKey
      payload acc presented = Return claims.
Proof.
  revert acc. induction presented as [|d ds IH]; intros acc Hdec; simpl; [by eauto|].
  destruct (Hdec d) as [[[salt key] v] Hd]; [left|].
  unfold reveal at 1. rewrite Hd. simpl.
  destruct (listed payload (sha256_base64url d)); simpl;
    apply IH; intros d' Hd'; apply Hdec; by right.
Qed.


End IssuerFacts.

Lemma issue_verify_empty_claims_witness :
  ∃ credential,
    Examples.issue Examples.issued_at Examples.holder_jwk
      (VStr "0d9f4f6e-93a5-4c8e-8d5b-1f0c2e7a9b33") [] = Return credential
    ∧ Issuer.sdJwt credential = Examples.signed_token ++ "~~"
    ∧ Issuer.valid (Examples.verify [] (Examples.issued_at + 60) (Issuer.sdJwt credential))
      = false.
Proof.
  eexists. split; [reflexivity|]. split; [reflexivity|].
  unfold Examples.verify.
  eapply (issue_verify_empty_claims Examples.digest Examples.digest Examples.randomBytes
            Examples.JSON_stringify Examples.JSON_parse Examples.base64url_encode
            Examples.base64url_decode Examples.toPropertyKey Examples.signJWT
            (Examples.jwtVerify_for []) Examples.issuer_url Examples.DERIVED_VC_TTL
            Examples.issued_at (Examples.issued_at + 60) Examples.holder_jwk
            (VStr "0d9f4f6e-93a5-4c8e-8d5b-1f0c2e7a9b33")).
  - reflexivity.
  - eexists. reflexivity.
Defined.


(** The round trip also loses a claim named [__proto__]: the assignment
    [claims[key] = value] of [verifyCredential] reaches the prototype
    accessor, so the credential verifies with no claim at all. *)
Lemma issue_verify_proto_claim :
  Issuer.valid <$> Examples.proto_round_trip = Some true
  ∧ (Issuer.claims_of <$> Examples.proto_round_trip) = Some (Some ∅)
  ∧ (list_to_map Examples.proto_claims : gmap string value) ≠ ∅.
Proof.
  split_and!; [vm_compute; reflexivity|vm_compute; reflexivity|].
  intros H. apply (f_equal (λ m : gmap string value, m !! "__proto__")) in H.
  vm_compute in H. discriminate.
Qed.



(* ===================================================================== *)
(** ** Issuance sessions *)
(* ===================================================================== *)

Section SessionFacts.

Import IssuerServer.

(** The token endpoint, case by case. *)
Lemma token_cases uuid_token uuid_nonce req_body st grant_type code :
  get "grant_type" req_body = Return grant_type →
  get "code" req_body = Return code →
  token uuid_token uuid_nonce req_body st
  = if negb (is_str "authorization_code" grant_type) then
      (error_response 400 "unsupported_grant_type"
         "Only authorization_code grant type is supported", st)
    else
      match sessions_get st code with
      | None =>
          (error_response 400 "invalid_grant" "Invalid or expired authorization code", st)
      | Some session =>
          ({| status := 200;
              body := [("access_token", VStr uuid_token);
                       ("token_type", VStr "bearer");
                       ("expires_in", VNum 3600);
                       ("c_nonce", VStr uuid_nonce);
                       ("c_nonce_expires_in", VNum 300)] |},
           {| sessions := <[uuid_token := session]> (sessions st);
              objects := alter (set_accessToken uuid_token) session (objects st);
              next_ref := next_ref st;
              timers := timers st |})
      end.
Proof.
  intros Hg Hc. unfold token. rewrite Hg. simpl. rewrite Hc. simpl.
  destruct (is_str "authorization_code" grant_type); simpl; [|done].
  by destruct (sessions_get st code).
Qed.

(** The authorization endpoint on a request with both members. *)
Lemma authorize_cases now now_iso uuid req_body st verificationSessionId holderPublicKey :
  get "verificationSessionId" req_body = Return verificationSessionId →
  get "holderPublicKey" req_body = Return holderPublicKey →
  truthy verificationSessionId = true →
  truthy holderPublicKey = true →
  authorize now now_iso uuid req_body st
  = ({| status := 200;
        body := [("authorization_code", VStr uuid); ("expires_in", VNum 600)] |},
     {| sessions := <[uuid := next_ref st]> (sessions st);
        objects := <[next_ref st := {| authCode := uuid;
                                       holderPublicKey := holderPublicKey;
                                       verificationSessionId := verificationSessionId;
                                       timestamp := now_iso;
                                       accessToken := None |}]> (objects st);
        next_ref := S (next_ref st);
        timers := (timers st ++ [(now + SESSION_TIMEOUT, uuid)])%list |}).
Proof.
  intros Hv Hh Htv Hth. unfold authorize. rewrite Hv. simpl. rewrite Hh. simpl.
  by rewrite Htv, Hth.
Qed.

(** The token endpoint on a request without a body. *)
Lemma token_no_body uuid_token uuid_nonce req_body st message :
  get "grant_type" req_body = Throw message →
  token uuid_token uuid_nonce req_body st = (server_error message, st).
Proof. intros Hg. unfold token. by rewrite Hg. Qed.

Lemma get_total_or_not (k k' : string) (base : value) :
  (∃ v v', get k base = Return v ∧ get k' base = Return v')
  ∨ (get k base = Throw type_error ∧ get k' base = Throw type_error).
Proof. destruct base; simpl; eauto. Qed.

(** C10: the token endpoint files the session under the access token
    in the map it looks codes up in.  So (1) any stored key, a
    previously issued access token included, presented as [code] with
    grant type [authorization_code] is accepted and mints a fresh access
    token for the same session object, the old keys staying in place;
    (2) the access token a successful call returns is such a stored key
    from then on; (3) the call fails with [invalid_grant] only when the
    grant type is accepted and the code is no key of the map. *)
Theorem access_token_accepted_as_code
    (uuid_token uuid_nonce : string) (req_body : value) (st : State) :
  let response := (token uuid_token uuid_nonce req_body st).1 in
  let st' := (token uuid_token uuid_nonce req_body st).2 in
  (∀ key session,
     get "grant_type" req_body = Return (VStr "authorization_code") →
     get "code" req_body = Return (VStr key) →
     sessions st !! key = Some session →
     status response = 200
     ∧ field "access_token" response = Some (VStr uuid_token)
     ∧ sessions st' !! uuid_token = Some session
     ∧ (∀ key', sessions st !! key' = Some session → sessions st' !! key' = Some session)
     ∧ objects st' !! session = set_accessToken uuid_token <$> objects st !! session)
  ∧ (status response = 200 → is_Some (sessions st' !! uuid_token))
  ∧ (is_error "invalid_grant" response = true
     ↔ get "grant_type" req_body = Return (VStr "authorization_code")
       ∧ ∃ code, get "code" req_body = Return code ∧ sessions_get st code = None).
Proof.
  intros response st'. subst response st'.
  destruct (get_total_or_not "grant_type" "code" req_body)
    as [(grant_type & code & Hg & Hc)|[Hg Hc]].
  2: { rewrite (token_no_body _ _ _ _ _ Hg). simpl. split_and!.
       - intros ? ? Hg'. congruence.
       - done.
       - split; [done|]. intros [Hg' _]. congruence. }
  rewrite (token_cases _ _ _ _ _ _ Hg Hc).
  destruct (is_str "authorization_code" grant_type) eqn:Hgrant; simpl.
  2: { split_and!.
       - intros ? ? Hg'. rewrite Hg in Hg'. injection Hg' as ->. done.
       - done.
       - split; [done|]. intros [Hg' _]. rewrite Hg in Hg'. injection Hg' as ->. done. }
  assert (grant_type = VStr "authorization_code") as ->.
  { destruct grant_type; try done. simpl in Hgrant. by apply String.eqb_eq in Hgrant as ->. }
  destruct (sessions_get st code) as [session|] eqn:Hcode; simpl.
  - split_and!.
    + intros key session' _ Hc'. rewrite Hc in Hc'. injection Hc' as ->.
      simpl in Hcode. rewrite Hcode. intros [= <-]. split_and!; try done.
      * apply lookup_insert_eq.
      * intros key' Hkey'. destruct (decide (uuid_token = key')) as [->|Hne].
        -- apply lookup_insert_eq.
        -- by rewrite lookup_insert_ne.
      * rewrite lookup_alter. by case_decide.
    + intros _. rewrite lookup_insert_eq. by eexists.
    + split; [done|]. intros [_ (code' & Hc' & Hnone)]. congruence.
  - split_and!.
    + intros key session' _ Hc'. rewrite Hc in Hc'. injection Hc' as ->.
      simpl in Hcode. congruence.
    + done.
    + split; [|done]. intros _. split; [done|]. by exists code.
Qed.

(** Running the timers deletes the keys of the due timers and no
    other key. *)
Lemma foldl_delete_other (due : list (Z * string)) (m : gmap string nat) k :
  k ∉ due.*2 → foldl (λ m t, delete t.2 m) m due !! k = m !! k.
Proof.
  revert m. induction due as [|[t k'] due IH]; intros m; simpl; [done|].
  intros [Hne Hk]%not_elem_of_cons. rewrite IH by done. by rewrite lookup_delete_ne.
Qed.

Lemma foldl_delete_due (due : list (Z * string)) (m : gmap string nat) k :
  k ∈ due.*2 → foldl (λ m t, delete t.2 m) m due !! k = None.
Proof.
  revert m. induction due as [|[t k'] due IH]; intros m; simpl.
  - by intros ?%elem_of_nil.
  - intros [->|Hk]%elem_of_cons; [|by apply IH].
    destruct (decide (k' ∈ due.*2)) as [Hin|Hnin]; [by apply IH|].
    rewrite foldl_delete_other by done. apply lookup_delete_eq.
Qed.

Lemma run_timers_kept now st k :
  (∀ t, (t, k) ∈ timers st → now < t) →
  sessions (run_timers now st) !! k = sessions st !! k.
Proof.
  intros Hk. unfold run_timers. simpl. apply foldl_delete_other.
  intros [[t k'] [-> [Hdue Hin]%list_elem_of_filter]]%list_elem_of_fmap.
  simpl in *. specialize (Hk t Hin). lia.
Qed.

Lemma run_timers_due now st k t :
  (t, k) ∈ timers st → t ≤ now →
  sessions (run_timers now st) !! k = None.
Proof.
  intros Hin Hdue. unfold run_timers. simpl. apply foldl_delete_due.
  apply list_elem_of_fmap. exists (t, k). split; [done|].
  by apply list_elem_of_filter.
Qed.

Lemma run_timers_objects now st : objects (run_timers now st) = objects st.
Proof. reflexivity. Qed.

Lemma startsWith_Bearer tok : startsWith "Bearer " ("Bearer " ++ tok) = true.
Proof. simpl. by destruct tok. Qed.

Lemma substring_all s : String.substring 0 (String.length s) s = s.
Proof. induction s as [|c s IH]; simpl; [done|]. by rewrite IH. Qed.

Lemma substring_from_Bearer tok : substring_from 7 ("Bearer " ++ tok) = tok.
Proof.
  unfold substring_from.
  change ("Bearer " ++ tok)
    with (String "B" (String "e" (String "a" (String "r" (String "e" (String "r"
           (String " " tok))))))).
  cbn [String.length Nat.sub String.substring].
  rewrite Nat.sub_0_r. apply substring_all.
Qed.

Variable issueCredential :
  Z → value → value → list (string * value) → outcome Issuer.Issued.

(** The credential endpoint on a stored access token, with a request
    body that names no format and no proof. *)
Lemma credential_stored now uuid_nonce tok st ref session signed :
  sessions st !! tok = Some ref →
  objects st !! ref = Some session →
  issueCredential (now `div` 1000) (holderPublicKey session)
    (verificationSessionId session)
    [("over21", VBool true); ("notExpired", VBool true)] = Return signed →
  credential issueCredential now uuid_nonce (Some ("Bearer " ++ tok)) (VObj ∅) st
  = ({| status := 200;
        body := [("format", VStr "vc+sd-jwt");
                 ("credential", VStr (Issuer.sdJwt signed));
                 ("c_nonce", VStr uuid_nonce);
                 ("c_nonce_expires_in", VNum 300)] |}, st).
Proof.
  intros Hs Ho Hi. unfold credential.
  rewrite startsWith_Bearer, substring_from_Bearer, Hs. simpl.
  by rewrite Ho, Hi.
Qed.

(** C4, amended: an authorization code is not used up by its exchange.
    After a successful token call for a code, a further token call
    presenting the same code succeeds again, with a fresh access token
    for the same session, at any time before the expiry timer of the
    code is due; the call fails with [invalid_grant] once the entry of
    the code is gone from the session map. *)
Theorem authorization_code_reusable
    (uuid1 nonce1 uuid2 nonce2 code : string) (req_body : value) (st st1 : State)
    (response1 : Response) (now2 : Z) :
  get "grant_type" req_body = Return (VStr "authorization_code") →
  get "code" req_body = Return (VStr code) →
  token uuid1 nonce1 req_body st = (response1, st1) →
  status response1 = 200 →
  (∀ due, (due, code) ∈ timers st1 → now2 < due) →
  let response2 :=
    (handle issueCredential now2 (PostToken uuid2 nonce2 req_body) st1).1 in
  let st2 := (handle issueCredential now2 (PostToken uuid2 nonce2 req_body) st1).2 in
  (∃ session,
     sessions st !! code = Some session
     ∧ sessions st1 !! uuid1 = Some session
     ∧ status response2 = 200
     ∧ field "access_token" response2 = Some (VStr uuid2)
     ∧ is_error "invalid_grant" response2 = false
     ∧ sessions st2 !! uuid2 = Some session)
  ∧ (∀ st', sessions st' !! code = None →
       is_error "invalid_grant" (token uuid2 nonce2 req_body st').1 = true).
Proof.
  intros Hg Hc Htoken Hok Htimers response2 st2. subst response2 st2.
  rewrite (token_cases _ _ _ _ _ _ Hg Hc) in Htoken. simpl in Htoken.
  split.
  - destruct (sessions st !! code) as [session|] eqn:Hcode.
    2: { injection Htoken as <- <-. done. }
    injection Htoken as <- <-. exists session.
    unfold handle. rewrite (token_cases _ _ _ _ _ _ Hg Hc).
    unfold sessions_get. rewrite run_timers_kept by done.
    cbn [negb is_str String.eqb Ascii.eqb Bool.eqb sessions].
    assert ((<[uuid1 := session]> (sessions st)) !! code = Some session) as ->.
    { destruct (decide (uuid1 = code)) as [->|Hne];
        [apply lookup_insert_eq|by rewrite lookup_insert_ne]. }
    split_and!; try done; apply lookup_insert_eq.
  - intros st' Hgone. rewrite (token_cases _ _ _ _ _ _ Hg Hc). simpl.
    by rewrite Hgone.
Qed.

(** C6: the expiry timer deletes the entry of the authorization code
    and nothing else.  A session that exchanged its code before the
    deadline is still served after it: with the timer run, a token call
    for the code fails with [invalid_grant], but the credential endpoint
    accepts the access token and issues the credential. *)
Theorem access_token_outlives_session
    (t0 t1 t2 : Z) (now_iso code tok nonce1 nonce2 nonce3 tok' : string)
    (verificationSessionId holderPublicKey : value) (signed : Issuer.Issued) :
  truthy verificationSessionId = true →
  truthy holderPublicKey = true →
  code ≠ tok →
  t0 ≤ t1 → t1 < t0 + SESSION_TIMEOUT → t0 + SESSION_TIMEOUT ≤ t2 →
  issueCredential (t2 `div` 1000) holderPublicKey verificationSessionId
    [("over21", VBool true); ("notExpired", VBool true)] = Return signed →
  ∃ authorized exchanged late issued,
    (run issueCredential
       [(t0, PostAuthorize now_iso code
               (authorize_request verificationSessionId holderPublicKey));
        (t1, PostToken tok nonce1 (token_request code));
        (t2, PostToken tok' nonce2 (token_request code));
        (t2, PostCredential nonce3 (Some ("Bearer " ++ tok)) (VObj ∅))]
       initial).1
    = [authorized; exchanged; late; issued]
    ∧ status authorized = 200
    ∧ field "authorization_code" authorized = Some (VStr code)
    ∧ status exchanged = 200
    ∧ field "access_token" exchanged = Some (VStr tok)
    ∧ is_error "invalid_grant" late = true
    ∧ status issued = 200
    ∧ is_error "invalid_token" issued = false
    ∧ field "credential" issued = Some (VStr (Issuer.sdJwt signed)).
Proof.
  intros Hvsid Hhpk Hne Ht01 Ht1 Ht2 Hissue.
  set (session0 := {| authCode := code; holderPublicKey := holderPublicKey;
                      verificationSessionId := verificationSessionId;
                      timestamp := now_iso; accessToken := None |}).
  set (st1 := {| sessions := <[code := 0%nat]> ∅;
                 objects := <[0%nat := session0]> ∅;
                 next_ref := 1;
                 timers := [(t0 + SESSION_TIMEOUT, code)] |}).
  set (st2 := {| sessions := <[tok := 0%nat]> (sessions st1);
                 objects := alter (set_accessToken tok) 0%nat (objects st1);
                 next_ref := 1;
                 timers := [(t0 + SESSION_TIMEOUT, code)] |}).
  set (st3 := {| sessions := delete code (sessions st2);
                 objects := objects st2;
                 next_ref := 1;
                 timers := [] |}).
  (* /authorize at t0 *)
  assert (handle issueCredential t0
            (PostAuthorize now_iso code
               (authorize_request verificationSessionId holderPublicKey)) initial
          = ({| status := 200;
                body := [("authorization_code", VStr code); ("expires_in", VNum 600)] |},
             st1)) as H1.
  { unfold handle.
    by rewrite (authorize_cases _ _ _ _ _ verificationSessionId holderPublicKey). }
  (* /token at t1, before the deadline *)
  assert (run_timers t1 st1 = st1) as Hkeep.
  { unfold run_timers, st1. simpl. rewrite !filter_cons, !filter_nil. simpl.
    rewrite decide_False by lia. rewrite decide_True by lia. reflexivity. }
  assert (handle issueCredential t1 (PostToken tok nonce1 (token_request code)) st1
          = ({| status := 200;
                body := [("access_token", VStr tok); ("token_type", VStr "bearer");
                         ("expires_in", VNum 3600); ("c_nonce", VStr nonce1);
                         ("c_nonce_expires_in", VNum 300)] |},
             st2)) as H2.
  { unfold handle. rewrite Hkeep.
    rewrite (token_cases _ _ _ _ (VStr "authorization_code") (VStr code)); try done.
    simpl. by rewrite lookup_insert_eq. }
  (* the timer has run at t2 *)
  assert (run_timers t2 st2 = st3) as Hrun.
  { unfold run_timers, st2, st3. simpl. rewrite !filter_cons, !filter_nil. simpl.
    rewrite decide_True by lia. rewrite decide_False by lia. reflexivity. }
  assert (handle issueCredential t2 (PostToken tok' nonce2 (token_request code)) st2
          = (error_response 400 "invalid_grant" "Invalid or expired authorization code",
             st3)) as H3.
  { unfold handle. rewrite Hrun.
    rewrite (token_cases _ _ _ _ (VStr "authorization_code") (VStr code)); try done.
    simpl. by rewrite lookup_delete_eq. }
  assert (run_timers t2 st3 = st3) as Hidle by reflexivity.
  assert (handle issueCredential t2
            (PostCredential nonce3 (Some ("Bearer " ++ tok)) (VObj ∅)) st3
          = ({| status := 200;
                body := [("format", VStr "vc+sd-jwt");
                         ("credential", VStr (Issuer.sdJwt signed));
                         ("c_nonce", VStr nonce3);
                         ("c_nonce_expires_in", VNum 300)] |}, st3)) as H4.
  { unfold handle. rewrite Hidle.
    apply (credential_stored _ _ _ _ 0%nat (set_accessToken tok session0)).
    - unfold st3, st2. simpl.
      rewrite lookup_delete_ne by done. apply lookup_insert_eq.
    - unfold st3, st2, st1. simpl. rewrite lookup_alter. rewrite decide_True by done.
      by rewrite lookup_insert_eq.
    - exact Hissue. }
  eexists _, _, _, _. split.
  - unfold run. rewrite H1, H2, H3, H4. reflexivity.
  - split_and!; reflexivity.
Qed.

End SessionFacts.

Lemma access_token_accepted_as_code_witness :
  IssuerServer.sessions Examples.exchanged !! Examples.auth_code = Some 0%nat
  ∧ IssuerServer.sessions Examples.exchanged !! Examples.first_token = Some 0%nat
  ∧ IssuerServer.status Examples.token_as_code.1 = 200
  ∧ IssuerServer.field "access_token" Examples.token_as_code.1
    = Some (VStr Examples.second_token)
  ∧ IssuerServer.sessions Examples.token_as_code.2 !! Examples.second_token = Some 0%nat.
Proof.
  split; [vm_compute; reflexivity|]. split; [vm_compute; reflexivity|].
  destruct (access_token_accepted_as_code Examples.second_token Examples.c_nonce
              (IssuerServer.token_request Examples.first_token)
              Examples.exchanged) as (Haccept & _ & _).
  destruct (Haccept Examples.first_token 0%nat) as (Hstatus & Htoken & Hsession & _).
  - reflexivity.
  - reflexivity.
  - vm_compute. reflexivity.
  - split_and!; [exact Hstatus|exact Htoken|exact Hsession].
Defined.

(** C4, as the claim states it, fails: the same authorization code is
    exchanged twice, one second apart, and the second call is answered
    with a second access token, not with [invalid_grant]. *)
Lemma authorization_code_exchanged_twice :
  IssuerServer.status <$> Examples.exchanged_twice = [200; 200; 200]
  ∧ IssuerServer.is_error "invalid_grant" <$> Examples.exchanged_twice
    = [false; false; false]
  ∧ IssuerServer.field "access_token" <$> Examples.exchanged_twice
    = [None; Some (VStr Examples.first_token); Some (VStr Examples.second_token)].
Proof. split_and!; vm_compute; reflexivity. Qed.

Lemma authorization_code_reusable_witness :
  IssuerServer.status Examples.code_again.1 = 200
  ∧ IssuerServer.is_error "invalid_grant" Examples.code_again.1 = false
  ∧ IssuerServer.sessions Examples.code_again.2 !! Examples.second_token
    = IssuerServer.sessions Examples.exchanged !! Examples.first_token.
Proof.
  destruct (authorization_code_reusable Examples.issue
              Examples.first_token Examples.c_nonce Examples.second_token Examples.c_nonce
              Examples.auth_code (IssuerServer.token_request Examples.auth_code)
              Examples.authorized Examples.exchanged
              (IssuerServer.token Examples.first_token Examples.c_nonce
                 (IssuerServer.token_request Examples.auth_code) Examples.authorized).1
              (Examples.t0 + 2000))
    as [(session & _ & Hfirst & Hstatus & _ & Herror & Hsecond) _].
  - reflexivity.
  - reflexivity.
  - vm_compute. reflexivity.
  - reflexivity.
  - intros due Hdue.
    change (IssuerServer.timers Examples.exchanged)
      with [(Examples.t0 + IssuerServer.SESSION_TIMEOUT, Examples.auth_code)] in Hdue.
    apply list_elem_of_singleton in Hdue. injection Hdue as ->.
    unfold IssuerServer.SESSION_TIMEOUT. lia.
  - rewrite Hfirst. split_and!; [exact Hstatus|exact Herror|exact Hsecond].
Defined.

Lemma access_token_outlives_session_witness :
  ∃ authorized exchanged late issued,
    (IssuerServer.run Examples.issue
       [Examples.authorize_call;
        Examples.token_call (Examples.t0 + 1000) Examples.first_token Examples.auth_code;
        Examples.token_call (Examples.t0 + 600000) Examples.second_token Examples.auth_code;
        Examples.credential_call (Examples.t0 + 600000) Examples.first_token]
       IssuerServer.initial).1
    = [authorized; exchanged; late; issued]
    ∧ IssuerServer.is_error "invalid_grant" late = true
    ∧ IssuerServer.status issued = 200
    ∧ IssuerServer.field "credential" issued
      = Some (VStr (Issuer.sdJwt Examples.late_credential)).
Proof.
  destruct (access_token_outlives_session Examples.issue
              Examples.t0 (Examples.t0 + 1000) (Examples.t0 + 600000)
              "2025-06-03T00:00:00.000Z" Examples.auth_code Examples.first_token
              Examples.c_nonce Examples.c_nonce Examples.c_nonce Examples.second_token
              Examples.session_id Examples.holder_jwk Examples.late_credential)
    as (authorized & exchanged & late & issued & Hrun & _ & _ & _ & _ & Hl & Hi & _ & Hc).
  - reflexivity.
  - reflexivity.
  - discriminate.
  - lia.
  - unfold IssuerServer.SESSION_TIMEOUT. lia.
  - unfold IssuerServer.SESSION_TIMEOUT. lia.
  - vm_compute. reflexivity.
  - exists authorized, exchanged, late, issued.
    split; [exact Hrun|]. split_and!; [exact Hl|exact Hi|exact Hc].
Defined.

(* ===================================================================== *)
(** * Further properties of the code *)
(* ===================================================================== *)

(** ** Derived credentials: what is issued, what verifies *)

Section CredentialFacts.

Import Issuer.

Variable sha256_base64url : string → string.
Variable sha256_hex : string → string.
Variable randomBytes : nat → string.
Variable JSON_stringify : value → string.
Variable JSON_parse : string → outcome value.
Variable base64url_encode : string → string.
Variable base64url_decode : string → string.
Variable toPropertyKey : value → string.
Variable signJWT : Payload → outcome string.
Variable jwtVerify : Z → string → value → outcome Payload.
Variable issuer_url : string.
Variable DERIVED_VC_TTL : Z.

Lemma expired_false_iff now payload :
  expired now payload = false ↔ ∀ e, exp payload = Some e → e = 0 ∨ now ≤ e.
Proof.
  unfold expired. destruct (exp payload) as [e|]; [|by split].
  rewrite andb_false_iff, negb_false_iff, Z.eqb_eq, Z.ltb_ge. split.
  - intros H e' [= <-]. done.
  - intros H. by apply H.
Qed.

(** The decoding loop returns only if every disclosure decodes. *)
Lemma reveal_all_decodes payload (presented : list string) acc claims :
  reveal_all sha256_base64url JSON_parse base64url_decode toPropertyKey
    payload acc presented = Return claims →
  ∀ d, d ∈ presented → ∃ triple, decode JSON_parse base64url_decode d = Return triple.
Proof.
  revert acc. induction presented as [|d' ds IH]; intros acc Hall d Hd.
  - by apply elem_of_nil in Hd.
  - simpl in Hall.
    destruct (reveal _ _ _ _ _ _ _) as [acc'|] eqn:Hr; simpl in Hall; [|done].
    apply elem_of_cons in Hd as [->|Hd]; [|by eapply IH].
    unfold reveal in Hr.
    destruct (decode JSON_parse base64url_decode d') as [triple|]; [by eauto|done].
Qed.

(** When a credential verifies.  jose refuses a token whose [exp] is
    at or before its clock, so that (as long as the clock does not move
    between the two readings of one call) a credential string verifies
    exactly when [jwtVerify] returns the payload of its token part and
    every presented disclosure decodes; a valid result has its expiry
    time strictly after the current second (in the second [exp] itself,
    and with an [exp] of 0, the credential is refused); the expiry
    check of [verifyCredential] itself finds nothing left to refuse; and
    a refusal of jose, that of an expired credential among them, is
    reported with the message of the library. *)
Theorem verifyCredential_valid_iff (now : Z) (sdJwt : string) (issuerPublicKey : value) :
  let parts := split "~"%char sdJwt in
  let jwt := default EmptyString (head parts) in
  let presented := slice_1_m1 parts in
  let result :=
    verifyCredential sha256_base64url JSON_parse base64url_decode toPropertyKey
      jwtVerify now sdJwt issuerPublicKey in
  checks_exp jwtVerify now jwt issuerPublicKey →
  (valid result = true ↔
     ∃ payload,
       jwtVerify now jwt issuerPublicKey = Return payload
       ∧ (∀ d, d ∈ presented →
            ∃ triple, decode JSON_parse base64url_decode d = Return triple))
  ∧ (∀ claims holder issuer issuedAt e,
       result = Valid claims holder issuer issuedAt (Some e) → now < e)
  ∧ (∀ payload,
       jwtVerify now jwt issuerPublicKey = Return payload →
       expired now payload = false)
  ∧ (∀ message,
       jwtVerify now jwt issuerPublicKey = Throw message →
       result = Invalid message).
Proof.
  intros parts jwt presented result Hjose. subst result. unfold verifyCredential.
  fold parts. fold jwt. fold presented.
  assert (∀ payload, jwtVerify now jwt issuerPublicKey = Return payload →
            expired now payload = false) as Hfresh.
  { intros payload Hp. apply expired_false_iff. intros e He.
    right. specialize (Hjose payload e Hp He). lia. }
  destruct (jwtVerify now jwt issuerPublicKey) as [payload|message] eqn:Hverify; simpl.
  2: { split_and!; [|done|done|by intros ? [= <-]]. split; [done|]. by intros (? & ? & _). }
  rewrite (Hfresh payload eq_refl).
  destruct (reveal_all _ _ _ _ payload ∅ presented) as [claims|e] eqn:Hall; simpl.
  - split_and!; [|  |done|done].
    + split; [intros _|done]. exists payload. split; [done|].
      by eapply reveal_all_decodes.
    + intros claims' holder issuer issuedAt e [= _ _ _ _ He].
      by apply (Hjose payload e).
  - split_and!; [|done|done|done]. split; [done|]. intros (p & [= <-] & Hdec).
    destruct (reveal_all_returns sha256_base64url JSON_parse base64url_decode
                toPropertyKey payload presented ∅ Hdec) as [claims Hclaims].
    congruence.
Qed.

(** What [issueCredential] hands out.  The credential has one
    disclosure for each claim, the i-th encoding the i-th claim under the
    i-th salt; the token is the signature over a payload that lists the
    digests of exactly these disclosures in their order, binds the
    holder key, and names the second [DERIVED_VC_TTL] after [iat] as its
    expiry time; the string is the token, a delimiter, the disclosures
    joined by delimiters, and a closing delimiter, which for no claims
    comes to the token and two delimiters.  A failure is rethrown under
    the prefix "Failed to issue credential". *)
Theorem issueCredential_invariants
    (now : Z) (holderPublicKey verificationSessionId : value)
    (claims : list (string * value)) :
  (∀ credential,
     issueCredential sha256_base64url sha256_hex randomBytes JSON_stringify
       base64url_encode signJWT issuer_url DERIVED_VC_TTL
       now holderPublicKey verificationSessionId claims = Return credential →
     ∃ holder_kid jwt payload,
       get "kid" holderPublicKey = Return holder_kid
       ∧ signJWT payload = Return jwt
       ∧ sdJwt credential
         = jwt ++ "~" ++ join "~" (disclosures credential) ++ "~"
       ∧ (claims = [] → sdJwt credential = jwt ++ "~~")
       ∧ length (disclosures credential) = length claims
       ∧ (∀ i k v, claims !! i = Some (k, v) →
            disclosures credential !! i
            = Some (disclose JSON_stringify base64url_encode (randomBytes i) k v))
       ∧ _sd payload = Some (sha256_base64url <$> disclosures credential)
       ∧ cnf payload = Some holderPublicKey
       ∧ iat payload = now
       ∧ exp payload = Some (now + DERIVED_VC_TTL)
       ∧ derivedFrom payload = ("mDL-verification", verificationSessionId))
  ∧ (∀ message,
       issueCredential sha256_base64url sha256_hex randomBytes JSON_stringify
         base64url_encode signJWT issuer_url DERIVED_VC_TTL
         now holderPublicKey verificationSessionId claims = Throw message →
       ∃ cause, message = "Failed to issue credential: " ++ cause).
Proof.
  unfold issueCredential, createDisclosures. simpl. split.
  - intros credential Hissue.
    destruct (get "kid" holderPublicKey) as [holder_kid|] eqn:Hkid; simpl in Hissue;
      [|done].
    match type of Hissue with
    | context [signJWT ?p] => set (payload := p) in *
    end.
    destruct (signJWT payload) as [jwt|] eqn:Hsign; simpl in Hissue; [|done].
    injection Hissue as <-. exists holder_kid, jwt, payload. simpl.
    split_and!; try done.
    + by intros ->.
    + by rewrite length_imap.
    + intros i k v Hi. rewrite list_lookup_imap, Hi. done.
  - intros message Hissue.
    destruct (get "kid" holderPublicKey) as [holder_kid|cause] eqn:Hkid;
      simpl in Hissue.
    + destruct (signJWT _) as [jwt|cause]; simpl in Hissue; [done|].
      injection Hissue as <-. by exists cause.
    + injection Hissue as <-. by exists cause.
Qed.

(** The claims a presentation verifies to, when each presented
    disclosure decodes to a named claim and has its digest listed. *)
Lemma verifyCredential_presented (now : Z) (jwt : string) (issuerPublicKey : value)
    (payload : Payload) (kept : list (string * (string * value))) :
  has_char "~"%char jwt = false →
  jwtVerify now jwt issuerPublicKey = Return payload →
  expired now payload = false →
  (∀ d kv, (d, kv) ∈ kept →
     has_char "~"%char d = false
     ∧ listed payload (sha256_base64url d) = true
     ∧ (∃ salt, decode JSON_parse base64url_decode d = Return (salt, VStr kv.1, kv.2))
     ∧ toPropertyKey (VStr kv.1) = kv.1
     ∧ kv.1 ≠ "__proto__") →
  kept ≠ [] →
  verifyCredential sha256_base64url JSON_parse base64url_decode toPropertyKey
    jwtVerify now (combine jwt kept.*1) issuerPublicKey
  = Valid (foldl (λ m kv, <[kv.1 := kv.2]> m) ∅ kept.*2)
          (cnf payload) (iss payload) (iat payload) (exp payload).
Proof.
  intros Htilde Hverify Hexp Hkept Hne.
  unfold verifyCredential. rewrite split_combine; [|done| |].
  - simpl. rewrite slice_1_m1_middle, Hverify. simpl. rewrite Hexp.
    rewrite (reveal_all_listed sha256_base64url JSON_parse base64url_decode
               toPropertyKey payload kept ∅); [done|].
    intros d kv Hd. destruct (Hkept d kv Hd) as (_ & ? & ? & ? & ?). done.
  - apply Forall_forall. intros d [[d' kv] [-> Hd]]%list_elem_of_fmap.
    by destruct (Hkept d' kv Hd) as (? & _).
  - by destruct kept.
Qed.

(** The order in which disclosures are presented does not matter, as
    long as they carry distinct claim names: two presentations of the
    same disclosures in different orders verify to the same result.
    (With a repeated name the later disclosure wins, so the order
    shows.) *)
Theorem verifyCredential_order_irrelevant (now : Z) (jwt : string)
    (issuerPublicKey : value) (payload : Payload)
    (kept kept' : list (string * (string * value))) :
  has_char "~"%char jwt = false →
  jwtVerify now jwt issuerPublicKey = Return payload →
  expired now payload = false →
  (∀ d kv, (d, kv) ∈ kept →
     has_char "~"%char d = false
     ∧ listed payload (sha256_base64url d) = true
     ∧ (∃ salt, decode JSON_parse base64url_decode d = Return (salt, VStr kv.1, kv.2))
     ∧ toPropertyKey (VStr kv.1) = kv.1
     ∧ kv.1 ≠ "__proto__") →
  NoDup kept.*2.*1 →
  kept ≠ [] →
  kept ≡ₚ kept' →
  verifyCredential sha256_base64url JSON_parse base64url_decode toPropertyKey
    jwtVerify now (combine jwt kept'.*1) issuerPublicKey
  = verifyCredential sha256_base64url JSON_parse base64url_decode toPropertyKey
      jwtVerify now (combine jwt kept.*1) issuerPublicKey
  ∧ claims_of (verifyCredential sha256_base64url JSON_parse base64url_decode
                 toPropertyKey jwtVerify now (combine jwt kept.*1) issuerPublicKey)
    = Some (list_to_map kept.*2).
Proof.
  intros Htilde Hverify Hexp Hkept Hnd Hne Hperm.
  rewrite (verifyCredential_presented now jwt issuerPublicKey payload kept) by done.
  rewrite (verifyCredential_presented now jwt issuerPublicKey payload kept'); try done.
  - rewrite !foldl_insert_list_to_map, !(right_id_L ∅ (∪)); try done.
    + split; [|done]. f_equal. symmetry.
      apply list_to_map_proper; [done|]. by rewrite Hperm.
    + by rewrite <-Hperm.
  - intros d kv Hd. apply Hkept. by rewrite Hperm.
  - intros ->. apply Permutation_nil_r in Hperm. done.
Qed.

End CredentialFacts.

Lemma verifyCredential_valid_iff_witness :
  Issuer.valid
    (Examples.verify Examples.two_claims (Examples.issued_at + 60)
       (Issuer.combine Examples.signed_token
          [Examples.over21_disclosure; Examples.notExpired_disclosure])) = true
  ∧ Examples.verify Examples.two_claims (Examples.issued_at + 86400)
      (Issuer.combine Examples.signed_token
         [Examples.over21_disclosure; Examples.notExpired_disclosure])
    = Issuer.Invalid (Examples.quote ++ "exp" ++ Examples.quote
                      ++ " claim timestamp check failed").
Proof.
  split.
  - destruct (verifyCredential_valid_iff Examples.digest Examples.JSON_parse
                Examples.base64url_decode Examples.toPropertyKey
                (Examples.jwtVerify_for Examples.two_claims)
                (Examples.issued_at + 60)
                (Issuer.combine Examples.signed_token
                   [Examples.over21_disclosure; Examples.notExpired_disclosure])
                Examples.issuer_jwk) as (Hvalid & _).
    + intros payload e Hp He. vm_compute in Hp. injection Hp as <-.
      vm_compute in He. injection He as <-. reflexivity.
    + apply Hvalid. eexists. split; [vm_compute; reflexivity|].
      intros d Hd. vm_compute in Hd.
      apply elem_of_cons in Hd as [->|Hd];
        [|apply elem_of_cons in Hd as [->|Hd]; [|by apply elem_of_nil in Hd]];
        eexists; vm_compute; reflexivity.
  - destruct (verifyCredential_valid_iff Examples.digest Examples.JSON_parse
                Examples.base64url_decode Examples.toPropertyKey
                (Examples.jwtVerify_for Examples.two_claims)
                (Examples.issued_at + 86400)
                (Issuer.combine Examples.signed_token
                   [Examples.over21_disclosure; Examples.notExpired_disclosure])
                Examples.issuer_jwk) as (_ & _ & _ & Hrefused).
    + intros payload e Hp. vm_compute in Hp. discriminate Hp.
    + apply Hrefused. vm_compute. reflexivity.
Defined.

Lemma verifyCredential_order_irrelevant_witness :
  Examples.verify Examples.two_claims (Examples.issued_at + 60)
    (Issuer.combine Examples.signed_token
       [Examples.notExpired_disclosure; Examples.over21_disclosure])
  = Examples.verify Examples.two_claims (Examples.issued_at + 60)
      (Issuer.combine Examples.signed_token
         [Examples.over21_disclosure; Examples.notExpired_disclosure])
  ∧ Issuer.claims_of
      (Examples.verify Examples.two_claims (Examples.issued_at + 60)
         (Issuer.combine Examples.signed_token
            [Examples.over21_disclosure; Examples.notExpired_disclosure]))
    = Some (list_to_map Examples.two_claims).
Proof.
  apply (verifyCredential_order_irrelevant Examples.digest Examples.JSON_parse
           Examples.base64url_decode Examples.toPropertyKey
           (Examples.jwtVerify_for Examples.two_claims)
           (Examples.issued_at + 60) Examples.signed_token Examples.issuer_jwk
           (Examples.payload_for Examples.two_claims)
           [(Examples.over21_disclosure, ("over21", VBool true));
            (Examples.notExpired_disclosure, ("notExpired", VBool true))]
           [(Examples.notExpired_disclosure, ("notExpired", VBool true));
            (Examples.over21_disclosure, ("over21", VBool true))]).
  - reflexivity.
  - vm_compute. reflexivity.
  - reflexivity.
  - intros d kv Hin.
    apply elem_of_cons in Hin as [[= -> ->]|Hin];
      [|apply elem_of_cons in Hin as [[= -> ->]|Hin]; [|by apply elem_of_nil in Hin]];
      (split_and!;
       [reflexivity|vm_compute; reflexivity|eexists; vm_compute; reflexivity
       |reflexivity|discriminate]).
  - apply (bool_decide_unpack _). vm_compute. exact I.
  - discriminate.
  - apply perm_swap.
Defined.


(* ===================================================================== *)
(** ** Session transcript and presentation verifier *)
(* ===================================================================== *)

Section TranscriptFacts.

Import SessionTranscript.

Variable sha256_base64 : string → string.

(** [hashValue] returns on a falsy value and on a string, and throws on
    every other value. *)
Lemma hashValue_returns_iff (v : value) :
  (∃ h, hashValue sha256_base64 v = Return h) ↔ truthy v = false ∨ is_string v = true.
Proof.
  unfold hashValue. destruct (truthy v) eqn:Ht; simpl.
  - destruct v; simpl; split; try (intros [? ?]; done); try (intros [?|?]; done);
      eauto.
  - split; eauto.
Qed.

(** [buildSessionTranscript] returns exactly when nonce and audience are
    each falsy or a string (a number or an object as nonce makes it
    throw); the envelope plays no part.  Every transcript it returns
    passes [validateSessionTranscript] without a warning, and its
    handover holds [null] in the place of the hash of a falsy value: an
    empty nonce leaves the transcript unbound. *)
Theorem buildSessionTranscript_validates (nonce audience envelope : value) :
  ((∃ t, buildSessionTranscript sha256_base64 nonce audience envelope = Return t)
     ↔ (truthy nonce = false ∨ is_string nonce = true)
       ∧ (truthy audience = false ∨ is_string audience = true))
  ∧ (∀ t, buildSessionTranscript sha256_base64 nonce audience envelope = Return t →
       validateSessionTranscript t = (true, [])
       ∧ (∀ envelope',
            buildSessionTranscript sha256_base64 nonce audience envelope' = Return t)
       ∧ (truthy nonce = false →
            ∃ a, t = VArr [VNull; VNull;
                           VArr [VStr "OpenID4VPDCAPIHandover"; a; VNull; VNull]])).
Proof.
  split.
  - rewrite <-!hashValue_returns_iff. unfold buildSessionTranscript.
    destruct (hashValue sha256_base64 audience) as [a|]; simpl.
    + destruct (hashValue sha256_base64 nonce) as [n|]; simpl.
      * split; eauto.
      * split; [by intros [? ?]|]. by intros [[? ?] _].
    + split; [by intros [? ?]|]. by intros [_ [? ?]].
  - intros t Ht. split_and!.
    + by eapply validate_build.
    + done.
    + intros Hfalsy. unfold buildSessionTranscript in Ht.
      destruct (hashValue sha256_base64 audience) as [a|]; simpl in Ht; [|done].
      unfold hashValue in Ht. rewrite Hfalsy in Ht. simpl in Ht.
      injection Ht as <-. by exists a.
Qed.

End TranscriptFacts.

Section RequestFacts.

Import Verifier.

Variable sha256_base64 : string → string.

(** The last alternative of the token selection,
    [Object.values(envelope.vp_token ?? {})[0]], is only reached with a
    falsy [vp_token], and then it is [undefined]. *)
Lemma values_of_falsy (vp_token : value) :
  truthy vp_token = false →
  head (values (nullish_or vp_token (VObj ∅))) = None.
Proof.
  destruct vp_token as [| |b|z|s|l|m]; try done.
  by destruct s.
Qed.

(** A decrypted envelope without a presentation: when [vp_token] is
    missing or falsy, [verifyPresentation] answers "No vp_token found"
    and the proof verifier is not asked (the answer is the same
    whatever it would say). *)
Theorem verifyPresentation_missing_presentation
    (w : World) (jwe : string) (envelope vp_token : value) :
  decrypt w jwe = Return envelope →
  get "vp_token" envelope = Return vp_token →
  truthy vp_token = false →
  ∀ w', decrypt w' jwe = decrypt w jwe →
    verifyPresentation sha256_base64 w' jwe
    = <["valid" := VBool false]>
      (<["error" := VStr "No vp_token found in decrypted envelope"]> ∅).
Proof.
  intros Hdec Hvp Hfalsy w' Hdec'. unfold verifyPresentation.
  rewrite Hdec', Hdec. simpl. rewrite Hvp. simpl.
  assert (get_opt "mdl" vp_token = VUndefined) as ->.
  { by destruct vp_token. }
  rewrite (values_of_falsy _ Hfalsy). unfold or_else at 2. simpl.
  unfold or_else. rewrite Hfalsy. simpl. done.
Qed.

(** The one request to the proof verifier.  When the envelope carries a
    presentation, the proof sent is [vp_token.mdl] if that is truthy and
    the whole [vp_token] otherwise, and the transcript is
    [[null, null, [tag, hash(aud), hash(nonce), null]]] over the audience
    and nonce of the envelope (or their defaults, a fixed URL and a
    fresh UUID).  The result depends on the proof verifier through its
    answer to this request only. *)
Theorem verifyPresentation_single_request
    (w : World) (jwe : string) (envelope vp_token nonce aud : value) (n a : string) :
  decrypt w jwe = Return envelope →
  get "vp_token" envelope = Return vp_token →
  truthy vp_token = true →
  get "nonce" envelope = Return nonce →
  get "aud" envelope = Return aud →
  or_else nonce (VStr (nonce_uuid w)) = VStr n → n ≠ EmptyString →
  or_else aud (VStr "https://verifier.example.com") = VStr a → a ≠ EmptyString →
  let proof := or_else (get_opt "mdl" vp_token) vp_token in
  let transcript :=
    VArr [VNull; VNull;
          VArr [VStr "OpenID4VPDCAPIHandover"; VStr (sha256_base64 a);
                VStr (sha256_base64 n); VNull]] in
  ∀ w',
    decrypt w' jwe = decrypt w jwe →
    nonce_uuid w' = nonce_uuid w →
    session_uuid w' = session_uuid w →
    now_iso w' = now_iso w →
    longfellow w' proof transcript = longfellow w proof transcript →
    verifyPresentation sha256_base64 w' jwe = verifyPresentation sha256_base64 w jwe.
Proof.
  intros Hdec Hvp Htruthy Hnonce Haud Hn Hne Ha Hae proof transcript
    w' Hdec' Hnu Hsu Hiso Hlong.
  assert (truthy proof = true) as Hproof.
  { subst proof. unfold or_else. by destruct (truthy (get_opt "mdl" vp_token)) eqn:?. }
  assert (∀ w0, decrypt w0 jwe = Return envelope → nonce_uuid w0 = nonce_uuid w →
            verifyPresentation sha256_base64 w0 jwe
            = match
                (valid ← get "valid" (verifyWithLongfellow w0 proof transcript);
                 if negb (truthy valid) then
                   error ← get "error" (verifyWithLongfellow w0 proof transcript);
                   Return (<["valid" := VBool false]>
                          (<["error" := or_else error
                                          (VStr "Longfellow verification failed")]> ∅))
                 else
                   predicates ←
                     extractPredicates (verifyWithLongfellow w0 proof transcript);
                   Return (<["valid" := VBool true]>
                          (<["predicates" := VObj predicates]>
                          (<["sessionId" := VStr (session_uuid w0)]> ∅))))
              with
              | Return result => result
              | Throw message =>
                  <["valid" := VBool false]> (<["error" := VStr message]> ∅)
              end) as Hrun.
  { intros w0 Hdec0 Hnu0. unfold verifyPresentation. rewrite Hdec0. simpl.
    rewrite Hvp. simpl.
    assert (or_else (or_else (get_opt "mdl" vp_token) vp_token)
              (default VUndefined (head (values (nullish_or vp_token (VObj ∅)))))
            = proof) as ->.
    { fold proof. unfold or_else. by rewrite Hproof. }
    rewrite Hproof. simpl. rewrite Hnonce. simpl. rewrite Haud. simpl.
    rewrite Hnu0, Hn, Ha.
    unfold SessionTranscript.buildSessionTranscript, SessionTranscript.hashValue.
    simpl. apply String.eqb_neq in Hne, Hae. rewrite Hne, Hae. simpl. done. }
  rewrite (Hrun w Hdec eq_refl), (Hrun w'); [|congruence|done].
  unfold verifyWithLongfellow. by rewrite Hlong, Hsu, Hiso.
Qed.

(** The verifier fails closed, except for a refused connection.  A
    result is valid only if the request to the proof verifier was
    answered with a result whose [valid] is truthy, or the connection was
    refused (and the mock took over): an HTTP error status or any other
    failure of the call never verifies. *)
Theorem verifyPresentation_fails_closed (w : World) (jwe : string) :
  verifyPresentation sha256_base64 w jwe !! "valid" = Some (VBool true) →
  ∃ proof transcript,
    truthy proof = true
    ∧ ((∃ message, longfellow w proof transcript = ConnectionRefused message)
       ∨ (∃ result valid,
            longfellow w proof transcript = HttpOk result
            ∧ get "valid" result = Return valid
            ∧ truthy valid = true)).
Proof.
  unfold verifyPresentation.
  destruct (decrypt w jwe) as [envelope|e]; simpl; [|by intros [=]].
  destruct (get "vp_token" envelope) as [vp_token|e]; simpl; [|by intros [=]].
  set (vpToken := or_else _ _).
  destruct (truthy vpToken) eqn:Hvp; simpl; [|by intros [=]].
  destruct (get "nonce" envelope) as [nonce|e]; simpl; [|by intros [=]].
  destruct (get "aud" envelope) as [aud|e]; simpl; [|by intros [=]].
  destruct (SessionTranscript.buildSessionTranscript _ _ _ _) as [transcript|e];
    simpl; [|by intros [=]].
  unfold verifyWithLongfellow.
  destruct (longfellow w vpToken transcript) as [m|m|status text|result] eqn:Hl.
  - intros _. exists vpToken, transcript. eauto.
  - intros H. vm_compute in H. discriminate.
  - intros H. vm_compute in H. discriminate.
  - destruct (get "valid" result) as [valid|e] eqn:Hvalid; simpl; [|by intros [=]].
    destruct (truthy valid) eqn:Ht; simpl.
    + intros _. exists vpToken, transcript. split; [done|]. right. by exists result, valid.
    + destruct (get "error" result); simpl; by intros [=].
Qed.

End RequestFacts.

Lemma verifyPresentation_missing_presentation_witness :
  Verifier.verifyPresentation Examples.digest Scenarios.bare "eyJhbGciOiJFQ0RILUVTIn0"
  = <["valid" := VBool false]>
    (<["error" := VStr "No vp_token found in decrypted envelope"]> ∅).
Proof.
  apply (verifyPresentation_missing_presentation Examples.digest Scenarios.bare
           "eyJhbGciOiJFQ0RILUVTIn0" Scenarios.bare_envelope VUndefined);
    reflexivity.
Defined.

Lemma verifyPresentation_single_request_witness :
  Verifier.verifyPresentation Examples.digest Scenarios.strict_longfellow
    "eyJhbGciOiJFQ0RILUVTIn0"
  = Verifier.verifyPresentation Examples.digest Examples.talkative_longfellow
      "eyJhbGciOiJFQ0RILUVTIn0".
Proof.
  apply (verifyPresentation_single_request Examples.digest Examples.talkative_longfellow
           "eyJhbGciOiJFQ0RILUVTIn0" Examples.envelope
           (VObj (<["mdl" := VStr "o2d2ZXJzaW9uYzEuMA"]> ∅))
           (VStr "n-0S6_WzA2Mj") (VStr "https://rp.example.org")
           "n-0S6_WzA2Mj" "https://rp.example.org");
    try reflexivity; intros [=].
Defined.

Lemma verifyPresentation_fails_closed_witness :
  ∃ proof transcript,
    truthy proof = true
    ∧ ((∃ message,
          Verifier.longfellow Examples.talkative_longfellow proof transcript
          = Verifier.ConnectionRefused message)
       ∨ (∃ result valid,
            Verifier.longfellow Examples.talkative_longfellow proof transcript
            = Verifier.HttpOk result
            ∧ get "valid" result = Return valid
            ∧ truthy valid = true)).
Proof.
  apply (verifyPresentation_fails_closed Examples.digest Examples.talkative_longfellow
           "eyJhbGciOiJFQ0RILUVTIn0").
  vm_compute. reflexivity.
Defined.

Section MinimizationFacts.

Import Verifier.

(** The copying loop leaves alone the names its source does not list. *)
Lemma copy_step_other (source : list (string * value)) (acc : gmap string value) k :
  k ∉ source.*1 →
  foldl (λ predicates kv,
           if is_boolean kv.2 then set kv.1 kv.2 predicates else predicates)
        acc source !! k = acc !! k.
Proof.
  revert acc. induction source as [|[k' v'] source IH]; intros acc; simpl; [done|].
  rewrite not_elem_of_cons. intros [Hne Hk]. rewrite IH by done.
  destruct (is_boolean v'); [|done]. unfold set.
  destruct (String.eqb k' "__proto__"); [done|]. by rewrite lookup_insert_ne.
Qed.

(** The copying loop copies every boolean entry, the one named
    [__proto__] apart. *)
Lemma copy_step_complete (source : list (string * value)) (acc : gmap string value) k v :
  NoDup source.*1 → (k, v) ∈ source → is_boolean v = true → k ≠ "__proto__" →
  foldl (λ predicates kv,
           if is_boolean kv.2 then set kv.1 kv.2 predicates else predicates)
        acc source !! k = Some v.
Proof.
  revert acc. induction source as [|[k' v'] source IH]; intros acc; simpl.
  - by intros _ ?%elem_of_nil.
  - rewrite NoDup_cons. intros [Hk' Hnd] Hin Hb Hk.
    apply elem_of_cons in Hin as [[= <- <-]|Hin].
    + rewrite copy_step_other by done. rewrite Hb. unfold set.
      apply String.eqb_neq in Hk. rewrite Hk. by rewrite lookup_insert_eq.
    + by apply IH.
Qed.

Lemma entries_truthy (v : value) kv : kv ∈ entries v → truthy v = true.
Proof.
  destruct v as [| | | |s|l|m]; simpl; try by intros ?%elem_of_nil.
  - destruct s; [by intros ?%elem_of_nil|done].
  - done.
  - done.
Qed.

(** What [extractPredicates] lets through.  Under a name that is not one
    of the four derived ones (nor [__proto__]), the minimized predicates
    hold exactly the boolean entries of the remote predicates: each of
    them is kept with its value, and nothing else appears. *)
Theorem extractPredicates_exactly_booleans
    (result remote_predicates : value) (predicates : gmap string value) (k : string) (v : value) :
  extractPredicates result = Return predicates →
  get "predicates" result = Return remote_predicates →
  k ∉ derived_names → k ≠ "__proto__" →
  predicates !! k = Some v
  ↔ (k, v) ∈ entries remote_predicates ∧ is_boolean v = true.
Proof.
  unfold extractPredicates. intros H Hrp Hk Hproto. rewrite Hrp in H. simpl in H.
  destruct (get "issuer" result) as [ri|]; simpl in H; [|done].
  injection H as <-.
  assert (k ≠ "over21" ∧ k ≠ "over18" ∧ k ≠ "issuerJurisdiction" ∧ k ≠ "notExpired")
    as (Hk1 & Hk2 & Hk3 & Hk4).
  { unfold derived_names in Hk. rewrite !not_elem_of_cons in Hk. tauto. }
  assert (∀ (c : bool) k0 v0 (m : gmap string value),
            k0 ≠ k → (if c then <[k0 := v0]> m else m) !! k = m !! k) as Hif.
  { intros [] k0 v0 m Hne; [by rewrite lookup_insert_ne|done]. }
  rewrite lookup_insert_ne by done. rewrite !Hif by done.
  split.
  - destruct (truthy remote_predicates); [|by rewrite lookup_empty].
    apply copy_booleans_lookup.
  - intros [Hin Hb]. rewrite (entries_truthy _ _ Hin).
    apply copy_step_complete; auto using entries_NoDup.
Qed.

(** The derived flags follow truthiness.  [over21] (and [over18]) is set
    to [true] whenever the remote age predicate is truthy, a boolean or
    not (the string ['false'] counts); [notExpired] is [false] only if
    the remote validity predicate is exactly [false], so a result without
    that predicate counts as not expired. *)
Theorem extractPredicates_derived_flags
    (result remote_predicates : value) (predicates : gmap string value) :
  extractPredicates result = Return predicates →
  get "predicates" result = Return remote_predicates →
  (truthy (get_opt AGE_OVER_21 remote_predicates) = true →
     predicates !! "over21" = Some (VBool true))
  ∧ (truthy (get_opt AGE_OVER_18 remote_predicates) = true →
       predicates !! "over18" = Some (VBool true))
  ∧ (get_opt NOT_EXPIRED remote_predicates ≠ VBool false →
       predicates !! "notExpired" = Some (VBool true))
  ∧ (get_opt NOT_EXPIRED remote_predicates = VBool false →
       predicates !! "notExpired" = Some (VBool false)).
Proof.
  unfold extractPredicates. intros H Hrp. rewrite Hrp in H. simpl in H.
  destruct (get "issuer" result) as [ri|]; simpl in H; [|done].
  injection H as <-.
  assert (∀ (c : bool) k k0 v0 (m : gmap string value),
            k0 ≠ k → (if c then <[k0 := v0]> m else m) !! k = m !! k) as Hif.
  { intros [] k k0 v0 m Hne; [by rewrite lookup_insert_ne|done]. }
  split_and!.
  - intros ->. rewrite lookup_insert_ne by done. rewrite !Hif by done.
    by rewrite lookup_insert_eq.
  - intros ->. rewrite lookup_insert_ne by done. rewrite !Hif by done.
    by rewrite lookup_insert_eq.
  - intros Hne. rewrite lookup_insert_eq.
    destruct (get_opt NOT_EXPIRED remote_predicates) as [| |[]| | | |]; done.
  - intros ->. by rewrite lookup_insert_eq.
Qed.

Variable sha256_base64 : string → string.

(** [verifyPresentation] never throws and answers in one of two shapes.
    A failure has the properties [valid] ([false]) and [error] and no
    other; a success has [valid] ([true]), [predicates] (an object with
    a boolean [notExpired]) and [sessionId] and no other: the answer of
    the proof verifier is never passed on as it came. *)
Theorem verifyPresentation_result_shape (w : World) (jwe : string) :
  let result := verifyPresentation sha256_base64 w jwe in
  (result !! "valid" = Some (VBool false)
   ∧ is_Some (result !! "error")
   ∧ dom result =@{gset string} {[ "valid"; "error" ]})
  ∨ (result !! "valid" = Some (VBool true)
     ∧ (∃ predicates b,
          result !! "predicates" = Some (VObj predicates)
          ∧ predicates !! "notExpired" = Some (VBool b))
     ∧ result !! "sessionId" = Some (VStr (session_uuid w))
     ∧ dom result =@{gset string} {[ "valid"; "predicates"; "sessionId" ]}).
Proof.
  intros result. subst result.
  destruct (verifyPresentation_shape sha256_base64 w jwe)
    as [[error ->]|(vpToken & transcript & predicates & _ & Hp & ->)].
  - left. split_and!.
    + done.
    + by eexists.
    + rewrite !dom_insert_L, dom_empty_L. set_solver.
  - right. split_and!.
    + done.
    + apply extractPredicates_minimal in Hp as (rp & ri & _ & _ & _ & _ & Hne).
      by eexists _, _.
    + done.
    + rewrite !dom_insert_L, dom_empty_L. set_solver.
Qed.

End MinimizationFacts.

Lemma extractPredicates_exactly_booleans_witness :
  Scenarios.loose_minimized !! "resident" = Some (VBool false)
  ↔ ("resident", VBool false) ∈ entries Scenarios.loose_predicates
    ∧ is_boolean (VBool false) = true.
Proof.
  apply (extractPredicates_exactly_booleans Scenarios.loose_result
           Scenarios.loose_predicates Scenarios.loose_minimized "resident" (VBool false)).
  - vm_compute. reflexivity.
  - reflexivity.
  - apply (bool_decide_unpack _). vm_compute. exact I.
  - intros [=].
Defined.

Lemma extractPredicates_derived_flags_witness :
  (truthy (get_opt Verifier.AGE_OVER_21 Scenarios.loose_predicates) = true →
     Scenarios.loose_minimized !! "over21" = Some (VBool true))
  ∧ (truthy (get_opt Verifier.AGE_OVER_18 Scenarios.loose_predicates) = true →
       Scenarios.loose_minimized !! "over18" = Some (VBool true))
  ∧ (get_opt Verifier.NOT_EXPIRED Scenarios.loose_predicates ≠ VBool false →
       Scenarios.loose_minimized !! "notExpired" = Some (VBool true))
  ∧ (get_opt Verifier.NOT_EXPIRED Scenarios.loose_predicates = VBool false →
       Scenarios.loose_minimized !! "notExpired" = Some (VBool false)).
Proof.
  apply (extractPredicates_derived_flags Scenarios.loose_result
           Scenarios.loose_predicates Scenarios.loose_minimized).
  - vm_compute. reflexivity.
  - reflexivity.
Defined.

(* ===================================================================== *)
(** ** Trust list: cache and refresh *)
(* ===================================================================== *)

Section CacheFacts.

Import Trust TrustMaintenance.

Variable date_parse : string → option Z.

(** The cache counts as expired exactly when its timestamp parses to a
    time more than [CACHE_TTL] before the clock. *)
Lemma isCacheExpired_iff (now : Z) (timestamp : string) :
  isCacheExpired date_parse now timestamp = true
  ↔ ∃ t, date_parse timestamp = Some t ∧ CACHE_TTL < now - t.
Proof.
  unfold isCacheExpired, time_lt. destruct (date_parse timestamp) as [t|]; simpl.
  - rewrite Z.ltb_lt. split; [by exists t|]. by intros (? & [= <-] & ?).
  - split; [done|]. by intros (? & [=] & _).
Qed.

(** A cache that has not expired is returned as it is, whether or not
    the cache directory can be made. *)
Lemma fetchVical_serves_cache (w : World) (cachedData : VicalData) :
  cache_file w = Some cachedData →
  isCacheExpired date_parse (now w) (timestamp cachedData) = false →
  fetchVical date_parse w = (Return cachedData, Some cachedData).
Proof.
  intros Hc He. unfold fetchVical. rewrite Hc, He. by destruct (mkdir w) as [[]|].
Qed.

Lemma isCacheExpired_fresh (now : Z) (timestamp : string) :
  (date_parse timestamp = None
   ∨ ∃ t, date_parse timestamp = Some t ∧ now - t ≤ CACHE_TTL) →
  isCacheExpired date_parse now timestamp = false.
Proof.
  intros Hfresh. apply not_true_is_false. rewrite isCacheExpired_iff.
  intros (t & Ht & Hlt).
  destruct Hfresh as [Hn|(t' & Ht' & Hle)]; [congruence|].
  assert (t' = t) as -> by congruence. lia.
Qed.

Local Ltac settle :=
  solve [ intuition (repeat match goal with H : ex _ |- _ => destruct H end;
                     try congruence; eauto) ].

(** When [fetchVical] rejects, and what it does to the cache.  The call
    rejects exactly when there is no cache and either the cache
    directory cannot be made or the list server answers [null].  A list
    it resolves to is either the cached one as stored, the cache staying
    as it is, or one stamped with the current time, which [saveToCache]
    was asked to write.  No readable cache is left behind only when none
    was found, or when the new list was to be written and the write
    failed after it had emptied the file: that loses a cache that was
    there, stale but readable. *)
Theorem fetchVical_rejects_iff (w : World) :
  ((∃ message, (fetchVical date_parse w).1 = Throw message)
     ↔ cache_file w = None
       ∧ ((∃ message, mkdir w = Throw message) ∨ remote w = Json BodyNull))
  ∧ (∀ data, (fetchVical date_parse w).1 = Return data →
       (cache_file w = Some data ∧ (fetchVical date_parse w).2 = Some data)
       ∨ (timestamp data = now_iso w
          ∧ needs_refresh date_parse w = true
          ∧ (fetchVical date_parse w).2 = saveToCache w data))
  ∧ ((fetchVical date_parse w).2 = None
     ↔ cache_file w = None
         ∧ ((∃ message, mkdir w = Throw message) ∨ remote w = Json BodyNull
            ∨ write_ok w = false)
       ∨ (needs_refresh date_parse w = true
          ∧ mkdir w = Return () ∧ remote w ≠ Json BodyNull
          ∧ write_ok w = false ∧ write_truncates w = true)).
Proof.
  unfold fetchVical, needs_refresh, refresh, fetchVicalData, saveToCache.
  destruct (mkdir w) as [[]|e] eqn:Hmk; simpl;
    destruct (cache_file w) as [c|] eqn:Hc; simpl.
  - destruct (isCacheExpired date_parse (now w) (timestamp c)) eqn:He; simpl.
    + destruct (remote w) as [?|?|?|[|js v]] eqn:Hr; simpl; rewrite ?Hc;
        destruct (write_ok w), (write_truncates w); simpl;
        (split_and!;
         [ split; [by intros [? ?]|by intros [? _]]
         | intros data [= <-]; settle
         | settle ]).
    + split_and!; [split; [by intros [? ?]|by intros [? _]]|settle|settle].
  - destruct (remote w) as [?|?|?|[|js v]] eqn:Hr; simpl; rewrite ?Hc;
      destruct (write_ok w), (write_truncates w); simpl;
      (split_and!;
       [ first [ split; [by intros [? ?]|intros [_ [[? ?]|?]]; done]
               | split; eauto ]
       | first [ done | intros data [= <-]; settle ]
       | settle ]).
  - split_and!; [split; [by intros [? ?]|by intros [? _]]|settle|settle].
  - split_and!; [split; eauto|done|settle].
Qed.

(** How long a cache is served.  A cached list is returned as it is,
    with no request made, when its timestamp does not parse as a date or
    is at most 24 hours old (a timestamp from the future included):
    such a cache is served whether or not the cache directory can be
    made.  Once the timestamp is more than 24 hours old the list is
    fetched anew and stamped with the current time. *)
Theorem fetchVical_cache_lifetime (w : World) (cachedData : VicalData) :
  cache_file w = Some cachedData →
  ((date_parse (timestamp cachedData) = None
    ∨ ∃ t, date_parse (timestamp cachedData) = Some t ∧ now w - t ≤ CACHE_TTL) →
   fetchVical date_parse w = (Return cachedData, Some cachedData))
  ∧ ((∃ t, date_parse (timestamp cachedData) = Some t ∧ CACHE_TTL < now w - t) →
     mkdir w = Return () → remote w ≠ Json BodyNull →
     ∃ data, fetchVical date_parse w = (Return data, saveToCache w data)
             ∧ timestamp data = now_iso w).
Proof.
  intros Hc. split.
  - intros Hfresh. by apply fetchVical_serves_cache, isCacheExpired_fresh.
  - intros Hold%isCacheExpired_iff Hmk Hbody.
    unfold fetchVical, refresh, fetchVicalData. rewrite Hmk, Hc, Hold. simpl.
    destruct (remote w) as [?|?|?|[|js v]]; simpl; try done; by eexists.
Qed.

(** A fetched list is served from the cache for the next 24 hours.  When
    a call refreshes the list and writes the cache, every later call
    made within [CACHE_TTL] of it returns the very same list, whatever
    the list server would answer by then. *)
Theorem fetchVical_then_cached (w : World) :
  needs_refresh date_parse w = true →
  mkdir w = Return () →
  remote w ≠ Json BodyNull →
  write_ok w = true →
  date_parse (now_iso w) = Some (now w) →
  ∃ data,
    fetchVical date_parse w = (Return data, Some data)
    ∧ ∀ w2, cache_file w2 = Some data → now w2 ≤ now w + CACHE_TTL →
        fetchVical date_parse w2 = (Return data, Some data).
Proof.
  intros Hneed Hmk Hbody Hw Hdate.
  assert (∃ data, fetchVical date_parse w = (Return data, Some data)
                  ∧ timestamp data = now_iso w) as (data & Hf & Hts).
  { unfold fetchVical, refresh, fetchVicalData, saveToCache.
    unfold needs_refresh in Hneed. rewrite Hmk, Hw. simpl.
    destruct (cache_file w) as [c|]; rewrite ?Hneed; simpl;
      destruct (remote w) as [?|?|?|[|js v]]; simpl; try done; by eexists. }
  exists data. split; [done|]. intros w2 Hc2 Hnow.
  apply fetchVical_serves_cache; [done|]. apply isCacheExpired_fresh.
  right. exists (now w). split; [congruence|lia].
Qed.

(** [refreshVicalCache] gives up the cache before it knows that it can
    replace it.  Once the cache file is deleted, a list it resolves to
    is stamped with the current time (the mock list, when the server
    cannot be reached), and when it rejects, which it does whenever the
    cache directory cannot be made or the server answers [null], no
    cache is left. *)
Theorem refreshVicalCache_gives_up_cache (w : World) :
  (∀ data cache', refreshVicalCache date_parse true w = (Return data, cache') →
     timestamp data = now_iso w
     ∧ cache' = if write_ok w then Some data else None)
  ∧ ((∃ message, mkdir w = Throw message) ∨ remote w = Json BodyNull →
       ∃ message, refreshVicalCache date_parse true w = (Throw message, None))
  ∧ (mkdir w = Return () → request_failed (remote w) = true →
       (refreshVicalCache date_parse true w).1 = Return (getMockVicalData (now_iso w)))
  ∧ refreshVicalCache date_parse false w = fetchVical date_parse w.
Proof.
  unfold refreshVicalCache, unlink, fetchVical, refresh, fetchVicalData, saveToCache.
  simpl. split_and!.
  - intros data cache'.
    destruct (mkdir w) as [[]|e]; simpl; [|done].
    destruct (remote w) as [?|?|?|[|js v]]; simpl; try done;
      intros [= <- <-]; (split; [done|]);
      by destruct (write_ok w), (write_truncates w).
  - intros [[e ->]| ->]; simpl; [by eexists|].
    destruct (mkdir w) as [[]|e]; simpl; by eexists.
  - intros -> Hr. simpl. by destruct (remote w).
  - done.
Qed.

Variable toUpperCase : string → string.

(** [getIssuerCertificates] looks the jurisdiction up without regard to
    the case of the code asked for, and takes the first entry of the
    list under that code: the certificates of a later entry with the
    same code are never returned.  When the list has no such entry the
    call throws, naming the code as it was asked for. *)
Theorem getIssuerCertificates_first_match
    (w : World) (jurisdictionCode : string) (vicalData : VicalData) :
  (fetchVical date_parse w).1 = Return vicalData →
  (∀ certs,
     getIssuerCertificates date_parse toUpperCase w jurisdictionCode = Return certs
     ↔ ∃ before jurisdiction after,
         jurisdictions vicalData = (before ++ jurisdiction :: after)%list
         ∧ code jurisdiction = toUpperCase jurisdictionCode
         ∧ (∀ earlier, earlier ∈ before → code earlier ≠ toUpperCase jurisdictionCode)
         ∧ certs = certificates jurisdiction)
  ∧ ((∀ jurisdiction, jurisdiction ∈ jurisdictions vicalData →
        code jurisdiction ≠ toUpperCase jurisdictionCode) →
     getIssuerCertificates date_parse toUpperCase w jurisdictionCode
     = Throw ("Jurisdiction " ++ jurisdictionCode ++ " not found in VICAL")).
Proof.
  intros Hfetch. unfold getIssuerCertificates. rewrite Hfetch. simpl.
  set (matches := λ j : Jurisdiction, String.eqb (code j) (toUpperCase jurisdictionCode)).
  split.
  - intros certs.
    destruct (List.find matches (jurisdictions vicalData)) as [j|] eqn:Hfind.
    + apply find_first in Hfind as (before & after & Hl & Hj & Hbefore).
      apply String.eqb_eq in Hj. split.
      * intros [= <-]. exists before, j, after. split_and!; try done.
        intros earlier He. by apply String.eqb_neq, Hbefore.
      * intros (before' & j' & after' & Hl' & Hj' & Hbefore' & ->).
        assert (List.find matches (jurisdictions vicalData) = Some j') as Hfind'.
        { apply find_first. exists before', after'. split_and!; [done| |].
          - by apply String.eqb_eq.
          - intros y Hy. by apply String.eqb_neq, Hbefore'. }
        assert (List.find matches (jurisdictions vicalData) = Some j) as Hfind.
        { apply find_first. exists before, after. split_and!; [done| |done].
          by apply String.eqb_eq. }
        congruence.
    + split; [done|].
      intros (before' & j' & after' & Hl' & Hj' & Hbefore' & ->).
      assert (List.find matches (jurisdictions vicalData) = Some j') as Hfind'.
      { apply find_first. exists before', after'. split_and!; [done| |].
        - by apply String.eqb_eq.
        - intros y Hy. by apply String.eqb_neq, Hbefore'. }
      congruence.
  - intros Hnone.
    destruct (List.find matches (jurisdictions vicalData)) as [j|] eqn:Hfind; [|done].
    apply find_first in Hfind as (before & after & Hl & Hj & _).
    apply String.eqb_eq in Hj. destruct (Hnone j); [|done].
    rewrite Hl. apply elem_of_app. right. by left.
Qed.

End CacheFacts.

Lemma fetchVical_cache_lifetime_witness :
  Trust.fetchVical Examples.date_parse Examples.cached
  = (Return Examples.old_list, Some Examples.old_list).
Proof.
  destruct (fetchVical_cache_lifetime Examples.date_parse Examples.cached
              Examples.old_list eq_refl) as [Hserve _].
  apply Hserve. right. exists 1748736000000. split; [reflexivity|].
  vm_compute. intros [=].
Defined.

Lemma getIssuerCertificates_first_match_witness :
  (∀ certs,
     Trust.getIssuerCertificates Examples.date_parse Examples.toUpperCase
       Examples.cached "ca" = Return certs
     ↔ ∃ before jurisdiction after,
         Trust.jurisdictions Examples.old_list
         = (before ++ jurisdiction :: after)%list
         ∧ Trust.code jurisdiction = Examples.toUpperCase "ca"
         ∧ (∀ earlier, earlier ∈ before →
              Trust.code earlier ≠ Examples.toUpperCase "ca")
         ∧ certs = Trust.certificates jurisdiction)
  ∧ ((∀ jurisdiction, jurisdiction ∈ Trust.jurisdictions Examples.old_list →
        Trust.code jurisdiction ≠ Examples.toUpperCase "ca") →
     Trust.getIssuerCertificates Examples.date_parse Examples.toUpperCase
       Examples.cached "ca"
     = Throw ("Jurisdiction " ++ "ca" ++ " not found in VICAL")).
Proof.
  apply (getIssuerCertificates_first_match Examples.date_parse Examples.toUpperCase
           Examples.cached "ca" Examples.old_list).
  reflexivity.
Defined.

Lemma fetchVical_then_cached_witness :
  ∃ data,
    Trust.fetchVical Examples.date_parse (Examples.offline None)
    = (Return data, Some data)
    ∧ ∀ w2, Trust.cache_file w2 = Some data →
        Trust.now w2 ≤ Trust.now (Examples.offline None) + Trust.CACHE_TTL →
        Trust.fetchVical Examples.date_parse w2 = (Return data, Some data).
Proof.
  apply (fetchVical_then_cached Examples.date_parse (Examples.offline None));
    try reflexivity.
  intros [=].
Defined.

(* ===================================================================== *)
(** ** Allow-list of jurisdictions *)
(* ===================================================================== *)

Section AllowListFacts.

Import Trust TrustMaintenance.

Variable toUpperCase : string → string.

Lemma isJurisdictionAccepted_elem_of (l : list string) (code : string) :
  isJurisdictionAccepted toUpperCase l code = true ↔ toUpperCase code ∈ l.
Proof. apply includes_elem_of. Qed.

(** [indexOf] finds the first occurrence. *)
Lemma indexOf_Some (x : string) (l : list string) (i : nat) :
  indexOf x l = Some i →
  ∃ l1 l2, l = (l1 ++ x :: l2)%list ∧ (x ∉ l1) ∧ delete i l = (l1 ++ l2)%list.
Proof.
  revert i. induction l as [|y l IH]; intros i; simpl; [done|].
  destruct (String.eqb_spec y x) as [->|Hne].
  - intros [= <-]. exists [], l. split_and!; [done|apply not_elem_of_nil|done].
  - destruct (indexOf x l) as [j|]; simpl; [|done]. intros [= <-].
    destruct (IH j eq_refl) as (l1 & l2 & -> & Hx & Hdel).
    exists (y :: l1), l2. split_and!.
    + done.
    + rewrite not_elem_of_cons. split; [congruence|done].
    + simpl. by rewrite Hdel.
Qed.

Lemma indexOf_None (x : string) (l : list string) :
  indexOf x l = None → x ∉ l.
Proof.
  induction l as [|y l IH]; simpl; [intros _; apply not_elem_of_nil|].
  destruct (String.eqb_spec y x) as [->|Hne]; [done|].
  destruct (indexOf x l); simpl; [done|]. intros _.
  rewrite not_elem_of_cons. split; [congruence|by apply IH].
Qed.

Lemma filter_absent (x : string) (l : list string) :
  x ∉ l → filter (λ entry, entry = x) l = [].
Proof.
  induction l as [|y l IH]; [done|].
  rewrite not_elem_of_cons. intros [Hne Hx].
  rewrite filter_cons_False by congruence. by apply IH.
Qed.

(** Adding a jurisdiction.  After [addAcceptedJurisdiction] the
    jurisdiction is accepted, in whatever case its code was written;
    every jurisdiction accepted before still is, and none but the added
    one is new; adding it again changes nothing, and a list without
    duplicates stays without. *)
Theorem addAcceptedJurisdiction_accepts (code : string) (accepted : list string) :
  let accepted' := addAcceptedJurisdiction toUpperCase code accepted in
  isJurisdictionAccepted toUpperCase accepted' code = true
  ∧ (∀ other, isJurisdictionAccepted toUpperCase accepted' other = true
       ↔ isJurisdictionAccepted toUpperCase accepted other = true
         ∨ toUpperCase other = toUpperCase code)
  ∧ addAcceptedJurisdiction toUpperCase code accepted' = accepted'
  ∧ (NoDup accepted → NoDup accepted').
Proof.
  intros accepted'. subst accepted'. unfold addAcceptedJurisdiction.
  destruct (includes (toUpperCase code) accepted) eqn:Hin; simpl.
  - split_and!.
    + done.
    + intros other. rewrite !isJurisdictionAccepted_elem_of.
      apply includes_elem_of in Hin. split; [by left|]. by intros [?| ->].
    + by rewrite Hin.
    + done.
  - assert (toUpperCase code ∉ accepted) as Hnot.
    { rewrite <-includes_elem_of. by rewrite Hin. }
    assert (includes (toUpperCase code) (accepted ++ [toUpperCase code]) = true) as Hin'.
    { apply includes_elem_of. rewrite elem_of_app, elem_of_cons. auto. }
    split_and!.
    + done.
    + intros other. rewrite !isJurisdictionAccepted_elem_of.
      rewrite elem_of_app, elem_of_cons, elem_of_nil. tauto.
    + by rewrite Hin'.
    + intros Hnd. apply NoDup_app. split_and!; [done| |apply NoDup_singleton].
      intros x Hx. rewrite elem_of_cons, elem_of_nil. intros [->|[]]. done.
Qed.

(** Removing a jurisdiction takes out one entry only.  After
    [removeAcceptedJurisdiction] the jurisdiction is still accepted
    exactly when the list held its code more than once (as a list read
    from the environment can); the other jurisdictions are accepted as
    before.  On a list without duplicates the jurisdiction is rejected
    afterwards. *)
Theorem removeAcceptedJurisdiction_first_only (code : string) (accepted : list string) :
  let accepted' := removeAcceptedJurisdiction toUpperCase code accepted in
  (isJurisdictionAccepted toUpperCase accepted' code = true
     ↔ (2 ≤ length (filter (λ entry, entry = toUpperCase code) accepted))%nat)
  ∧ (∀ other, toUpperCase other ≠ toUpperCase code →
       isJurisdictionAccepted toUpperCase accepted' other
       = isJurisdictionAccepted toUpperCase accepted other)
  ∧ (NoDup accepted →
       isJurisdictionAccepted toUpperCase accepted' code = false ∧ NoDup accepted').
Proof.
  intros accepted'. subst accepted'. unfold removeAcceptedJurisdiction.
  set (c := toUpperCase code).
  assert (∀ l other, isJurisdictionAccepted toUpperCase l other = true
                     ↔ toUpperCase other ∈ l) as Hacc.
  { intros. apply isJurisdictionAccepted_elem_of. }
  assert (∀ l1 l2 other,
            (toUpperCase other ∈ l1 ↔ toUpperCase other ∈ l2) →
            isJurisdictionAccepted toUpperCase l1 other
            = isJurisdictionAccepted toUpperCase l2 other) as Hsame.
  { intros l1 l2 other H.
    destruct (isJurisdictionAccepted toUpperCase l1 other) eqn:H1,
             (isJurisdictionAccepted toUpperCase l2 other) eqn:H2; try done.
    - apply Hacc, H, Hacc in H1. congruence.
    - apply Hacc, H, Hacc in H2. congruence. }
  destruct (indexOf c accepted) as [i|] eqn:Hi.
  - destruct (indexOf_Some _ _ _ Hi) as (l1 & l2 & -> & Hl1 & ->).
    assert (filter (λ entry, entry = c) l1 = []) as Hf1 by (by apply filter_absent).
    split_and!.
    + rewrite Hacc. fold c. rewrite filter_app, filter_cons_True by done.
      rewrite Hf1. simpl. rewrite elem_of_app.
      split.
      * intros [?|Hin]; [done|].
        assert (c ∈ filter (λ entry, entry = c) l2) as Hin'.
        { by apply list_elem_of_filter. }
        destruct (filter (λ entry, entry = c) l2); [by apply elem_of_nil in Hin'|].
        simpl. lia.
      * intros Hlen. right.
        destruct (filter (λ entry, entry = c) l2) as [|x l] eqn:Hf; [simpl in Hlen; lia|].
        assert (x ∈ filter (λ entry, entry = c) l2) as Hx by (rewrite Hf; left).
        apply list_elem_of_filter in Hx as [-> Hx]. done.
    + intros other Hne. apply Hsame. fold c in Hne.
      rewrite !elem_of_app, elem_of_cons. tauto.
    + intros Hnd. apply NoDup_app in Hnd as (Hnd1 & Hdisj & Hnd2).
      apply NoDup_cons in Hnd2 as [Hc2 Hnd2]. split.
      * apply not_true_is_false. rewrite Hacc. fold c. rewrite elem_of_app. tauto.
      * apply NoDup_app. split_and!; [done| |done].
        intros x Hx Hx2. apply (Hdisj x Hx). by right.
  - apply indexOf_None in Hi.
    assert (filter (λ entry, entry = c) accepted = []) as Hf by (by apply filter_absent).
    split_and!.
    + rewrite Hacc, Hf. fold c. simpl. split; [done|lia].
    + done.
    + intros Hnd. split; [|done]. apply not_true_is_false. by rewrite Hacc.
Qed.

(** An entry of the allow-list that is not in upper case accepts
    nothing.  The code asked for is put in upper case before it is
    looked up, the entries of the list are not: an entry such as ['ca']
    (from the environment) can be left out without changing any
    answer. *)
Theorem isJurisdictionAccepted_entry_not_upper
    (entry code : string) (before after : list string) :
  toUpperCase entry ≠ entry →
  toUpperCase (toUpperCase code) = toUpperCase code →
  isJurisdictionAccepted toUpperCase (before ++ entry :: after) code
  = isJurisdictionAccepted toUpperCase (before ++ after) code.
Proof.
  intros Hentry Hidem.
  assert (toUpperCase code ≠ entry) as Hne by congruence.
  destruct (isJurisdictionAccepted toUpperCase (before ++ entry :: after) code) eqn:H1,
           (isJurisdictionAccepted toUpperCase (before ++ after) code) eqn:H2; try done.
  - apply isJurisdictionAccepted_elem_of in H1.
    assert (toUpperCase code ∈ (before ++ after)%list) as H.
    { revert H1. rewrite !elem_of_app, elem_of_cons. tauto. }
    apply isJurisdictionAccepted_elem_of in H. congruence.
  - apply isJurisdictionAccepted_elem_of in H2.
    assert (toUpperCase code ∈ (before ++ entry :: after)%list) as H.
    { revert H2. rewrite !elem_of_app, elem_of_cons. tauto. }
    apply isJurisdictionAccepted_elem_of in H. congruence.
Qed.

End AllowListFacts.

Section AcceptedIssuersFacts.

Import Trust TrustMaintenance.

Variable date_parse : string → option Z.
Variable toUpperCase : string → string.

Lemma getAcceptedIssuers_from_spec (worlds : nat → World) (remaining : list string) :
  ∀ i issuers,
  ∃ added,
    getAcceptedIssuers_from date_parse toUpperCase worlds i remaining issuers
    = (issuers ++ added)%list
    ∧ added.*1 `sublist_of` remaining
    ∧ ∀ code certs,
        (code, certs) ∈ added
        ↔ ∃ j, remaining !! j = Some code
               ∧ getIssuerCertificates date_parse toUpperCase (worlds (i + j)%nat) code
                 = Return certs.
Proof.
  induction remaining as [|code0 rest IH]; intros i issuers; simpl.
  - exists []. split_and!; [by rewrite app_nil_r|done|].
    intros code certs. split; [by intros ?%elem_of_nil|]. by intros (j & ? & _).
  - destruct (getIssuerCertificates date_parse toUpperCase (worlds i) code0)
      as [certs0|e] eqn:H0.
    + destruct (IH (S i) (issuers ++ [(code0, certs0)])%list) as (added & -> & Hsub & Hin).
      exists ((code0, certs0) :: added). split_and!.
      * by rewrite <-app_assoc.
      * simpl. by apply sublist_skip.
      * intros code certs. rewrite elem_of_cons, Hin. split.
        -- intros [[= -> ->]|(j & Hj & Hc)].
           ++ exists 0%nat. by rewrite Nat.add_0_r.
           ++ exists (S j). by rewrite Nat.add_succ_r.
        -- intros ([|j] & Hj & Hc).
           ++ left. simpl in Hj. injection Hj as <-. rewrite Nat.add_0_r in Hc.
              congruence.
           ++ right. exists j. by rewrite Nat.add_succ_r in Hc.
    + destruct (IH (S i) issuers) as (added & -> & Hsub & Hin).
      exists added. split_and!.
      * done.
      * by apply sublist_cons.
      * intros code certs. rewrite Hin. split.
        -- intros (j & Hj & Hc). exists (S j). by rewrite Nat.add_succ_r.
        -- intros ([|j] & Hj & Hc).
           ++ simpl in Hj. injection Hj as <-. rewrite Nat.add_0_r in Hc. congruence.
           ++ exists j. by rewrite Nat.add_succ_r in Hc.
Qed.

(** [getAcceptedIssuers] lists the accepted jurisdictions whose
    certificates could be had, in the order of the allow-list and under
    the codes as the allow-list writes them: an entry is in the result
    exactly when the call of [getIssuerCertificates] made for it
    returned, and a jurisdiction for which the call failed is left out
    without an error. *)
Theorem getAcceptedIssuers_lists_found (worlds : nat → World) (accepted : list string) :
  let issuers := getAcceptedIssuers date_parse toUpperCase worlds accepted in
  issuers.*1 `sublist_of` accepted
  ∧ ∀ code certs,
      (code, certs) ∈ issuers
      ↔ ∃ j, accepted !! j = Some code
             ∧ getIssuerCertificates date_parse toUpperCase (worlds j) code
               = Return certs.
Proof.
  intros issuers. subst issuers. unfold getAcceptedIssuers.
  destruct (getAcceptedIssuers_from_spec worlds accepted 0 []) as (added & -> & Hsub & Hin).
  done.
Qed.

Lemma prefix_of_label (jurisdiction suffix : string) :
  has_char "-"%char jurisdiction = false →
  prefix_of (jurisdiction ++ "-" ++ suffix) = jurisdiction.
Proof.
  intros Hj. unfold prefix_of.
  change (jurisdiction ++ "-" ++ suffix)
    with (jurisdiction ++ String "-"%char suffix).
  by rewrite split_app_sep, (split_no_sep _ _ Hj).
Qed.

(** Of an issuer label only the part before the first hyphen counts,
    and its case does not: two labels whose jurisdiction parts agree up
    to case get the same verdict from [verifyIssuer], whatever follows
    the hyphen (['CA-DMV'] and ['ca-anything'] are one issuer to it). *)
Theorem verifyIssuer_label_suffix_ignored
    (accepted : list string) (w : World)
    (jurisdiction jurisdiction' suffix suffix' kid' : string) :
  has_char "-"%char jurisdiction = false →
  has_char "-"%char jurisdiction' = false →
  toUpperCase jurisdiction = toUpperCase jurisdiction' →
  verifyIssuer date_parse toUpperCase accepted w (jurisdiction ++ "-" ++ suffix) kid'
  = verifyIssuer date_parse toUpperCase accepted w (jurisdiction' ++ "-" ++ suffix') kid'.
Proof.
  intros Hj Hj' Hupper. unfold verifyIssuer.
  by rewrite !prefix_of_label, Hupper.
Qed.

End AcceptedIssuersFacts.

Lemma verifyIssuer_label_suffix_ignored_witness :
  Examples.pinning Examples.cached ("CA" ++ "-" ++ "DMV") "ca-dmv-2025-02"
  = Examples.pinning Examples.cached ("ca" ++ "-" ++ "anything") "ca-dmv-2025-02".
Proof.
  apply (verifyIssuer_label_suffix_ignored Examples.date_parse Examples.toUpperCase
           ["CA"; "NY"; "FL"] Examples.cached "CA" "ca" "DMV" "anything"
           "ca-dmv-2025-02"); reflexivity.
Defined.

Lemma isJurisdictionAccepted_entry_not_upper_witness :
  Trust.isJurisdictionAccepted Examples.toUpperCase ["ca"; "NY"] "ca"
  = Trust.isJurisdictionAccepted Examples.toUpperCase ["NY"] "ca".
Proof.
  apply (isJurisdictionAccepted_entry_not_upper Examples.toUpperCase "ca" "ca" [] ["NY"]).
  - vm_compute. intros [=].
  - reflexivity.
Defined.

(* ===================================================================== *)
(** ** Runs of the issuer server *)
(* ===================================================================== *)

Section RunFacts.

Import IssuerServer IssuerRuns.

Variable issueCredential :
  Z → value → value → list (string * value) → outcome Issuer.Issued.

Lemma opened_by_app (requests more : list (Z * Request)) (s : Session) :
  opened_by requests s → opened_by (requests ++ more) s.
Proof.
  intros (now & now_iso & req_body & Hin & H). exists now, now_iso, req_body.
  split; [|done]. apply elem_of_app. by left.
Qed.

Lemma opened_by_set_accessToken (requests : list (Z * Request)) tok (s : Session) :
  opened_by requests s → opened_by requests (set_accessToken tok s).
Proof. done. Qed.

Lemma foldl_delete_Some (due : list (Z * string)) (m : gmap string nat) k ref :
  foldl (λ m t, delete t.2 m) m due !! k = Some ref → m !! k = Some ref.
Proof.
  revert m. induction due as [|t due IH]; intros m; simpl; [done|].
  intros H%IH. by apply lookup_delete_Some in H as [_ H].
Qed.

Lemma foldl_delete_None (due : list (Z * string)) (m : gmap string nat) k :
  m !! k = None → foldl (λ m t, delete t.2 m) m due !! k = None.
Proof.
  revert m. induction due as [|t due IH]; intros m; simpl; [done|].
  intros H. apply IH. by apply lookup_delete_None; right.
Qed.

(** The credential endpoint leaves the session store as it is. *)
Lemma credential_state now uuid_nonce authorization req_body (st : State) :
  (credential issueCredential now uuid_nonce authorization req_body st).2 = st.
Proof.
  unfold credential.
  match goal with |- (match ?attempt with _ => _ end).2 = _ => by destruct attempt end.
Qed.

Local Ltac unchanged Hkeys Hobjects := split; [exact Hkeys|exact Hobjects].

(** Every key of the session map leads to a session object, and every
    session object was made by an /authorize request: one step. *)
Lemma handle_sessions_opened (requests : list (Z * Request)) now r (st : State) :
  (∀ key ref, sessions st !! key = Some ref → is_Some (objects st !! ref)) →
  (∀ ref s, objects st !! ref = Some s → opened_by requests s) →
  (∀ key ref, sessions (handle issueCredential now r st).2 !! key = Some ref →
     is_Some (objects (handle issueCredential now r st).2 !! ref))
  ∧ (∀ ref s, objects (handle issueCredential now r st).2 !! ref = Some s →
       opened_by (requests ++ [(now, r)]) s).
Proof.
  intros Hkeys Hobjects.
  assert (∀ key ref, sessions (run_timers now st) !! key = Some ref →
            is_Some (objects st !! ref)) as Hkeys'.
  { intros key ref H. apply (Hkeys key). by apply foldl_delete_Some in H. }
  pose proof (λ ref s (H : objects st !! ref = Some s),
                opened_by_app requests [(now, r)] s (Hobjects ref s H)) as Hobjects'.
  unfold handle. destruct r as [now_iso uuid req_body|uuid_token uuid_nonce req_body|
                                uuid_nonce authorization req_body].
  - (* /authorize *)
    unfold authorize.
    destruct (get "verificationSessionId" req_body) as [vsid|e] eqn:Hv; simpl;
      [|unchanged Hkeys' Hobjects'].
    destruct (get "holderPublicKey" req_body) as [hpk|e] eqn:Hh; simpl;
      [|unchanged Hkeys' Hobjects'].
    destruct (truthy vsid) eqn:Htv; simpl;
      [|unchanged Hkeys' Hobjects'].
    destruct (truthy hpk) eqn:Hth; simpl;
      [|unchanged Hkeys' Hobjects'].
    split.
    + intros key ref. destruct (decide (uuid = key)) as [->|Hne].
      * rewrite lookup_insert_eq. intros [= <-]. rewrite lookup_insert_eq. by eexists.
      * rewrite lookup_insert_ne by done. intros H%Hkeys'.
        apply lookup_insert_is_Some'. by right.
    + intros ref s. destruct (decide (next_ref st = ref)) as [<-|Hne].
      * rewrite lookup_insert_eq. intros [= <-].
        exists now, now_iso, req_body. simpl. split_and!; try done.
        apply elem_of_app. right. by left.
      * rewrite lookup_insert_ne by done. apply Hobjects'.
  - (* /token *)
    unfold token.
    destruct (get "grant_type" req_body) as [grant_type|e]; simpl;
      [|unchanged Hkeys' Hobjects'].
    destruct (get "code" req_body) as [code|e]; simpl;
      [|unchanged Hkeys' Hobjects'].
    destruct (is_str "authorization_code" grant_type); simpl;
      [|unchanged Hkeys' Hobjects'].
    destruct (sessions_get (run_timers now st) code) as [session|] eqn:Hs; simpl;
      [|unchanged Hkeys' Hobjects'].
    assert (is_Some (objects st !! session)) as Hsession.
    { destruct code; try done. simpl in Hs. by apply Hkeys' in Hs. }
    split.
    + intros key ref H.
      assert (is_Some (objects st !! ref)) as [s Hs'].
      { destruct (decide (uuid_token = key)) as [->|Hne].
        - rewrite lookup_insert_eq in H. by injection H as <-.
        - rewrite lookup_insert_ne in H by done. by apply Hkeys' in H. }
      destruct (decide (session = ref)) as [->|Hne].
      * rewrite lookup_alter_eq, Hs'. by eexists.
      * rewrite lookup_alter_ne by done. by eexists.
    + intros ref s. destruct (decide (session = ref)) as [->|Hne].
      * rewrite lookup_alter_eq. destruct (objects st !! ref) as [s0|] eqn:H0; [|done].
        simpl. intros [= <-]. apply opened_by_app, opened_by_set_accessToken.
        by apply (Hobjects ref).
      * rewrite lookup_alter_ne by done. apply Hobjects'.
  - (* /credential *)
    rewrite credential_state.
    unchanged Hkeys' Hobjects'.
Qed.

Lemma run_sessions_opened (requests : list (Z * Request)) :
  ∀ (before : list (Z * Request)) (st : State),
  (∀ key ref, sessions st !! key = Some ref → is_Some (objects st !! ref)) →
  (∀ ref s, objects st !! ref = Some s → opened_by before s) →
  (∀ key ref, sessions (run issueCredential requests st).2 !! key = Some ref →
     is_Some (objects (run issueCredential requests st).2 !! ref))
  ∧ (∀ ref s, objects (run issueCredential requests st).2 !! ref = Some s →
       opened_by (before ++ requests) s).
Proof.
  induction requests as [|[now r] requests IH]; intros before st Hkeys Hobjects.
  - simpl. rewrite app_nil_r. done.
  - simpl.
    destruct (handle_sessions_opened before now r st Hkeys Hobjects) as [Hkeys1 Hobjects1].
    destruct (handle issueCredential now r st) as [response st1]. simpl in *.
    destruct (IH (before ++ [(now, r)])%list st1 Hkeys1 Hobjects1) as [Hkeys2 Hobjects2].
    destruct (run issueCredential requests st1) as [responses st2]. simpl in *.
    rewrite <-app_assoc in Hobjects2. done.
Qed.

(** A credential is only ever issued for an authorized session.
    Whatever requests the server has handled since it started, when the
    credential endpoint answers 200 the credential in the answer was
    issued for the holder key and the verification session that some
    earlier /authorize request carried. *)
Theorem credential_only_for_authorized
    (requests : list (Z * Request)) (now : Z) (uuid_nonce : string)
    (authorization : option string) (req_body : value) :
  let st := (run issueCredential requests initial).2 in
  let response :=
    (handle issueCredential now (PostCredential uuid_nonce authorization req_body) st).1 in
  status response = 200 →
  ∃ session signed,
    opened_by requests session
    ∧ issueCredential (now `div` 1000) (holderPublicKey session)
        (verificationSessionId session)
        [("over21", VBool true); ("notExpired", VBool true)] = Return signed
    ∧ field "credential" response = Some (VStr (Issuer.sdJwt signed)).
Proof.
  intros st response. subst response.
  destruct (run_sessions_opened requests [] initial) as [_ Hobjects]; [done|done|].
  fold st in Hobjects. simpl in Hobjects.
  unfold handle, credential.
  destruct authorization as [authHeader|]; [|by intros [=]].
  destruct (negb (truthy (VStr authHeader)) || negb (startsWith "Bearer " authHeader));
    [by intros [=]|].
  destruct (sessions (run_timers now st) !! substring_from 7 authHeader) as [ref|];
    [|by intros [=]].
  destruct (get "format" req_body) as [format|e]; [|by intros [=]].
  destruct (get "proof" req_body) as [proof|e]; [|by intros [=]].
  simpl.
  destruct (truthy format && negb (is_str "vc+sd-jwt" format)); [by intros [=]|].
  destruct (truthy proof && negb (is_str "jwt" (get_opt "proof_type" proof)));
    [by intros [=]|].
  destruct (objects st !! ref) as [session|] eqn:Hsession; [|by intros [=]].
  destruct (issueCredential (now `div` 1000) (holderPublicKey session)
              (verificationSessionId session)
              [("over21", VBool true); ("notExpired", VBool true)])
    as [signed|e] eqn:Hsigned; [|by intros [=]].
  intros _. exists session, signed. split_and!; [by apply (Hobjects ref)|done|done].
Qed.

(** The authorization code runs out.  Ten minutes after a successful
    /authorize request its code is refused by the token endpoint with
    [invalid_grant], whatever requests came in between and in whatever
    order their times, as long as none of them stored a new entry under
    the same identifier. *)
Theorem authorization_code_expires
    (t0 t2 : Z) (now_iso code tok nonce : string) (req_body : value)
    (st0 : State) (between : list (Z * Request)) :
  status (handle issueCredential t0 (PostAuthorize now_iso code req_body) st0).1 = 200 →
  Forall (λ request, leaves_key code request.2) between →
  t0 + SESSION_TIMEOUT ≤ t2 →
  let st1 := (handle issueCredential t0 (PostAuthorize now_iso code req_body) st0).2 in
  let st2 := (run issueCredential between st1).2 in
  is_error "invalid_grant"
    (handle issueCredential t2 (PostToken tok nonce (token_request code)) st2).1 = true.
Proof.
  intros Hok Hbetween Hlate st1 st2.
  (* the entry is gone, or its timer is pending *)
  assert (sessions st1 !! code = None ∨ (t0 + SESSION_TIMEOUT, code) ∈ timers st1) as H1.
  { subst st1. revert Hok. unfold handle, authorize.
    destruct (get "verificationSessionId" req_body) as [vsid|e]; [|by intros [=]].
    destruct (get "holderPublicKey" req_body) as [hpk|e]; [|by intros [=]].
    simpl. destruct (negb (truthy vsid) || negb (truthy hpk)); [by intros [=]|].
    intros _. right. simpl. apply elem_of_app. right. by left. }
  assert (∀ now st,
            sessions st !! code = None ∨ (t0 + SESSION_TIMEOUT, code) ∈ timers st →
            sessions (run_timers now st) !! code = None
            ∨ (t0 + SESSION_TIMEOUT, code) ∈ timers (run_timers now st)) as Htimers.
  { intros now st [Hnone|Hin].
    - left. by apply foldl_delete_None.
    - destruct (decide (t0 + SESSION_TIMEOUT ≤ now)) as [Hdue|Hnot].
      + left. by eapply run_timers_due.
      + right. simpl. apply list_elem_of_filter. by split. }
  assert (∀ now r st,
            leaves_key code r →
            sessions st !! code = None ∨ (t0 + SESSION_TIMEOUT, code) ∈ timers st →
            sessions (handle issueCredential now r st).2 !! code = None
            ∨ (t0 + SESSION_TIMEOUT, code) ∈ timers (handle issueCredential now r st).2)
    as Hstep.
  { intros now r st Hr H%(Htimers now). unfold handle.
    destruct r as [iso uuid body|uuid_token uuid_nonce body|uuid_nonce authorization body];
      simpl in Hr.
    - unfold authorize.
      destruct (get "verificationSessionId" body) as [vsid|e]; [|done].
      destruct (get "holderPublicKey" body) as [hpk|e]; [|done].
      simpl. destruct (negb (truthy vsid) || negb (truthy hpk)); [done|].
      simpl. rewrite lookup_insert_ne by done. rewrite elem_of_app. tauto.
    - unfold token.
      destruct (get "grant_type" body) as [grant_type|e]; [|done].
      destruct (get "code" body) as [c|e]; [|done].
      simpl. destruct (negb (is_str "authorization_code" grant_type)); [done|].
      destruct (sessions_get (run_timers now st) c); [|done].
      simpl. by rewrite lookup_insert_ne.
    - by rewrite credential_state. }
  assert (sessions st2 !! code = None ∨ (t0 + SESSION_TIMEOUT, code) ∈ timers st2) as H2.
  { subst st2. clearbody st1. clear Hok. revert st1 H1.
    induction Hbetween as [|[now r] between Hr Hbetween IH]; intros st1 H1; [done|].
    simpl. pose proof (Hstep now r st1 Hr H1) as H.
    destruct (handle issueCredential now r st1) as [response st1'].
    specialize (IH st1' H).
    by destruct (run issueCredential between st1') as [responses st2']. }
  assert (sessions (run_timers t2 st2) !! code = None) as Hgone.
  { destruct H2 as [Hnone|Hin].
    - by apply foldl_delete_None.
    - by eapply run_timers_due. }
  unfold handle. rewrite (token_cases _ _ _ _ (VStr "authorization_code") (VStr code));
    [|done|done].
  unfold sessions_get. rewrite Hgone. reflexivity.
Qed.

(** A request that is not answered with 200 leaves the session store
    alone, and so does every request to the credential endpoint: the
    state after it is the state before it with the due timers run. *)
Theorem failed_request_leaves_store (now : Z) (r : Request) (st : State) :
  (status (handle issueCredential now r st).1 ≠ 200 →
     (handle issueCredential now r st).2 = run_timers now st)
  ∧ (∀ uuid_nonce authorization req_body,
       r = PostCredential uuid_nonce authorization req_body →
       (handle issueCredential now r st).2 = run_timers now st).
Proof.
  split.
  - unfold handle.
    destruct r as [iso uuid body|uuid_token uuid_nonce body|uuid_nonce authorization body].
    + unfold authorize.
      destruct (get "verificationSessionId" body) as [vsid|e]; [|done].
      destruct (get "holderPublicKey" body) as [hpk|e]; [|done].
      simpl. by destruct (negb (truthy vsid) || negb (truthy hpk)).
    + unfold token.
      destruct (get "grant_type" body) as [grant_type|e]; [|done].
      destruct (get "code" body) as [c|e]; [|done].
      simpl. destruct (negb (is_str "authorization_code" grant_type)); [done|].
      by destruct (sessions_get (run_timers now st) c).
    + intros _. apply credential_state.
  - intros uuid_nonce authorization req_body ->. apply credential_state.
Qed.

End RunFacts.

Lemma credential_only_for_authorized_witness :
  ∃ session signed,
    IssuerRuns.opened_by
      [Examples.authorize_call;
       Examples.token_call (Examples.t0 + 1000) Examples.first_token Examples.auth_code]
      session
    ∧ Examples.issue ((Examples.t0 + 2000) `div` 1000)
        (IssuerServer.holderPublicKey session)
        (IssuerServer.verificationSessionId session)
        [("over21", VBool true); ("notExpired", VBool true)] = Return signed
    ∧ IssuerServer.field "credential"
        (IssuerServer.handle Examples.issue (Examples.t0 + 2000)
           (Examples.credential_call (Examples.t0 + 2000) Examples.first_token).2
           (IssuerServer.run Examples.issue
              [Examples.authorize_call;
               Examples.token_call (Examples.t0 + 1000) Examples.first_token
                 Examples.auth_code]
              IssuerServer.initial).2).1
      = Some (VStr (Issuer.sdJwt signed)).
Proof.
  apply (credential_only_for_authorized Examples.issue
           [Examples.authorize_call;
            Examples.token_call (Examples.t0 + 1000) Examples.first_token
              Examples.auth_code]
           (Examples.t0 + 2000) Examples.c_nonce
           (Some ("Bearer " ++ Examples.first_token)) (VObj ∅)).
  vm_compute. reflexivity.
Defined.

Lemma authorization_code_expires_witness :
  IssuerServer.is_error "invalid_grant"
    (IssuerServer.handle Examples.issue (Examples.t0 + 600000)
       (IssuerServer.PostToken Examples.second_token Examples.c_nonce
          (IssuerServer.token_request Examples.auth_code))
       (IssuerServer.run Examples.issue
          [Examples.token_call (Examples.t0 + 1000) Examples.first_token
             Examples.auth_code]
          (IssuerServer.handle Examples.issue Examples.t0 Examples.authorize_call.2
             IssuerServer.initial).2).2).1
  = true.
Proof.
  apply (authorization_code_expires Examples.issue Examples.t0 (Examples.t0 + 600000)
           "2025-06-03T00:00:00.000Z" Examples.auth_code Examples.second_token
           Examples.c_nonce
           (IssuerServer.authorize_request Examples.session_id Examples.holder_jwk)
           IssuerServer.initial
           [Examples.token_call (Examples.t0 + 1000) Examples.first_token
              Examples.auth_code]).
  - vm_compute. reflexivity.
  - constructor; [vm_compute; intros [=]|constructor].
  - vm_compute. intros [=].
Defined.


(* ===================================================================== *)
(** ** Verifier server *)
(* ===================================================================== *)

Section VerifierServerFacts.

Import IssuerServer VerifierServer.

Variable sha256_base64 : string → string.

(** POST /api/verify on a string.  When the body holds a string under
    [response], the handler never answers 500; it answers 200 exactly
    when the string is not empty and the presentation verifies, and then
    the body holds [ok], the predicates, the session id and the time and
    nothing else of the proof verifier's answer.  Of the predicates
    every entry is a boolean except [issuerJurisdiction], which is the
    [issuer] member of the answer as it came: no type is asked of it, so
    that a label, a number or an object goes through.  Every other
    answer is a 400 with [ok: false] and no predicates. *)
Theorem api_verify_answers
    (w : Verifier.World) (verifyPresentation : value → gmap string value)
    (now_iso : string) (req_body : value) (jwe : string) :
  get "response" req_body = Return (VStr jwe) →
  verifyPresentation (VStr jwe) = Verifier.verifyPresentation sha256_base64 w jwe →
  let response := api_verify verifyPresentation now_iso req_body in
  let result := Verifier.verifyPresentation sha256_base64 w jwe in
  (status response = 200
   ∧ jwe ≠ EmptyString
   ∧ result !! "valid" = Some (VBool true)
   ∧ ∃ predicates vpToken sessionTranscript remote_issuer,
       result !! "predicates" = Some (VObj predicates)
       ∧ body response
         = [("ok", VBool true); ("predicates", VObj predicates);
            ("sessionId", VStr (Verifier.session_uuid w));
            ("timestamp", VStr now_iso)]
       ∧ get "issuer" (Verifier.verifyWithLongfellow w vpToken sessionTranscript)
         = Return remote_issuer
       ∧ (truthy remote_issuer = true →
          predicates !! "issuerJurisdiction" = Some remote_issuer)
       ∧ ∀ k v, predicates !! k = Some v →
           is_boolean v = true
           ∨ (k = "issuerJurisdiction" ∧ v = remote_issuer
              ∧ truthy remote_issuer = true))
  ∨ (status response = 400
     ∧ (jwe = EmptyString ∨ result !! "valid" = Some (VBool false))
     ∧ field "ok" response = Some (VBool false)
     ∧ field "predicates" response = None).
Proof.
  intros Hget Hverify response result. subst response result.
  unfold api_verify. rewrite Hget. simpl.
  destruct (String.eqb_spec jwe EmptyString) as [->|Hne]; simpl.
  { right. split_and!; auto. }
  rewrite Hverify.
  destruct (verifyPresentation_shape sha256_base64 w jwe)
    as [[error ->]|(vpToken & transcript & predicates & _ & Hp & ->)].
  - right. split_and!; auto.
  - left. split_and!; try done.
    pose proof Hp as (rp & ri & _ & Hri & Hbool & _)%extractPredicates_minimal.
    exists predicates, vpToken, transcript, ri. split_and!; try done.
    intros Hissuer. by eapply extractPredicates_issuer.
Qed.

End VerifierServerFacts.

Lemma api_verify_answers_witness :
  let response :=
    VerifierServer.api_verify (Scenarios.verify_in Examples.record_longfellow)
      "2025-06-03T00:00:00.000Z" Scenarios.verify_request in
  let result :=
    Verifier.verifyPresentation Examples.digest Examples.record_longfellow
      "eyJhbGciOiJFQ0RILUVTIn0" in
  (IssuerServer.status response = 200
   ∧ "eyJhbGciOiJFQ0RILUVTIn0" ≠ EmptyString
   ∧ result !! "valid" = Some (VBool true)
   ∧ ∃ predicates vpToken sessionTranscript remote_issuer,
       result !! "predicates" = Some (VObj predicates)
       ∧ IssuerServer.body response
         = [("ok", VBool true); ("predicates", VObj predicates);
            ("sessionId", VStr (Verifier.session_uuid Examples.record_longfellow));
            ("timestamp", VStr "2025-06-03T00:00:00.000Z")]
       ∧ get "issuer"
           (Verifier.verifyWithLongfellow Examples.record_longfellow vpToken
              sessionTranscript)
         = Return remote_issuer
       ∧ (truthy remote_issuer = true →
          predicates !! "issuerJurisdiction" = Some remote_issuer)
       ∧ ∀ k v, predicates !! k = Some v →
           is_boolean v = true
           ∨ (k = "issuerJurisdiction" ∧ v = remote_issuer
              ∧ truthy remote_issuer = true))
  ∨ (IssuerServer.status response = 400
     ∧ ("eyJhbGciOiJFQ0RILUVTIn0" = EmptyString ∨ result !! "valid" = Some (VBool false))
     ∧ IssuerServer.field "ok" response = Some (VBool false)
     ∧ IssuerServer.field "predicates" response = None).
Proof.
  apply (api_verify_answers Examples.digest Examples.record_longfellow
           (Scenarios.verify_in Examples.record_longfellow)
           "2025-06-03T00:00:00.000Z" Scenarios.verify_request
           "eyJhbGciOiJFQ0RILUVTIn0"); reflexivity.
Defined.

(* ===================================================================== *)
(** ** Key files *)
(* ===================================================================== *)

Section KeyFacts.

Import Keys.

Variable JSON_parse : string → outcome value.
Variable JSON_stringify : value → string.



(** The reader keys and the environment.  [getReaderKeys] takes the
    pair from the two environment variables when both are set, not
    empty and parse, as they parse and without a look at the key file;
    when one of them is missing or empty the other is ignored, and the
    keys are those of a start without the variables. *)
Theorem getReaderKeys_environment (w : World) :
  (∀ public private publicJwk privateJwk,
     env_public w = Some public → env_private w = Some private →
     public ≠ EmptyString → private ≠ EmptyString →
     JSON_parse public = Return publicJwk →
     JSON_parse private = Return privateJwk →
     getReaderKeys JSON_parse JSON_stringify w
     = (key_pair publicJwk privateJwk, key_file w))
  ∧ (env_public w = None ∨ env_public w = Some EmptyString
     ∨ env_private w = None ∨ env_private w = Some EmptyString →
     getReaderKeys JSON_parse JSON_stringify w
     = getReaderKeys JSON_parse JSON_stringify
         {| env_public := None; env_private := None;
            key_file := key_file w;
            exported_public := exported_public w;
            exported_private := exported_private w;
            write_ok := write_ok w |}).
Proof.
  unfold getReaderKeys, get_keys. split.
  - intros public private publicJwk privateJwk -> -> Hpub Hpriv Hp Hv.
    apply String.eqb_neq in Hpub, Hpriv. simpl. rewrite Hpub, Hpriv. simpl.
    unfold from_environment. by rewrite Hp, Hv.
  - unfold from_file, generate.
    intros [-> | [-> | [-> | ->]]]; simpl; try done.
    + by destruct (env_private w).
    + by destruct (env_public w).
    + destruct (env_public w) as [public|]; [|done].
      by rewrite andb_false_r.
Qed.


End KeyFacts.



Lemma getReaderKeys_environment_witness :
  Keys.getReaderKeys Scenarios.JSON_parse Scenarios.JSON_stringify Scenarios.configured
  = (Keys.key_pair (VObj Scenarios.exported_public_jwk)
                   (VObj Scenarios.exported_private_jwk),
     Keys.key_file Scenarios.configured)
  ∧ Keys.getReaderKeys Scenarios.JSON_parse Scenarios.JSON_stringify
      Scenarios.half_configured
    = (Scenarios.issuer_keys, Keys.key_file Scenarios.half_configured).
Proof.
  split.
  - destruct (getReaderKeys_environment Scenarios.JSON_parse Scenarios.JSON_stringify
                Scenarios.configured) as [Henv _].
    apply (Henv (Scenarios.JSON_stringify (VObj Scenarios.exported_public_jwk))
                (Scenarios.JSON_stringify (VObj Scenarios.exported_private_jwk)));
      try reflexivity; vm_compute; intros [=].
  - destruct (getReaderKeys_environment Scenarios.JSON_parse Scenarios.JSON_stringify
                Scenarios.half_configured) as [_ Hnone].
    rewrite Hnone by (right; right; by left). vm_compute. reflexivity.
Defined.

(* ===================================================================== *)
(** ** IACA root *)
(* ===================================================================== *)

Section IacaFacts.

Import Iaca.

Variable toUpperCase : string → string.

(** Where the certificate of [downloadCAIACA] comes from.  The
    downloaded certificate is returned only if it was written to the
    cache as well.  When the download fails, or the cache directory
    cannot be made, or the cache file cannot be opened for writing, the
    answer is the cached certificate if there is a non-empty one and the
    built-in mock certificate otherwise, and the cache stays as it was.
    When the write fails after it has emptied the file, the former cache
    is lost and what the write left is read back in its place: the
    certificate cut short is returned as if it were the cached one, and
    the mock certificate if nothing was written. *)
Theorem downloadCAIACA_origin (w : World) :
  (∀ pem', download w = Text pem' → mkdir w = Return () → write w = Written →
     downloadCAIACA w = (pem', Some pem'))
  ∧ ((∀ pem', download w ≠ Text pem') ∨ (∃ message, mkdir w = Throw message)
     ∨ write w = NotOpened →
     downloadCAIACA w
     = (match cache_file w with
        | Some cached => if String.eqb cached EmptyString then getMockCAIACA else cached
        | None => getMockCAIACA
        end, cache_file w))
  ∧ (∀ pem' remains,
       download w = Text pem' → mkdir w = Return () → write w = CutShort remains →
       downloadCAIACA w
       = (if String.eqb remains EmptyString then getMockCAIACA else remains,
          Some remains)).
Proof.
  assert (∀ file : option string,
            match file with
            | Some cached =>
                if truthy (VStr cached) then (cached, file) else (getMockCAIACA, file)
            | None => (getMockCAIACA, file)
            end
            = (match file with
               | Some cached =>
                   if String.eqb cached EmptyString then getMockCAIACA else cached
               | None => getMockCAIACA
               end, file)) as Hcatch.
  { intros [cached|]; [|done]. simpl. by destruct (String.eqb cached EmptyString). }
  unfold downloadCAIACA. split_and!.
  - intros pem' -> -> ->. reflexivity.
  - intros Hfail.
    destruct (download w) as [?|?|?|pem'] eqn:Hd; try apply Hcatch.
    destruct (mkdir w) as [[]|e] eqn:Hm; [|apply Hcatch].
    destruct (write w) as [| |remains] eqn:Hw; [|apply Hcatch|];
      destruct Hfail as [H|[[? ?]|?]]; try done; by destruct (H pem').
  - intros pem' remains -> -> ->. apply (Hcatch (Some remains)).
Qed.

(** The IACA check cannot fail.  [getIACARoot] rejects every
    jurisdiction but California (in any case of the letters) and
    resolves for California whatever the network and the cache do;
    [verifyAgainstIACA] answers [valid: true] for every certificate and
    every root, with [mock: true] exactly for the roots that [parseIACA]
    marks as mock, the built-in certificate among them. *)
Theorem verifyAgainstIACA_never_rejects
    (w : World) (jurisdictionCode certificate : string) :
  ((∃ message, (getIACARoot toUpperCase w jurisdictionCode).1 = Throw message)
     ↔ toUpperCase jurisdictionCode ≠ "CA")
  ∧ (toUpperCase jurisdictionCode = "CA" →
       getIACARoot toUpperCase w jurisdictionCode
       = (Return (downloadCAIACA w).1, (downloadCAIACA w).2))
  ∧ (∀ iacaRoot,
       verifyAgainstIACA certificate iacaRoot !! "valid" = Some (VBool true)
       ∧ (verifyAgainstIACA certificate iacaRoot !! "mock" = Some (VBool true)
            ↔ mock (parseIACA iacaRoot) = true)
       ∧ (verifyAgainstIACA certificate iacaRoot !! "mock" = None
            ↔ mock (parseIACA iacaRoot) = false))
  ∧ mock (parseIACA getMockCAIACA) = true.
Proof.
  unfold getIACARoot. split_and!.
  - destruct (String.eqb_spec (toUpperCase jurisdictionCode) "CA") as [->|Hne].
    + destruct (downloadCAIACA w). simpl. split; [by intros [? ?]|done].
    + simpl. split; [done|]. intros _. by eexists.
  - intros ->. simpl. by destruct (downloadCAIACA w).
  - intros iacaRoot. unfold verifyAgainstIACA, parseIACA. simpl.
    destruct (string_includes "Mock" iacaRoot); split_and!; try done.
  - vm_compute. reflexivity.
Qed.

End IacaFacts.
